(** * Encrypted budget manager: the confidentiality layer

    A shallow embedding of [console_budget_calculator.py]: the class
    [CryptoManager] (key loading, [encrypt], [decrypt]) and the listing
    loop of [manage_single_budget], together with the parts of the Python
    runtime they go through ([base64], UTF-8, [os.urandom], the key file). *)

From Stdlib Require Import Strings.Byte Strings.String Strings.Ascii.
From Stdlib Require Import List NArith ZArith Lia Bool.
From Stdlib Require Import Sorting.Sorted.
Import ListNotations.

Set Implicit Arguments.
Local Open Scope N_scope.

(** ** Python values and outcomes *)

(** [bytes] objects. *)
Definition bytes := list byte.

(** A Python [str]: a sequence of Unicode code points. *)
Definition codepoint := N.
Definition pystr := list codepoint.

(** A string literal of the source, as a [pystr]. *)
Fixpoint lit (s : string) : pystr :=
  match s with
  | EmptyString => []
  | String a s' => N_of_ascii a :: lit s'
  end.

(** The exceptions that the modelled code can raise. *)
Inductive exn : Type :=
  | OSError              (* open / read / write on the key file *)
  | ValueError           (* non-ASCII token, bad key or nonce size *)
  | BinasciiError        (* malformed base64 *)
  | InvalidTag           (* AES-GCM authentication failure *)
  | OverflowError        (* plaintext too long for AES-GCM *)
  | UnicodeEncodeError   (* [str.encode] on a lone surrogate *)
  | UnicodeDecodeError.  (* [bytes.decode] on invalid UTF-8 *)

(** What a call does: it returns a value or raises. *)
Inductive outcome (A : Type) : Type :=
  | Returns (a : A)
  | Raises (e : exn).
Arguments Raises {A} e.

Definition obind {A B} (o : outcome A) (k : A -> outcome B) : outcome B :=
  match o with
  | Returns a => k a
  | Raises e => Raises e
  end.

Definition omap {A B} (f : A -> B) (o : outcome A) : outcome B :=
  obind o (fun a => Returns (f a)).

(** [try: body  except Exception: return fallback] *)
Definition try_except {A} (body : outcome A) (fallback : A) : outcome A :=
  match body with
  | Returns a => Returns a
  | Raises _ => Returns fallback
  end.

Declare Scope outcome_scope.
Delimit Scope outcome_scope with outcome.
Notation "x <- c ;; k" := (obind c (fun x => k))
  (at level 61, c at next level, right associativity) : outcome_scope.

(** ** Bytes as numbers *)

(** A number stored into an [unsigned char]: its low eight bits. *)
Definition byte_of_N (n : N) : byte :=
  match Byte.of_N (N.land n 0xFF) with
  | Some b => b
  | None => x00
  end.

Definition all_bytes : list byte := map (fun n => byte_of_N (N.of_nat n)) (seq 0 256).

(** A check of the [2 ^ k] numbers from [base * 2 ^ k] on, bit by bit. *)
Fixpoint all_in_block (k : nat) (base : N) (P : N -> bool) : bool :=
  match k with
  | O => P base
  | S k' =>
      if all_in_block k' (2 * base) P
      then all_in_block k' (2 * base + 1) P
      else false
  end.

(** A check of every number below [2 ^ k]. *)
Definition all_below_pow2 (k : nat) (P : N -> bool) : bool :=
  all_in_block k 0 P.

(** ** [base64]: the standard alphabet *)

Module Base64.

Definition alphabet : list byte :=
  list_byte_of_string
    "ABCDEFGHIJKLMNOPQRSTUVWXYZabcdefghijklmnopqrstuvwxyz0123456789+/".

Definition PAD : byte := "="%byte.

(** [table_b2a_base64[v]] *)
Definition table_b2a (v : N) : byte := nth (N.to_nat v) alphabet PAD.

Fixpoint index_of (c : byte) (l : list byte) (i : N) : option N :=
  match l with
  | [] => None
  | x :: l' => if Byte.eqb c x then Some i else index_of c l' (N.succ i)
  end.

(** [table_a2b_base64[c]]: the 6-bit value of an alphabet character,
    [None] for every other byte. *)
Definition table_a2b (c : byte) : option N := index_of c alphabet 0.

(** The four 6-bit groups of three bytes. *)
Definition sextet0 (b0 : byte) : N := N.shiftr (Byte.to_N b0) 2.
Definition sextet1 (b0 b1 : byte) : N :=
  N.lor (N.shiftl (N.land (Byte.to_N b0) 3) 4) (N.shiftr (Byte.to_N b1) 4).
Definition sextet2 (b1 b2 : byte) : N :=
  N.lor (N.shiftl (N.land (Byte.to_N b1) 15) 2) (N.shiftr (Byte.to_N b2) 6).
Definition sextet3 (b2 : byte) : N := N.land (Byte.to_N b2) 63.

(** [binascii.b2a_base64(data, newline=False)]: three bytes give four
    characters; one or two left-over bytes give two or three characters
    and the padding. *)
Fixpoint b2a_base64 (data : bytes) : bytes :=
  match data with
  | [] => []
  | [b0] =>
      [table_b2a (sextet0 b0); table_b2a (sextet1 b0 x00); PAD; PAD]
  | [b0; b1] =>
      [table_b2a (sextet0 b0); table_b2a (sextet1 b0 b1);
       table_b2a (sextet2 b1 x00); PAD]
  | b0 :: b1 :: b2 :: rest =>
      table_b2a (sextet0 b0) :: table_b2a (sextet1 b0 b1)
        :: table_b2a (sextet2 b1 b2) :: table_b2a (sextet3 b2)
        :: b2a_base64 rest
  end.

(** [base64.b64encode(s)] *)
Definition b64encode (s : bytes) : bytes := b2a_base64 s.

(** The position in the current group of four characters. *)
Inductive quad : Type := Q0 | Q1 | Q2 | Q3.

Definition emit (n : N) (o : outcome bytes) : outcome bytes :=
  omap (cons (byte_of_N n)) o.

(** [binascii.a2b_base64(data)] with [strict_mode=False]: the loop over
    the input with its state [quad_pos], [leftchar], [pads].  Bytes
    outside the alphabet are skipped; a padding character that completes
    a group ends the decoding; input that stops inside a group is an
    error. *)
Fixpoint a2b_loop (data : bytes) (quad_pos : quad) (leftchar pads : N)
  : outcome bytes :=
  match data with
  | [] =>
      match quad_pos with
      | Q0 => Returns []
      | _ => Raises BinasciiError
      end
  | this_ch :: data' =>
      if Byte.eqb this_ch PAD then
        match quad_pos with
        | Q0 | Q1 => a2b_loop data' quad_pos leftchar pads
        | Q2 =>
            if 4 <=? 2 + (pads + 1) then Returns []
            else a2b_loop data' quad_pos leftchar (pads + 1)
        | Q3 =>
            if 4 <=? 3 + (pads + 1) then Returns []
            else a2b_loop data' quad_pos leftchar (pads + 1)
        end
      else
        match table_a2b this_ch with
        | None => a2b_loop data' quad_pos leftchar pads
        | Some v =>
            match quad_pos with
            | Q0 => a2b_loop data' Q1 v 0
            | Q1 =>
                emit (N.lor (N.shiftl leftchar 2) (N.shiftr v 4))
                     (a2b_loop data' Q2 (N.land v 15) 0)
            | Q2 =>
                emit (N.lor (N.shiftl leftchar 4) (N.shiftr v 2))
                     (a2b_loop data' Q3 (N.land v 3) 0)
            | Q3 =>
                emit (N.lor (N.shiftl leftchar 6) v)
                     (a2b_loop data' Q0 0 0)
            end
        end
  end.

Definition a2b_base64 (data : bytes) : outcome bytes := a2b_loop data Q0 0 0.

(** [s.encode('ascii')] inside [base64._bytes_from_decode_data]: a
    non-ASCII character makes [b64decode] raise [ValueError]. *)
Fixpoint bytes_from_decode_data (s : pystr) : outcome bytes :=
  match s with
  | [] => Returns []
  | c :: s' =>
      if c <? 128
      then omap (cons (byte_of_N c)) (bytes_from_decode_data s')
      else Raises ValueError
  end.

(** [base64.b64decode(s)] on a [str], [validate=False]. *)
Definition b64decode (s : pystr) : outcome bytes :=
  obind (bytes_from_decode_data s) a2b_base64.

End Base64.

(** The second character of a final group [xx==] carries four bits that
    the decoder drops: setting the lowest of them gives another character
    and the same byte. *)
Definition slack_ok (b : byte) : bool :=
  let v := N.lor (Base64.sextet1 b x00) 1 in
  (v <? 64)
  && Byte.eqb (byte_of_N (N.lor (N.shiftl (Base64.sextet0 b) 2) (N.shiftr v 4))) b
  && negb (Byte.to_N (Base64.table_b2a (Base64.sextet1 b x00)) =? Byte.to_N (Base64.table_b2a v)).

(** ** UTF-8 *)

Module Utf8.

Definition is_surrogate (c : codepoint) : bool :=
  (0xD800 <=? c) && (c <=? 0xDFFF).

(** A code point that [str.encode('utf-8')] accepts. *)
Definition encodable (c : codepoint) : bool :=
  (c <? 0x110000) && negb (is_surrogate c).

(** The bytes of one code point. *)
Definition encode_cp (c : codepoint) : bytes :=
  if c <? 0x80 then
    [byte_of_N c]
  else if c <? 0x800 then
    [byte_of_N (N.lor 0xC0 (N.shiftr c 6));
     byte_of_N (N.lor 0x80 (N.land c 0x3F))]
  else if c <? 0x10000 then
    [byte_of_N (N.lor 0xE0 (N.shiftr c 12));
     byte_of_N (N.lor 0x80 (N.land (N.shiftr c 6) 0x3F));
     byte_of_N (N.lor 0x80 (N.land c 0x3F))]
  else
    [byte_of_N (N.lor 0xF0 (N.shiftr c 18));
     byte_of_N (N.lor 0x80 (N.land (N.shiftr c 12) 0x3F));
     byte_of_N (N.lor 0x80 (N.land (N.shiftr c 6) 0x3F));
     byte_of_N (N.lor 0x80 (N.land c 0x3F))].

(** [s.encode('utf-8')]: strict, a lone surrogate raises. *)
Fixpoint encode (s : pystr) : outcome bytes :=
  match s with
  | [] => Returns []
  | c :: s' =>
      if encodable c
      then omap (app (encode_cp c)) (encode s')
      else Raises UnicodeEncodeError
  end.

Definition is_cont (b : byte) : bool :=
  N.land (Byte.to_N b) 0xC0 =? 0x80.

Definition payload (b : byte) : N := N.land (Byte.to_N b) 0x3F.

(** Two-, three- and four-byte sequences: the code point, or [None] for
    a bad continuation byte, an overlong form, a surrogate or a value
    above U+10FFFF. *)
Definition scalar2 (b0 b1 : byte) : option codepoint :=
  let c := N.lor (N.shiftl (N.land (Byte.to_N b0) 0x1F) 6) (payload b1) in
  if is_cont b1 && (0x80 <=? c) then Some c else None.

Definition scalar3 (b0 b1 b2 : byte) : option codepoint :=
  let c := N.lor (N.shiftl (N.land (Byte.to_N b0) 0x0F) 12)
                 (N.lor (N.shiftl (payload b1) 6) (payload b2)) in
  if is_cont b1 && is_cont b2 && (0x800 <=? c) && negb (is_surrogate c)
  then Some c else None.

Definition scalar4 (b0 b1 b2 b3 : byte) : option codepoint :=
  let c := N.lor (N.shiftl (N.land (Byte.to_N b0) 0x07) 18)
                 (N.lor (N.shiftl (payload b1) 12)
                        (N.lor (N.shiftl (payload b2) 6) (payload b3))) in
  if is_cont b1 && is_cont b2 && is_cont b3
     && (0x10000 <=? c) && (c <? 0x110000)
  then Some c else None.

Definition next (o : option codepoint) (k : outcome pystr) : outcome pystr :=
  match o with
  | Some c => omap (cons c) k
  | None => Raises UnicodeDecodeError
  end.

(** [b.decode('utf-8')]: strict. *)
Fixpoint decode (b : bytes) : outcome pystr :=
  match b with
  | [] => Returns []
  | b0 :: t0 =>
      let n0 := Byte.to_N b0 in
      if n0 <? 0x80 then omap (cons n0) (decode t0)
      else if n0 <? 0xC0 then Raises UnicodeDecodeError
      else if n0 <? 0xE0 then
        match t0 with
        | b1 :: t1 => next (scalar2 b0 b1) (decode t1)
        | _ => Raises UnicodeDecodeError
        end
      else if n0 <? 0xF0 then
        match t0 with
        | b1 :: b2 :: t2 => next (scalar3 b0 b1 b2) (decode t2)
        | _ => Raises UnicodeDecodeError
        end
      else if n0 <? 0xF8 then
        match t0 with
        | b1 :: b2 :: b3 :: t3 => next (scalar4 b0 b1 b2 b3) (decode t3)
        | _ => Raises UnicodeDecodeError
        end
      else Raises UnicodeDecodeError
  end.

End Utf8.

(** The check on the first byte of a UTF-8 sequence, built as [mark] with
    the high bits [h] of the code point: it lies in [lo, hi) and [mask]
    recovers [h]. *)
Definition lead_ok (mark mask lo hi h : N) : bool :=
  let n0 := Byte.to_N (byte_of_N (N.lor mark h)) in
  (lo <=? n0) && (n0 <? hi) && (N.land n0 mask =? h).

(** ** AES-GCM *)

(** The cipher behind [cryptography]'s [AESGCM]: sealing gives the
    ciphertext followed by the tag, opening gives the plaintext when the
    tag verifies.  The arguments are the key, the nonce and the data (the
    source passes no associated data). *)
Record aead : Type := {
  gcm_seal : bytes -> bytes -> bytes -> bytes;
  gcm_open : bytes -> bytes -> bytes -> option bytes
}.

Module AESGCM.

Definition MAX_SIZE : N := 2 ^ 31 - 1.
Definition TAG_LENGTH : nat := 16.

Definition key_size_ok (key : bytes) : bool :=
  let n := length key in
  (n =? 16)%nat || (n =? 24)%nat || (n =? 32)%nat.

Definition nonce_size_ok (nonce : bytes) : bool :=
  (8 <=? length nonce)%nat && (length nonce <=? 128)%nat.

(** An [AESGCM] object: the key it was built with. *)
Record t : Type := { key_of : bytes }.

(** [AESGCM(key)] *)
Definition new (key : bytes) : outcome t :=
  if key_size_ok key then Returns {| key_of := key |} else Raises ValueError.

Section Cipher.
Variable G : aead.

(** [aesgcm.encrypt(nonce, data, None)] *)
Definition encrypt (self : t) (nonce data : bytes) : outcome bytes :=
  if MAX_SIZE <? N.of_nat (length data) then Raises OverflowError
  else if negb (nonce_size_ok nonce) then Raises ValueError
  else Returns (gcm_seal G (key_of self) nonce data).

(** [aesgcm.decrypt(nonce, data, None)] *)
Definition decrypt (self : t) (nonce data : bytes) : outcome bytes :=
  if negb (nonce_size_ok nonce) then Raises ValueError
  else if (length data <? TAG_LENGTH)%nat then Raises InvalidTag
  else match gcm_open G (key_of self) nonce data with
       | Some plain => Returns plain
       | None => Raises InvalidTag
       end.
End Cipher.

End AESGCM.

(** ** The process environment *)

Inductive file : Type :=
  | Absent
  | Present (content : bytes) (readable : bool).

Record world : Type := World {
  key_file : file;          (* the file named [KEY_FILE] *)
  writable : bool;          (* whether [KEY_FILE] can be opened for writing *)
  entropy : nat -> byte;    (* the bytes the OS random source delivers *)
  drawn : nat;              (* how many of them were consumed *)
  stdout : list pystr       (* what was printed, latest first *)
}.

(** Code with effects on the environment that may raise. *)
Definition M (A : Type) : Type := world -> outcome A * world.

Definition ret {A} (a : A) : M A := fun w => (Returns a, w).

Definition bind {A B} (m : M A) (k : A -> M B) : M B :=
  fun w =>
    match m w with
    | (Returns a, w') => k a w'
    | (Raises e, w') => (Raises e, w')
    end.

Definition lift {A} (o : outcome A) : M A := fun w => (o, w).

Declare Scope M_scope.
Delimit Scope M_scope with M.
Notation "x <- c ;; k" := (bind c (fun x => k))
  (at level 61, c at next level, right associativity) : M_scope.
Notation "c ;;; k" := (bind c (fun _ => k))
  (at level 61, right associativity) : M_scope.

(** [os.path.exists(KEY_FILE)] *)
Definition path_exists : M bool :=
  fun w =>
    match key_file w with
    | Absent => (Returns false, w)
    | Present _ _ => (Returns true, w)
    end.

(** [with open(KEY_FILE, "rb") as f: f.read()] *)
Definition read_key_file : M bytes :=
  fun w =>
    match key_file w with
    | Present content true => (Returns content, w)
    | _ => (Raises OSError, w)
    end.

(** [with open(KEY_FILE, "wb") as f: f.write(data)] *)
Definition write_key_file (data : bytes) : M unit :=
  fun w =>
    if writable w
    then (Returns tt,
          {| key_file := Present data true; writable := writable w;
             entropy := entropy w; drawn := drawn w; stdout := stdout w |})
    else (Raises OSError, w).

(** [os.urandom(n)] *)
Definition urandom (n : nat) : M bytes :=
  fun w =>
    (Returns (map (entropy w) (seq (drawn w) n)),
     {| key_file := key_file w; writable := writable w;
        entropy := entropy w; drawn := (drawn w + n)%nat; stdout := stdout w |}).

(** [print(s)] *)
Definition print (s : pystr) : M unit :=
  fun w =>
    (Returns tt,
     {| key_file := key_file w; writable := writable w;
        entropy := entropy w; drawn := drawn w; stdout := s :: stdout w |}).

(** [AESGCM.generate_key(bit_length=256)] *)
Definition generate_key (bit_length : nat) : M bytes :=
  urandom (bit_length / 8).

(** ** [class CryptoManager] *)

Module CryptoManager.

Record t : Type := { key : bytes; aesgcm : AESGCM.t }.

Definition new_key_notice : pystr :=
  lit "[!] New encryption key generated and saved to 'budget_key.key'.".

Definition decryption_error : pystr := lit "[Decryption Error]".

Local Open Scope M_scope.

Definition _load_or_generate_key : M bytes :=
  found <- path_exists ;;
  if found then
    read_key_file
  else
    key <- generate_key 256 ;;
    write_key_file key ;;;
    print new_key_notice ;;;
    ret key.

Definition __init__ : M t :=
  key <- _load_or_generate_key ;;
  aesgcm <- lift (AESGCM.new key) ;;
  ret {| key := key; aesgcm := aesgcm |}.

Section Cipher.
Variable G : aead.

Definition encrypt (self : t) (plaintext : pystr) : M pystr :=
  nonce <- urandom 12 ;;
  data <- lift (Utf8.encode plaintext) ;;
  ciphertext <- lift (AESGCM.encrypt G (aesgcm self) nonce data) ;;
  lift (Utf8.decode (Base64.b64encode (nonce ++ ciphertext))).

(** The body of the [try] block of [decrypt]. *)
Definition decrypt_try (self : t) (token : pystr) : outcome pystr :=
  (encrypted_blob <- Base64.b64decode token ;;
   let nonce := firstn 12 encrypted_blob in
   let ciphertext := skipn 12 encrypted_blob in
   plain <- AESGCM.decrypt G (aesgcm self) nonce ciphertext ;;
   Utf8.decode plain)%outcome.

Definition decrypt (self : t) (token : pystr) : outcome pystr :=
  try_except (decrypt_try self token) decryption_error.
End Cipher.

End CryptoManager.

(** ** [class BudgetDB]: the [items] table *)

Module BudgetDB.

Record item : Type := {
  id : Z;
  budget_id : Z;
  description : pystr;
  amount : pystr
}.

(** The rows of [items], in the order a [SELECT] returns them. *)
Definition t : Type := list item.

(** [SELECT id, description, amount FROM items WHERE budget_id = ?] *)
Definition get_items (db : t) (b : Z) : list (Z * pystr * pystr) :=
  map (fun r => (id r, description r, amount r))
      (filter (fun r => Z.eqb (budget_id r) b) db).

End BudgetDB.

(** ** Python [float] *)

(** The float operations of the listing: [0.0], [+=] and [float(s)], which
    is [None] where Python raises [ValueError]. *)
Record float_model : Type := {
  float : Type;
  float_zero : float;
  float_add : float -> float -> float;
  float_of_str : pystr -> option float
}.

(** ** [manage_single_budget]: the listing *)

(** A printed row of the table: an item with its amount, or an item with
    [Error] in the amount column. *)
Inductive line (F : Type) : Type :=
  | ItemLine (item_id : Z) (dec_desc : pystr) (dec_amt : F)
  | ErrorLine (item_id : Z) (dec_desc : pystr).
Arguments ErrorLine {F} item_id dec_desc.

Section Listing.
Variable G : aead.
Variable F : float_model.

Local Open Scope outcome_scope.

(** The [for item in items] loop: the rows printed and the total. *)
Fixpoint show_items (crypto : CryptoManager.t)
         (items : list (Z * pystr * pystr)) (total : float F)
  : outcome (list (line (float F)) * float F) :=
  match items with
  | [] => Returns ([], total)
  | (item_id, desc_enc, amt_enc) :: items' =>
      dec_desc <- CryptoManager.decrypt G crypto desc_enc ;;
      dec_amt_str <- CryptoManager.decrypt G crypto amt_enc ;;
      match float_of_str F dec_amt_str with
      | Some dec_amt =>
          let total := float_add F total dec_amt in
          r <- show_items crypto items' total ;;
          Returns (ItemLine item_id dec_desc dec_amt :: fst r, snd r)
      | None =>
          r <- show_items crypto items' total ;;
          Returns (ErrorLine item_id dec_desc :: fst r, snd r)
      end
  end.

(** The display at the top of the loop of [manage_single_budget]. *)
Definition manage_single_budget_display (db : BudgetDB.t) (crypto : CryptoManager.t)
           (budget_id : Z) : outcome (list (line (float F)) * float F) :=
  let items := BudgetDB.get_items db budget_id in
  show_items crypto items (float_zero F).
End Listing.

(** ** Properties of a cipher *)

(** Opening what was sealed gives the data back. *)
Definition aead_correct (G : aead) : Prop :=
  forall key nonce data,
    AESGCM.key_size_ok key = true ->
    AESGCM.nonce_size_ok nonce = true ->
    gcm_open G key nonce (gcm_seal G key nonce data) = Some data.

(** The sealed data is the ciphertext, as long as the data, and a tag of
    16 bytes. *)
Definition aead_tag_length (G : aead) : Prop :=
  forall key nonce data,
    AESGCM.key_size_ok key = true ->
    AESGCM.nonce_size_ok nonce = true ->
    length (gcm_seal G key nonce data) = (length data + 16)%nat.

(** What [__init__] establishes: the cipher object holds the manager's
    key, and [AESGCM] accepted its size. *)
Definition constructed (self : CryptoManager.t) : Prop :=
  AESGCM.new (CryptoManager.key self) = Returns (CryptoManager.aesgcm self).

(** The nonce that the next call of [encrypt] draws. *)
Definition next_nonce (w : world) : bytes :=
  map (entropy w) (seq (drawn w) 12).

(** The plaintexts [encrypt] accepts: text that UTF-8 can encode, within
    the size limit of the cipher. *)
Definition practical (plaintext : pystr) (data : bytes) : Prop :=
  Utf8.encode plaintext = Returns data /\
  N.of_nat (length data) <= AESGCM.MAX_SIZE.

(** The ways in which decrypting a token does not succeed: the text is
    not base64, the blob is too short for a nonce and a tag, the tag does
    not verify, or the plaintext is not UTF-8. *)
Inductive decrypt_failure (G : aead) (self : CryptoManager.t) (token : pystr)
  : Prop :=
  | malformed_encoding (e : exn) :
      Base64.b64decode token = Raises e ->
      decrypt_failure G self token
  | wrong_length (blob : bytes) :
      Base64.b64decode token = Returns blob ->
      (length blob < 12 + 16)%nat ->
      decrypt_failure G self token
  | tag_mismatch (blob : bytes) :
      Base64.b64decode token = Returns blob ->
      gcm_open G (AESGCM.key_of (CryptoManager.aesgcm self))
               (firstn 12 blob) (skipn 12 blob) = None ->
      decrypt_failure G self token
  | invalid_utf8 (blob plain : bytes) (e : exn) :
      Base64.b64decode token = Returns blob ->
      AESGCM.decrypt G (CryptoManager.aesgcm self)
                     (firstn 12 blob) (skipn 12 blob) = Returns plain ->
      Utf8.decode plain = Raises e ->
      decrypt_failure G self token.

(** The cipher rejects what the changed token [t'] decodes to, unless
    that is what [t] decodes to. *)
Definition rejects_tampering (G : aead) (self : CryptoManager.t)
           (t t' : pystr) : Prop :=
  forall blob',
    Base64.b64decode t' = Returns blob' ->
    Base64.b64decode t <> Returns blob' ->
    gcm_open G (AESGCM.key_of (CryptoManager.aesgcm self))
             (firstn 12 blob') (skipn 12 blob') = None.

(** The key file can be used: an existing file can be read, a missing
    one can be created. *)
Definition key_io_works (w : world) : Prop :=
  match key_file w with
  | Present _ readable => readable = true
  | Absent => writable w = true
  end.

(** The key file cannot be used: it exists but cannot be read, or it is
    missing and cannot be written. *)
Definition key_io_fails (w : world) : Prop :=
  match key_file w with
  | Present _ readable => readable = false
  | Absent => writable w = false
  end.

(** ** The listing, row by row *)

(** The row printed for an item whose fields decrypt to [desc] and [amt]. *)
Definition plain_line (F : float_model) (row : Z * pystr * pystr)
  : line (float F) :=
  let '(item_id, desc, amt) := row in
  match float_of_str F amt with
  | Some x => ItemLine item_id desc x
  | None => ErrorLine item_id desc
  end.

(** The amounts that parse, in the order of the rows. *)
Definition parsed_amounts (F : float_model) (rows : list (Z * pystr * pystr))
  : list (float F) :=
  flat_map (fun row : Z * pystr * pystr =>
              match float_of_str F (snd row) with
              | Some x => [x]
              | None => []
              end) rows.

(** [total = 0.0] and then [total += x] for each amount. *)
Definition float_sum (F : float_model) (amounts : list (float F)) : float F :=
  fold_left (float_add F) amounts (float_zero F).

(** A stored row whose two tokens decrypt to the fields of [plain]. *)
Definition decrypts_to (G : aead) (self : CryptoManager.t)
           (stored plain : Z * pystr * pystr) : Prop :=
  fst (fst stored) = fst (fst plain)
  /\ CryptoManager.decrypt_try G self (snd (fst stored)) = Returns (snd (fst plain))
  /\ CryptoManager.decrypt_try G self (snd stored) = Returns (snd plain).

(** Which of the two tokens of a row is corrupted; the other one still
    decrypts, to the given text. *)
Inductive corruption : Type :=
  | AmountToken (desc : pystr)
  | DescriptionToken (amt : pystr).

Definition corrupted_row (G : aead) (self : CryptoManager.t)
           (desc_enc amt_enc : pystr) (c : corruption) : Prop :=
  match c with
  | AmountToken desc =>
      CryptoManager.decrypt_try G self desc_enc = Returns desc
      /\ decrypt_failure G self amt_enc
  | DescriptionToken amt =>
      decrypt_failure G self desc_enc
      /\ CryptoManager.decrypt_try G self amt_enc = Returns amt
  end.

(** ** Changing one character of a token *)

Inductive single_change (A : Type) : list A -> list A -> Prop :=
  | change_here (c c' : A) (l : list A) :
      c <> c' -> single_change (c :: l) (c' :: l)
  | change_later (c : A) (l l' : list A) :
      single_change l l' -> single_change (c :: l) (c :: l').

(** Every string that differs from [t] in at most one place, the new
    character being ASCII. *)
Fixpoint ascii_changes (t : pystr) : list pystr :=
  match t with
  | [] => []
  | c :: t' =>
      map (fun c' => N.of_nat c' :: t') (seq 0 128)
        ++ map (cons c) (ascii_changes t')
  end.

(** ** A small cipher and small amounts, to run the model *)

Module Sample.

(** A running checksum of 128 bits. *)
Definition checksum (data : bytes) : N :=
  fold_left (fun acc b => (acc * 257 + Byte.to_N b + 1) mod 2 ^ 128) data 0.

Definition tag (key nonce data : bytes) : bytes :=
  let h := checksum (key ++ nonce ++ data) in
  map (fun i => byte_of_N (N.shiftr h (8 * N.of_nat i))) (seq 0 16).

Fixpoint bytes_eqb (a b : bytes) : bool :=
  match a, b with
  | [], [] => true
  | x :: a', y :: b' => Byte.eqb x y && bytes_eqb a' b'
  | _, _ => false
  end.

Definition seal (key nonce data : bytes) : bytes :=
  data ++ tag key nonce data.

Definition open (key nonce sealed : bytes) : option bytes :=
  let n := (length sealed - 16)%nat in
  let data := firstn n sealed in
  if (16 <=? length sealed)%nat && bytes_eqb (skipn n sealed) (tag key nonce data)
  then Some data else None.

Definition cipher : aead := {| gcm_seal := seal; gcm_open := open |}.

(** Amounts that are whole numbers written in decimal digits. *)
Fixpoint digits (s : pystr) (acc : Z) : option Z :=
  match s with
  | [] => Some acc
  | c :: s' =>
      if (48 <=? c) && (c <=? 57)
      then digits s' (10 * acc + Z.of_N (c - 48))%Z
      else None
  end.

Definition whole_of_str (s : pystr) : option Z :=
  match s with
  | [] => None
  | _ => digits s 0%Z
  end.

Definition whole : float_model :=
  {| float := Z; float_zero := 0%Z; float_add := Z.add;
     float_of_str := whole_of_str |}.

Definition key : bytes := map (fun n => byte_of_N (N.of_nat n)) (seq 1 32).

Definition manager : CryptoManager.t :=
  {| CryptoManager.key := key;
     CryptoManager.aesgcm := {| AESGCM.key_of := key |} |}.

(** An environment with no key file yet; the random source delivers
    [7 * i + 3] as its [i]-th byte. *)
Definition fresh : world :=
  {| key_file := Absent; writable := true;
     entropy := fun i => byte_of_N (N.of_nat (7 * i + 3));
     drawn := 0; stdout := [] |}.

(** The token that [manager] makes of a text in an environment. *)
Definition token_in (w : world) (text : string) : pystr :=
  match fst (CryptoManager.encrypt cipher manager (lit text) w) with
  | Returns token => token
  | Raises _ => []
  end.

Definition token_of (text : string) : pystr := token_in fresh text.

(** A token with its first character replaced. *)
Definition corrupt (token : pystr) : pystr :=
  match token with
  | [] => []
  | c :: rest => (if c =? 66 then 67 else 66) :: rest
  end.

(** The environment after one call of [encrypt]. *)
Definition later : world :=
  snd (CryptoManager.encrypt cipher manager (lit "Milk") fresh).

(** A key file of 128 bits. *)
Definition short_key : bytes := firstn 16 key.

Definition stale : world :=
  {| key_file := Present short_key true; writable := true;
     entropy := entropy fresh; drawn := 0; stdout := [] |}.

(** A key file that cannot be read. *)
Definition locked : world :=
  {| key_file := Present key false; writable := true;
     entropy := entropy fresh; drawn := 0; stdout := [] |}.

(** A budget with three items, the amount token of the second corrupted,
    and an item of another budget. *)
Definition groceries : BudgetDB.t :=
  [ {| BudgetDB.id := 1; BudgetDB.budget_id := 1;
       BudgetDB.description := token_of "Milk";
       BudgetDB.amount := token_of "3" |};
    {| BudgetDB.id := 2; BudgetDB.budget_id := 1;
       BudgetDB.description := token_of "Bread";
       BudgetDB.amount := corrupt (token_of "4") |};
    {| BudgetDB.id := 3; BudgetDB.budget_id := 2;
       BudgetDB.description := token_of "Rent";
       BudgetDB.amount := token_of "900" |};
    {| BudgetDB.id := 4; BudgetDB.budget_id := 1;
       BudgetDB.description := token_of "Eggs";
       BudgetDB.amount := token_of "2" |} ]%Z.

(** A budget with one item, its description token corrupted. *)
Definition mislabelled : BudgetDB.t :=
  [ {| BudgetDB.id := 1; BudgetDB.budget_id := 1;
       BudgetDB.description := corrupt (token_of "Milk");
       BudgetDB.amount := token_of "5" |} ]%Z.

(** The token of the empty text, and the same token with the last
    character before the padding replaced. *)
Definition empty_token : pystr := token_of "".

Definition nudged_token : pystr :=
  lit "AwoRGB8mLTQ7QklQLpDJv0WAhnW3RfGsPOw9Ox==".

End Sample.

(** ** [class BudgetDB]: the tables and the statements *)

(** What the database and the console add to the exceptions above. *)
Inductive failure : Type :=
  | Py (e : exn)
  | IntegrityError      (* [sqlite3.IntegrityError] *)
  | OperationalError    (* [sqlite3.OperationalError]: no row id is left *)
  | EOFError            (* [input()] at the end of the input *)
  | Unfinished.         (* not of Python: a loop of the model was cut short *)

Inductive result (A : Type) : Type :=
  | Done (a : A)
  | Failed (f : failure).
Arguments Failed {A} f.

Fixpoint str_eqb (a b : pystr) : bool :=
  match a, b with
  | [], [] => true
  | x :: a', y :: b' => (x =? y) && str_eqb a' b'
  | _, _ => false
  end.

Module Database.

(** The largest row id of SQLite. *)
Definition MAX_ROWID : Z := 2 ^ 63 - 1.

(** A Python [int] that can be bound to a parameter: it fits in 64 bits,
    otherwise [execute] raises [OverflowError]. *)
Definition sql_integer (z : Z) : bool :=
  (- 2 ^ 63 <=? z)%Z && (z <=? MAX_ROWID)%Z.

(** A Python [str] that can be bound to a parameter: it has a UTF-8
    encoding, otherwise [execute] raises [UnicodeEncodeError]. *)
Definition sql_text (s : pystr) : bool := forallb Utf8.encodable s.

(** The two tables, each with the largest row id it ever held (the
    [sqlite_sequence] entry of an [AUTOINCREMENT] key).  The rows of
    [items] are kept in row id order, as a scan returns them; no order is
    promised for [budgets]. *)
Record t : Type := {
  budgets : list (Z * pystr);
  budgets_seq : Z;
  items : BudgetDB.t;
  items_seq : Z
}.

(** A new database file after [_create_tables]. *)
Definition empty : t :=
  {| budgets := []; budgets_seq := 0; items := []; items_seq := 0 |}.

(** The row id of an [AUTOINCREMENT] insert: one more than the largest id
    the table ever held. *)
Definition next_rowid (seq : Z) (ids : list Z) : Z :=
  (Z.max seq (fold_right Z.max 0 ids) + 1)%Z.

Definition budget_ids (db : t) : list Z := map fst (budgets db).
Definition budget_names (db : t) : list pystr := map snd (budgets db).
Definition item_ids (db : t) : list Z := map BudgetDB.id (items db).

Definition has_budget (db : t) (budget_id : Z) : bool :=
  existsb (Z.eqb budget_id) (budget_ids db).

Definition has_item (db : t) (item_id : Z) : bool :=
  existsb (Z.eqb item_id) (item_ids db).

(** [INSERT INTO budgets (name) VALUES (?)] *)
Definition insert_budget (name : pystr) (db : t) : result unit * t :=
  if negb (sql_text name) then (Failed (Py UnicodeEncodeError), db)
  else
    let new_id := next_rowid (budgets_seq db) (budget_ids db) in
    if (MAX_ROWID <? new_id)%Z then (Failed OperationalError, db)
    else if existsb (str_eqb name) (budget_names db)
         then (Failed IntegrityError, db)
    else (Done tt,
          {| budgets := budgets db ++ [(new_id, name)];
             budgets_seq := new_id;
             items := items db; items_seq := items_seq db |}).

(** [UPDATE budgets SET name = ? WHERE id = ?] *)
Definition update_budget (new_name : pystr) (budget_id : Z) (db : t)
  : result unit * t :=
  if negb (sql_text new_name) then (Failed (Py UnicodeEncodeError), db)
  else if negb (sql_integer budget_id) then (Failed (Py OverflowError), db)
  else if negb (has_budget db budget_id) then (Done tt, db)
  else if existsb (fun b => negb (fst b =? budget_id)%Z && str_eqb new_name (snd b))
                  (budgets db)
       then (Failed IntegrityError, db)
  else (Done tt,
        {| budgets := map (fun b => if (fst b =? budget_id)%Z
                                    then (fst b, new_name) else b)
                          (budgets db);
           budgets_seq := budgets_seq db;
           items := items db; items_seq := items_seq db |}).

(** [DELETE FROM budgets WHERE id = ?], with [ON DELETE CASCADE] on the
    items that refer to the budget. *)
Definition delete_budget_row (budget_id : Z) (db : t) : result unit * t :=
  if negb (sql_integer budget_id) then (Failed (Py OverflowError), db)
  else if negb (has_budget db budget_id) then (Done tt, db)
  else (Done tt,
        {| budgets := filter (fun b => negb (fst b =? budget_id)%Z) (budgets db);
           budgets_seq := budgets_seq db;
           items := filter (fun r => negb (BudgetDB.budget_id r =? budget_id)%Z)
                           (items db);
           items_seq := items_seq db |}).

(** [INSERT INTO items (budget_id, description, amount) VALUES (?, ?, ?)];
    the foreign key needs an existing budget. *)
Definition insert_item (budget_id : Z) (desc_enc amt_enc : pystr) (db : t)
  : result unit * t :=
  if negb (sql_integer budget_id) then (Failed (Py OverflowError), db)
  else if negb (sql_text desc_enc && sql_text amt_enc)
       then (Failed (Py UnicodeEncodeError), db)
  else
    let new_id := next_rowid (items_seq db) (item_ids db) in
    if (MAX_ROWID <? new_id)%Z then (Failed OperationalError, db)
    else if negb (has_budget db budget_id) then (Failed IntegrityError, db)
    else (Done tt,
          {| budgets := budgets db; budgets_seq := budgets_seq db;
             items := items db
                        ++ [ {| BudgetDB.id := new_id;
                                BudgetDB.budget_id := budget_id;
                                BudgetDB.description := desc_enc;
                                BudgetDB.amount := amt_enc |} ];
             items_seq := new_id |}).

(** [UPDATE items SET description = ?, amount = ? WHERE id = ?] *)
Definition update_item_row (item_id : Z) (desc_enc amt_enc : pystr) (db : t)
  : result unit * t :=
  if negb (sql_text desc_enc && sql_text amt_enc)
  then (Failed (Py UnicodeEncodeError), db)
  else if negb (sql_integer item_id) then (Failed (Py OverflowError), db)
  else (Done tt,
        {| budgets := budgets db; budgets_seq := budgets_seq db;
           items := map (fun r => if (BudgetDB.id r =? item_id)%Z
                                  then {| BudgetDB.id := BudgetDB.id r;
                                          BudgetDB.budget_id := BudgetDB.budget_id r;
                                          BudgetDB.description := desc_enc;
                                          BudgetDB.amount := amt_enc |}
                                  else r)
                        (items db);
           items_seq := items_seq db |}).

(** [DELETE FROM items WHERE id = ?] *)
Definition delete_item_row (item_id : Z) (db : t) : result unit * t :=
  if negb (sql_integer item_id) then (Failed (Py OverflowError), db)
  else (Done tt,
        {| budgets := budgets db; budgets_seq := budgets_seq db;
           items := filter (fun r => negb (BudgetDB.id r =? item_id)%Z) (items db);
           items_seq := items_seq db |}).

(** The methods: the statement, then [commit]; the two that change a name
    turn an [IntegrityError] into [False]. *)
Definition catch_integrity (r : result unit * t) : result bool * t :=
  match r with
  | (Done _, db) => (Done true, db)
  | (Failed IntegrityError, db) => (Done false, db)
  | (Failed f, db) => (Failed f, db)
  end.

Definition create_budget (name : pystr) (db : t) : result bool * t :=
  catch_integrity (insert_budget name db).

Definition get_budgets (db : t) : list (Z * pystr) := budgets db.

Definition update_budget_name (budget_id : Z) (new_name : pystr) (db : t)
  : result bool * t :=
  catch_integrity (update_budget new_name budget_id db).

Definition delete_budget (budget_id : Z) (db : t) : result unit * t :=
  delete_budget_row budget_id db.

Definition add_item (budget_id : Z) (desc_enc amt_enc : pystr) (db : t)
  : result unit * t :=
  insert_item budget_id desc_enc amt_enc db.

Definition get_items (db : t) (budget_id : Z) : list (Z * pystr * pystr) :=
  BudgetDB.get_items (items db) budget_id.

(** [get_items] as a call: the id is bound to the statement first. *)
Definition select_items (budget_id : Z) (db : t)
  : result (list (Z * pystr * pystr)) * t :=
  if negb (sql_integer budget_id) then (Failed (Py OverflowError), db)
  else (Done (get_items db budget_id), db).

Definition update_item (item_id : Z) (desc_enc amt_enc : pystr) (db : t)
  : result unit * t :=
  update_item_row item_id desc_enc amt_enc db.

Definition delete_item (item_id : Z) (db : t) : result unit * t :=
  delete_item_row item_id db.

(** A call of one of the methods that write. *)
Inductive call : Type :=
  | CreateBudget (name : pystr)
  | UpdateBudgetName (budget_id : Z) (new_name : pystr)
  | DeleteBudget (budget_id : Z)
  | AddItem (budget_id : Z) (desc_enc amt_enc : pystr)
  | UpdateItem (item_id : Z) (desc_enc amt_enc : pystr)
  | DeleteItem (item_id : Z).

(** The database after a call, whether it returned or raised. *)
Definition after (c : call) (db : t) : t :=
  match c with
  | CreateBudget name => snd (create_budget name db)
  | UpdateBudgetName budget_id new_name =>
      snd (update_budget_name budget_id new_name db)
  | DeleteBudget budget_id => snd (delete_budget budget_id db)
  | AddItem budget_id desc_enc amt_enc =>
      snd (add_item budget_id desc_enc amt_enc db)
  | UpdateItem item_id desc_enc amt_enc =>
      snd (update_item item_id desc_enc amt_enc db)
  | DeleteItem item_id => snd (delete_item item_id db)
  end.

Definition after_all (calls : list call) (db : t) : t :=
  fold_left (fun d c => after c d) calls db.

(** What the schema keeps true: budget ids and names are unique, item ids
    increase along the table, every item belongs to a budget, and no id
    exceeds the largest one its table ever held. *)
Record consistent (db : t) : Prop := {
  unique_ids : NoDup (budget_ids db);
  unique_names : NoDup (budget_names db);
  budget_ids_seen :
    Forall (fun i => 0 < i <= budgets_seq db)%Z (budget_ids db);
  items_sorted : StronglySorted Z.lt (item_ids db);
  item_ids_seen : Forall (fun i => 0 < i <= items_seq db)%Z (item_ids db);
  items_owned :
    Forall (fun r => In (BudgetDB.budget_id r) (budget_ids db)) (items db);
  seqs_in_range :
    (0 <= budgets_seq db <= MAX_ROWID /\ 0 <= items_seq db <= MAX_ROWID)%Z
}.

End Database.

(** ** The console *)

(** Python's [str.upper], [str.lower] and [int(s)], which is [None] where
    Python raises [ValueError]. *)
Record builtins : Type := {
  upper : pystr -> pystr;
  lower : pystr -> pystr;
  int_of_str : pystr -> option Z
}.

(** [str.isspace] on one character. *)
Definition is_space (c : codepoint) : bool :=
  ((0x09 <=? c) && (c <=? 0x0D))
  || ((0x1C <=? c) && (c <=? 0x20))
  || (c =? 0x85) || (c =? 0xA0) || (c =? 0x1680)
  || ((0x2000 <=? c) && (c <=? 0x200A))
  || (c =? 0x2028) || (c =? 0x2029) || (c =? 0x202F)
  || (c =? 0x205F) || (c =? 0x3000).

(** [s.split()]: the words between runs of white space; [word] holds the
    characters of the word being read, latest first. *)
Fixpoint split_words (s : pystr) (word : pystr) : list pystr :=
  match s with
  | [] =>
      match word with
      | [] => []
      | _ => [rev word]
      end
  | c :: s' =>
      if is_space c then
        match word with
        | [] => split_words s' []
        | _ => rev word :: split_words s' []
        end
      else split_words s' (c :: word)
  end.

Definition str_split (s : pystr) : list pystr := split_words s [].

(** The exceptions that [except ValueError] catches: [ValueError] and its
    subclasses. *)
Definition is_ValueError (f : failure) : bool :=
  match f with
  | Py ValueError | Py BinasciiError
  | Py UnicodeEncodeError | Py UnicodeDecodeError => true
  | _ => false
  end.

(** What is written on the screen: the [print]s and prompts of the
    source, those that format values with the values kept apart. *)
Inductive shown (F : Type) : Type :=
  | Say (text : pystr)
  | Ask (prompt : pystr)
  | SayBudgetCreated (name : pystr)
  | SayBudget (budget_id : Z) (name : pystr)
  | AskRename (name : pystr)
  | AskDelete (name : pystr)
  | SayManaging (budget_name : pystr)
  | SayRow (row : line F)
  | SayTotal (total : F).
Arguments Say {F} text.
Arguments Ask {F} prompt.
Arguments SayBudgetCreated {F} name.
Arguments SayBudget {F} budget_id name.
Arguments AskRename {F} name.
Arguments AskDelete {F} name.
Arguments SayManaging {F} budget_name.

(** Whether a loop goes round again or is left. *)
Inductive control : Type := Continue | Break.

(** The program's surroundings: the environment of the key, the
    database, the lines still to be read and the screen, latest first.
    The screen takes every text: standard output is taken to have an
    encoding for all of them, as a UTF-8 terminal has for the texts the
    program prints. *)
Record console (F : Type) : Type := {
  env : world;
  db : Database.t;
  stdin : list pystr;
  screen : list (shown F)
}.

Section Console.
Variable G : aead.
Variable F : float_model.
Variable B : builtins.

Definition C (A : Type) : Type :=
  console (float F) -> result A * console (float F).

Definition cret {A} (a : A) : C A := fun c => (Done a, c).

Definition cbind {A A'} (m : C A) (k : A -> C A') : C A' :=
  fun c =>
    match m c with
    | (Done a, c') => k a c'
    | (Failed f, c') => (Failed f, c')
    end.

Definition craise {A} (f : failure) : C A := fun c => (Failed f, c).

Declare Scope C_scope.
Delimit Scope C_scope with C.
Notation "x <- c ;; k" := (cbind c (fun x => k))
  (at level 61, c at next level, right associativity) : C_scope.
Notation "c ;;; k" := (cbind c (fun _ => k))
  (at level 61, right associativity) : C_scope.
Local Open Scope C_scope.

(** [print(...)] *)
Definition say (o : shown (float F)) : C unit :=
  fun c =>
    (Done tt,
     {| env := env c; db := db c; stdin := stdin c; screen := o :: screen c |}).

(** [input(prompt)]: [EOFError] when no line is left. *)
Definition input (prompt : shown (float F)) : C pystr :=
  fun c =>
    match stdin c with
    | [] =>
        (Failed EOFError,
         {| env := env c; db := db c; stdin := [];
            screen := prompt :: screen c |})
    | text :: rest =>
        (Done text,
         {| env := env c; db := db c; stdin := rest;
            screen := prompt :: screen c |})
    end.

(** A call into [CryptoManager]. *)
Definition in_world {A} (m : M A) : C A :=
  fun c =>
    match m (env c) with
    | (Returns a, w) =>
        (Done a,
         {| env := w; db := db c; stdin := stdin c; screen := screen c |})
    | (Raises e, w) =>
        (Failed (Py e),
         {| env := w; db := db c; stdin := stdin c; screen := screen c |})
    end.

(** A call of a method of [BudgetDB]. *)
Definition in_db {A} (m : Database.t -> result A * Database.t) : C A :=
  fun c =>
    match m (db c) with
    | (r, d) =>
        (r, {| env := env c; db := d; stdin := stdin c; screen := screen c |})
    end.

Definition of_outcome {A} (o : outcome A) : C A :=
  match o with
  | Returns a => cret a
  | Raises e => craise (Py e)
  end.

(** [try: body  except ValueError: handler] *)
Definition except_ValueError {A} (body handler : C A) : C A :=
  fun c =>
    match body c with
    | (Failed f, c') =>
        if is_ValueError f then handler c' else (Failed f, c')
    | r => r
    end.

(** [while True: body], for as many rounds as there are lines to read
    and one more; [Unfinished] if that were not enough. *)
Fixpoint rounds (n : nat) (body : C control) : C unit :=
  match n with
  | O => craise Unfinished
  | S n' =>
      ctl <- body ;;
      match ctl with
      | Continue => rounds n' body
      | Break => cret tt
      end
  end.

Definition while_true (body : C control) : C unit :=
  fun c => rounds (S (length (stdin c))) body c.

Fixpoint say_all (l : list (shown (float F))) : C unit :=
  match l with
  | [] => cret tt
  | o :: l' => say o ;;; say_all l'
  end.

Definition newline : codepoint := 10.
Definition rule : pystr := lit "--------------------------------------------------".

(** What [manage_single_budget] does with the words of a command line
    (the rest of the loop body after [split]); [items] are the rows
    listed above the prompt. *)
Definition item_command (crypto : CryptoManager.t) (budget_id : Z)
           (items : list (Z * pystr * pystr)) (cmd : list pystr) : C control :=
  match cmd with
  | [] => cret Continue
  | word :: args =>
      let action := upper B word in
      if str_eqb action (lit "B") then cret Break
      else if str_eqb action (lit "A") then
        desc <- input (Ask (lit "Description: ")) ;;
        amt <- input (Ask (lit "Amount: ")) ;;
        desc_enc <- in_world (CryptoManager.encrypt G crypto desc) ;;
        amt_enc <- in_world (CryptoManager.encrypt G crypto amt) ;;
        in_db (Database.add_item budget_id desc_enc amt_enc) ;;;
        cret Continue
      else if str_eqb action (lit "E") || str_eqb action (lit "D") then
        match args with
        | [] =>
            say (Say (lit "Please provide an Item ID.")) ;;;
            cret Continue
        | arg :: _ =>
            except_ValueError
              (item_id <- match int_of_str B arg with
                          | Some z => cret z
                          | None => craise (Py ValueError)
                          end ;;
               if negb (existsb (fun i : Z * pystr * pystr =>
                                   (fst (fst i) =? item_id)%Z) items)
               then
                 say (Say (lit "Item ID not found in this budget.")) ;;;
                 cret Continue
               else if str_eqb action (lit "E") then
                 new_desc <- input (Ask (lit "New Description: ")) ;;
                 new_amt <- input (Ask (lit "New Amount: ")) ;;
                 desc_enc <- in_world (CryptoManager.encrypt G crypto new_desc) ;;
                 amt_enc <- in_world (CryptoManager.encrypt G crypto new_amt) ;;
                 in_db (Database.update_item item_id desc_enc amt_enc) ;;;
                 say (Say (lit "Item updated.")) ;;;
                 cret Continue
               else if str_eqb action (lit "D") then
                 in_db (Database.delete_item item_id) ;;;
                 say (Say (lit "Item deleted.")) ;;;
                 cret Continue
               else cret Continue)
              (say (Say (lit "Invalid ID format.")) ;;;
               cret Continue)
        end
      else cret Continue
  end.

(** One round of the loop of [manage_single_budget]: the listing, the
    prompt and the command. *)
Definition manage_single_budget_round (crypto : CryptoManager.t)
           (budget_id : Z) (budget_name : pystr) : C control :=
  say (SayManaging budget_name) ;;;
  items <- in_db (Database.select_items budget_id) ;;
  say (Say (lit "ID   | Description                    |     Amount")) ;;;
  say (Say rule) ;;;
  listing <- of_outcome (show_items G F crypto items (float_zero F)) ;;
  say_all (map (@SayRow (float F)) (fst listing)) ;;;
  say (Say rule) ;;;
  say (SayTotal (snd listing)) ;;;
  say (Say (newline :: lit "Actions: [A]dd Item, [E]dit Item ID, [D]elete Item ID, [B]ack")) ;;;
  text <- input (Ask (lit "Command: ")) ;;
  item_command crypto budget_id items (str_split text).

Definition manage_single_budget (crypto : CryptoManager.t)
           (budget_id : Z) (budget_name : pystr) : C unit :=
  while_true (manage_single_budget_round crypto budget_id budget_name).

(** What [manage_budgets_menu] does with the words of a command line;
    [budgets] are the rows listed above the prompt. *)
Definition budget_command (crypto : CryptoManager.t)
           (budgets : list (Z * pystr)) (cmd : list pystr) : C control :=
  match cmd with
  | [] => cret Continue
  | word :: args =>
      let action := upper B word in
      if str_eqb action (lit "B") then cret Break
      else
        match args with
        | [] =>
            say (Say (lit "Please provide an ID (e.g., 'O 5').")) ;;;
            cret Continue
        | arg :: _ =>
            except_ValueError
              (b_id <- match int_of_str B arg with
                       | Some z => cret z
                       | None => craise (Py ValueError)
                       end ;;
               match find (fun b : Z * pystr => (fst b =? b_id)%Z) budgets with
               | None =>
                   say (Say (lit "Invalid Budget ID.")) ;;;
                   cret Continue
               | Some selected_budget =>
                   if str_eqb action (lit "O") then
                     manage_single_budget crypto b_id (snd selected_budget) ;;;
                     cret Continue
                   else if str_eqb action (lit "R") then
                     new_name <- input (AskRename (snd selected_budget)) ;;
                     renamed <- in_db (Database.update_budget_name b_id new_name) ;;
                     (if renamed : bool
                      then say (Say (lit "Budget renamed."))
                      else say (Say (lit "Name already exists."))) ;;;
                     cret Continue
                   else if str_eqb action (lit "D") then
                     confirm <- input (AskDelete (snd selected_budget)) ;;
                     (if str_eqb (lower B confirm) (lit "y") then
                        in_db (Database.delete_budget b_id) ;;;
                        say (Say (lit "Budget deleted."))
                      else cret tt) ;;;
                     cret Continue
                   else cret Continue
               end)
              (say (Say (lit "Invalid input.")) ;;;
               cret Continue)
        end
  end.

(** One round of the loop of [manage_budgets_menu]. *)
Definition manage_budgets_menu_round (crypto : CryptoManager.t) : C control :=
  budgets <- in_db (fun d => (Done (Database.get_budgets d), d)) ;;
  match budgets with
  | [] =>
      say (Say (newline :: lit "No budgets found.")) ;;;
      cret Break
  | _ =>
      say (Say (newline :: lit "--- Available Budgets ---")) ;;;
      say_all (map (fun b => SayBudget (fst b) (snd b)) budgets) ;;;
      say (Say (lit "-------------------------")) ;;;
      say (Say (lit "Actions: [O]pen ID, [R]ename ID, [D]elete ID, [B]ack")) ;;;
      text <- input (Ask (lit "Command (e.g., 'O 1'): ")) ;;
      budget_command crypto budgets (str_split text)
  end.

Definition manage_budgets_menu (crypto : CryptoManager.t) : C unit :=
  while_true (manage_budgets_menu_round crypto).

(** One round of the loop of [main]. *)
Definition main_round (crypto : CryptoManager.t) : C control :=
  say (Say (newline :: lit "=== Encrypted Budget Manager ===")) ;;;
  say (Say (lit "1. Create New Budget")) ;;;
  say (Say (lit "2. Manage Existing Budgets (Open/Rename/Delete)")) ;;;
  say (Say (lit "3. Exit")) ;;;
  choice <- input (Ask (lit "Select option: ")) ;;
  if str_eqb choice (lit "1") then
    name <- input (Ask (lit "Enter unique budget name: ")) ;;
    created <- in_db (Database.create_budget name) ;;
    (if created : bool
     then say (SayBudgetCreated name)
     else say (Say (lit "Error: Budget name already exists."))) ;;;
    cret Continue
  else if str_eqb choice (lit "2") then
    manage_budgets_menu crypto ;;;
    cret Continue
  else if str_eqb choice (lit "3") then
    say (Say (lit "Goodbye.")) ;;;
    cret Break
  else cret Continue.

(** [main]: the manager is built, the database is opened as it is, and
    the menu runs. *)
Definition main : C unit :=
  crypto <- in_world CryptoManager.__init__ ;;
  while_true (main_round crypto).

End Console.

(** ** A small database, to run the model *)

Module Household.

(** Two budgets made by the methods of [BudgetDB], with items whose
    fields are tokens of the sample manager. *)
Definition calls : list Database.call :=
  [ Database.CreateBudget (lit "Groceries");
    Database.CreateBudget (lit "Rent");
    Database.AddItem 1 (Sample.token_of "Milk") (Sample.token_of "3");
    Database.AddItem 2 (Sample.token_of "Flat") (Sample.token_of "900");
    Database.AddItem 1 (Sample.token_of "Eggs") (Sample.token_of "2") ].

Definition db : Database.t := Database.after_all calls Database.empty.

(** The token of ["Milk"] with a blank after its eighth character. *)
Definition spaced_head : pystr := firstn 8 (Sample.token_of "Milk").
Definition spaced_tail : pystr := skipn 8 (Sample.token_of "Milk").

(** [str.upper], [str.lower] and [int] on the letters and digits of
    ASCII, enough for the sample lines below. *)
Definition ascii_upper (s : pystr) : pystr :=
  map (fun c => if (97 <=? c) && (c <=? 122) then c - 32 else c) s.

Definition ascii_lower (s : pystr) : pystr :=
  map (fun c => if (65 <=? c) && (c <=? 90) then c + 32 else c) s.

Definition ascii : builtins :=
  {| upper := ascii_upper; lower := ascii_lower;
     int_of_str := Sample.whole_of_str |}.

(** The console of a run on the sample database with the lines that
    will be typed. *)
Definition typing (lines : list pystr) : console (float Sample.whole) :=
  @Build_console (float Sample.whole) Sample.fresh db lines [].

(** What [input] gives for the byte 0x80, which is not UTF-8: an
    unpaired surrogate. *)
Definition undecoded : pystr := [0xDC80].

End Household.

(** ** What a part of the console does to the database and the input *)

Section Triples.
Variable F : float_model.

(** Whether [m] returns or raises, it takes a database in [P] to one in
    [Q]. *)
Definition hoare {A} (P : Database.t -> Prop) (m : C F A)
           (Q : Database.t -> Prop) : Prop :=
  forall c, P (db c) -> Q (db (snd (m c))).

(** [m] does not write to the database. *)
Definition reads_only {A} (m : C F A) : Prop :=
  forall c, db (snd (m c)) = db c.

(** [m] gives no line back to the input and cuts no loop short. *)
Definition calm {A} (m : C F A) : Prop :=
  forall c,
    (length (stdin (snd (m c))) <= length (stdin c))%nat
    /\ fst (m c) <> Failed Unfinished.

(** [m] is calm and has read a line when it returns. *)
Definition strict {A} (m : C F A) : Prop :=
  forall c,
    fst (m c) <> Failed Unfinished
    /\ match fst (m c) with
       | Done _ => (length (stdin (snd (m c))) < length (stdin c))%nat
       | Failed _ => (length (stdin (snd (m c))) <= length (stdin c))%nat
       end.

(** A loop body that has read a line when the loop goes round again. *)
Definition advances (m : C F control) : Prop :=
  forall c,
    fst (m c) <> Failed Unfinished
    /\ match fst (m c) with
       | Done Continue => (length (stdin (snd (m c))) < length (stdin c))%nat
       | _ => (length (stdin (snd (m c))) <= length (stdin c))%nat
       end.

End Triples.

(** What work on the items of budget [b] may make of a database [d]:
    the schema's invariants hold, the budgets are the same and so are the
    items of every other budget. *)
Definition within_budget (b : Z) (d d' : Database.t) : Prop :=
  Database.consistent d'
  /\ Database.get_budgets d' = Database.get_budgets d
  /\ forall b', b' <> b -> Database.get_items d' b' = Database.get_items d b'.

(** * Facts about the runtime *)

(** ** Outcomes *)

Lemma omap_inv A B (f : A -> B) (o : outcome A) (b : B) :
  omap f o = Returns b -> exists a, o = Returns a /\ b = f a.
Proof.
  destruct o as [a|e]; cbn; intros H; [|discriminate].
  exists a. split; [reflexivity|congruence].
Qed.

(** ** Bytes *)

Lemma to_N_lt_256 (b : byte) : Byte.to_N b < 256.
Proof. pose proof (Byte.to_N_bounded b). lia. Qed.

Lemma byte_of_to_N (b : byte) : byte_of_N (Byte.to_N b) = b.
Proof.
  unfold byte_of_N.
  change 0xFF with (N.ones 8).
  rewrite N.land_ones, N.mod_small by apply to_N_lt_256.
  now rewrite Byte.of_to_N.
Qed.

Lemma in_all_bytes (b : byte) : In b all_bytes.
Proof.
  rewrite <- (byte_of_to_N b). unfold all_bytes.
  apply in_map_iff. exists (N.to_nat (Byte.to_N b)). split.
  - now rewrite N2Nat.id.
  - apply in_seq. pose proof (to_N_lt_256 b). lia.
Qed.

(** A property of bytes that is checked on all 256 of them. *)
Lemma forall_byte (P : byte -> bool) :
  forallb P all_bytes = true -> forall b, P b = true.
Proof.
  intros H b. rewrite forallb_forall in H. apply H, in_all_bytes.
Qed.

Lemma forall_byte2 (P : byte -> byte -> bool) :
  forallb (fun a => forallb (P a) all_bytes) all_bytes = true ->
  forall a b, P a b = true.
Proof.
  intros H a b.
  apply (forall_byte (P a)). revert a. now apply forall_byte.
Qed.

Lemma byte_eqb_eq (a b : byte) : Byte.eqb a b = true <-> a = b.
Proof.
  split; [apply Byte.byte_dec_bl | apply Byte.byte_dec_lb].
Qed.

Lemma all_in_block_spec (k : nat) (P : N -> bool) :
  forall base, all_in_block k base P = true ->
               forall n, base * 2 ^ N.of_nat k <= n < (base + 1) * 2 ^ N.of_nat k ->
                         P n = true.
Proof.
  induction k as [|k IH]; intros base H n Hn.
  - cbn in Hn. replace n with base by lia. exact H.
  - cbn [all_in_block] in H.
    destruct (all_in_block k (2 * base) P) eqn:H0; [|discriminate].
    rewrite Nat2N.inj_succ, N.pow_succ_r' in Hn.
    set (p := 2 ^ N.of_nat k) in *.
    destruct (N.lt_ge_cases n ((2 * base + 1) * p)) as [Hlt|Hge].
    + apply (IH _ H0). fold p. lia.
    + apply (IH _ H). fold p. lia.
Qed.

Lemma all_below_pow2_spec (k : nat) (P : N -> bool) :
  all_below_pow2 k P = true -> forall n, n < 2 ^ N.of_nat k -> P n = true.
Proof.
  intros H n Hn. apply (all_in_block_spec k P 0 H). lia.
Qed.

(** ** Base64 *)

Section Base64Facts.
Import Base64.

Lemma table_roundtrip (v : N) :
  v < 64 ->
  Byte.eqb (table_b2a v) PAD = false /\ table_a2b (table_b2a v) = Some v.
Proof.
  intros Hv.
  assert (H : (negb (Byte.eqb (table_b2a v) PAD)
               && match table_a2b (table_b2a v) with
                  | Some v' => v' =? v
                  | None => false
                  end) = true).
  { revert v Hv.
    apply (all_below_pow2_spec 6 (fun v =>
             negb (Byte.eqb (table_b2a v) PAD)
             && match table_a2b (table_b2a v) with
                | Some v' => v' =? v
                | None => false
                end)).
    vm_compute. reflexivity. }
  apply andb_true_iff in H as [H1 H2].
  apply negb_true_iff in H1. split; [exact H1|].
  destruct (table_a2b (table_b2a v)) as [v'|]; [|discriminate].
  apply N.eqb_eq in H2. now subst.
Qed.

(** One step of the decoder on an alphabet character. *)
Lemma a2b_loop_char (v : N) (rest : bytes) (q : quad) (l p : N) :
  v < 64 ->
  a2b_loop (table_b2a v :: rest) q l p =
  match q with
  | Q0 => a2b_loop rest Q1 v 0
  | Q1 => emit (N.lor (N.shiftl l 2) (N.shiftr v 4))
               (a2b_loop rest Q2 (N.land v 15) 0)
  | Q2 => emit (N.lor (N.shiftl l 4) (N.shiftr v 2))
               (a2b_loop rest Q3 (N.land v 3) 0)
  | Q3 => emit (N.lor (N.shiftl l 6) v) (a2b_loop rest Q0 0 0)
  end.
Proof.
  intros Hv. destruct (table_roundtrip Hv) as [H1 H2].
  cbn [a2b_loop]. rewrite H1, H2. reflexivity.
Qed.

Lemma sextet0_lt (b0 : byte) : sextet0 b0 < 64.
Proof.
  apply N.ltb_lt. revert b0. apply forall_byte. vm_compute. reflexivity.
Qed.

Lemma sextet3_lt (b2 : byte) : sextet3 b2 < 64.
Proof.
  apply N.ltb_lt. revert b2. apply forall_byte. vm_compute. reflexivity.
Qed.

Lemma sextet1_lt (b0 b1 : byte) : sextet1 b0 b1 < 64.
Proof.
  apply N.ltb_lt. revert b0 b1.
  apply (forall_byte2 (fun b0 b1 => sextet1 b0 b1 <? 64)).
  vm_compute. reflexivity.
Qed.

Lemma sextet2_lt (b1 b2 : byte) : sextet2 b1 b2 < 64.
Proof.
  apply N.ltb_lt. revert b1 b2.
  apply (forall_byte2 (fun b1 b2 => sextet2 b1 b2 <? 64)).
  vm_compute. reflexivity.
Qed.

(** The first byte comes back from the first two characters, and the
    decoder keeps the high half of the second byte. *)
Lemma first_byte (b0 b1 : byte) :
  byte_of_N (N.lor (N.shiftl (sextet0 b0) 2) (N.shiftr (sextet1 b0 b1) 4)) = b0
  /\ N.land (sextet1 b0 b1) 15 = N.shiftr (Byte.to_N b1) 4.
Proof.
  assert (H : (Byte.eqb (byte_of_N (N.lor (N.shiftl (sextet0 b0) 2)
                                          (N.shiftr (sextet1 b0 b1) 4))) b0
               && (N.land (sextet1 b0 b1) 15 =? N.shiftr (Byte.to_N b1) 4))
              = true).
  { revert b0 b1.
    apply (forall_byte2 (fun b0 b1 =>
             Byte.eqb (byte_of_N (N.lor (N.shiftl (sextet0 b0) 2)
                                        (N.shiftr (sextet1 b0 b1) 4))) b0
             && (N.land (sextet1 b0 b1) 15 =? N.shiftr (Byte.to_N b1) 4))).
    vm_compute. reflexivity. }
  apply andb_true_iff in H as [H1 H2].
  split; [now apply byte_eqb_eq | now apply N.eqb_eq].
Qed.

Lemma second_byte (b1 b2 : byte) :
  byte_of_N (N.lor (N.shiftl (N.shiftr (Byte.to_N b1) 4) 4)
                   (N.shiftr (sextet2 b1 b2) 2)) = b1
  /\ N.land (sextet2 b1 b2) 3 = N.shiftr (Byte.to_N b2) 6.
Proof.
  assert (H : (Byte.eqb (byte_of_N (N.lor (N.shiftl (N.shiftr (Byte.to_N b1) 4) 4)
                                          (N.shiftr (sextet2 b1 b2) 2))) b1
               && (N.land (sextet2 b1 b2) 3 =? N.shiftr (Byte.to_N b2) 6))
              = true).
  { revert b1 b2.
    apply (forall_byte2 (fun b1 b2 =>
             Byte.eqb (byte_of_N (N.lor (N.shiftl (N.shiftr (Byte.to_N b1) 4) 4)
                                        (N.shiftr (sextet2 b1 b2) 2))) b1
             && (N.land (sextet2 b1 b2) 3 =? N.shiftr (Byte.to_N b2) 6))).
    vm_compute. reflexivity. }
  apply andb_true_iff in H as [H1 H2].
  split; [now apply byte_eqb_eq | now apply N.eqb_eq].
Qed.

Lemma third_byte (b2 : byte) :
  byte_of_N (N.lor (N.shiftl (N.shiftr (Byte.to_N b2) 6) 6) (sextet3 b2)) = b2.
Proof.
  apply byte_eqb_eq. revert b2.
  apply (forall_byte (fun b2 =>
           Byte.eqb (byte_of_N (N.lor (N.shiftl (N.shiftr (Byte.to_N b2) 6) 6)
                                      (sextet3 b2))) b2)).
  vm_compute. reflexivity.
Qed.

Lemma list_ind3 (A : Type) (P : list A -> Prop) :
  P [] -> (forall a, P [a]) -> (forall a b, P [a; b]) ->
  (forall a b c l, P l -> P (a :: b :: c :: l)) ->
  forall l, P l.
Proof.
  intros H0 H1 H2 H3.
  fix IH 1. intros [|a [|b [|c l]]].
  - exact H0.
  - apply H1.
  - apply H2.
  - apply H3, IH.
Qed.

Ltac decode_char :=
  rewrite a2b_loop_char
    by first [apply sextet0_lt | apply sextet1_lt
             | apply sextet2_lt | apply sextet3_lt];
  cbv beta iota.

(** Decoding three encoded bytes and going on. *)
Lemma a2b_loop_triple (b0 b1 b2 : byte) (rest : bytes) (l p : N) :
  a2b_loop (table_b2a (sextet0 b0) :: table_b2a (sextet1 b0 b1)
              :: table_b2a (sextet2 b1 b2) :: table_b2a (sextet3 b2) :: rest)
           Q0 l p
  = omap (app [b0; b1; b2]) (a2b_loop rest Q0 0 0).
Proof.
  do 4 decode_char. unfold emit.
  destruct (first_byte b0 b1) as [E0 L1].
  destruct (second_byte b1 b2) as [E1 L2].
  rewrite E0, L1, E1, L2, third_byte.
  destruct (a2b_loop rest Q0 0 0); reflexivity.
Qed.

Theorem a2b_b2a (data : bytes) : a2b_base64 (b2a_base64 data) = Returns data.
Proof.
  unfold a2b_base64.
  induction data as [|b0|b0 b1|b0 b1 b2 rest IH] using list_ind3.
  - reflexivity.
  - cbn [b2a_base64]. do 2 decode_char. unfold emit.
    destruct (first_byte b0 x00) as [E0 _]. rewrite E0. reflexivity.
  - cbn [b2a_base64]. do 3 decode_char. unfold emit.
    destruct (first_byte b0 b1) as [E0 L1].
    destruct (second_byte b1 x00) as [E1 _].
    rewrite E0, L1, E1. reflexivity.
  - cbn [b2a_base64]. rewrite a2b_loop_triple, IH. reflexivity.
Qed.

(** The characters of an encoding are ASCII. *)
Lemma table_b2a_ascii (v : N) : Byte.to_N (table_b2a v) < 128.
Proof.
  unfold table_b2a.
  destruct (nth_in_or_default (N.to_nat v) alphabet PAD) as [H|H].
  - revert H. generalize (nth (N.to_nat v) alphabet PAD). intros c H.
    assert (F : Forall (fun c => Byte.to_N c < 128) alphabet).
    { unfold alphabet. cbn. repeat constructor. }
    rewrite Forall_forall in F. now apply F.
  - rewrite H. reflexivity.
Qed.

Lemma b2a_base64_ascii (data : bytes) :
  Forall (fun c => Byte.to_N c < 128) (b2a_base64 data).
Proof.
  induction data as [|b0|b0 b1|b0 b1 b2 rest IH] using list_ind3;
    cbn [b2a_base64];
    repeat (constructor; try apply table_b2a_ascii);
    try reflexivity; assumption.
Qed.

Lemma bytes_from_decode_data_ascii (b : bytes) :
  Forall (fun c => Byte.to_N c < 128) b ->
  bytes_from_decode_data (map Byte.to_N b) = Returns b.
Proof.
  induction 1 as [|c b Hc _ IH]; [reflexivity|].
  cbn [map bytes_from_decode_data].
  apply N.ltb_lt in Hc. rewrite Hc, IH. cbn. now rewrite byte_of_to_N.
Qed.

(** Decoding the text of an encoding gives the bytes back. *)
Theorem b64decode_b64encode (data : bytes) :
  b64decode (map Byte.to_N (b64encode data)) = Returns data.
Proof.
  unfold b64decode, b64encode.
  rewrite bytes_from_decode_data_ascii by apply b2a_base64_ascii.
  cbn [obind]. apply a2b_b2a.
Qed.

End Base64Facts.

(** ** UTF-8 *)

Section Utf8Facts.
Import Utf8.

Lemma to_N_byte_of_N (n : N) : n < 256 -> Byte.to_N (byte_of_N n) = n.
Proof.
  intros Hn. unfold byte_of_N. change 0xFF with (N.ones 8).
  rewrite N.land_ones, N.mod_small by exact Hn.
  destruct (Byte.of_N n) as [b|] eqn:E.
  - now apply Byte.to_of_N.
  - apply Byte.of_N_None_iff in E. lia.
Qed.

(** A number is its low [k] bits below the rest. *)
Lemma split_low (c k : N) :
  N.lor (N.shiftl (N.shiftr c k) k) (N.land c (N.ones k)) = c.
Proof.
  apply N.bits_inj. intros n. rewrite N.lor_spec, N.land_spec.
  destruct (N.lt_ge_cases n k) as [H|H].
  - rewrite N.shiftl_spec_low, N.ones_spec_low by exact H.
    now rewrite andb_true_r.
  - rewrite N.shiftl_spec_high', N.shiftr_spec', N.ones_spec_high by exact H.
    rewrite andb_false_r, orb_false_r. f_equal. lia.
Qed.

Lemma land_63_lt (x : N) : N.land x 0x3F < 64.
Proof.
  change 0x3F with (N.ones 6). rewrite N.land_ones.
  apply N.mod_lt. discriminate.
Qed.

Lemma shiftr_lt (c k bound : N) : c < bound * 2 ^ k -> N.shiftr c k < bound.
Proof.
  intros H. rewrite N.shiftr_div_pow2.
  apply N.Div0.div_lt_upper_bound. lia.
Qed.

(** A continuation byte carries six bits. *)
Lemma cont_byte (d : N) :
  d < 64 ->
  is_cont (byte_of_N (N.lor 0x80 d)) = true
  /\ payload (byte_of_N (N.lor 0x80 d)) = d.
Proof.
  intros Hd.
  assert (H : (is_cont (byte_of_N (N.lor 0x80 d))
               && (payload (byte_of_N (N.lor 0x80 d)) =? d)) = true).
  { revert d Hd.
    apply (all_below_pow2_spec 6 (fun d =>
             is_cont (byte_of_N (N.lor 0x80 d))
             && (payload (byte_of_N (N.lor 0x80 d)) =? d))).
    vm_compute. reflexivity. }
  apply andb_true_iff in H as [H1 H2]. split; [exact H1 | now apply N.eqb_eq].
Qed.

Lemma lead_ok_spec (mark mask lo hi h : N) :
  lead_ok mark mask lo hi h = true ->
  let n0 := Byte.to_N (byte_of_N (N.lor mark h)) in
  lo <= n0 /\ n0 < hi /\ N.land n0 mask = h.
Proof.
  unfold lead_ok. intros H.
  apply andb_true_iff in H as [H H3]. apply andb_true_iff in H as [H1 H2].
  cbv zeta. now rewrite <- N.leb_le, <- N.ltb_lt, <- N.eqb_eq.
Qed.

Lemma lead2 (h : N) : h < 32 -> lead_ok 0xC0 0x1F 0xC0 0xE0 h = true.
Proof.
  revert h. apply (all_below_pow2_spec 5 (lead_ok 0xC0 0x1F 0xC0 0xE0)).
  vm_compute. reflexivity.
Qed.

Lemma lead3 (h : N) : h < 16 -> lead_ok 0xE0 0x0F 0xE0 0xF0 h = true.
Proof.
  revert h. apply (all_below_pow2_spec 4 (lead_ok 0xE0 0x0F 0xE0 0xF0)).
  vm_compute. reflexivity.
Qed.

Lemma lead4 (h : N) : h < 8 -> lead_ok 0xF0 0x07 0xF0 0xF8 h = true.
Proof.
  revert h. apply (all_below_pow2_spec 3 (lead_ok 0xF0 0x07 0xF0 0xF8)).
  vm_compute. reflexivity.
Qed.

Lemma join2 (c : N) :
  N.lor (N.shiftl (N.shiftr c 6) 6) (N.land c 0x3F) = c.
Proof. apply (split_low c 6). Qed.

Lemma join3 (c : N) :
  N.lor (N.shiftl (N.shiftr c 12) 12)
        (N.lor (N.shiftl (N.land (N.shiftr c 6) 0x3F) 6) (N.land c 0x3F)) = c.
Proof.
  rewrite <- (join2 c) at 4. rewrite <- (join2 (N.shiftr c 6)) at 2.
  rewrite N.shiftr_shiftr, N.shiftl_lor, N.shiftl_shiftl, N.lor_assoc.
  reflexivity.
Qed.

Lemma join4 (c : N) :
  N.lor (N.shiftl (N.shiftr c 18) 18)
        (N.lor (N.shiftl (N.land (N.shiftr c 12) 0x3F) 12)
               (N.lor (N.shiftl (N.land (N.shiftr c 6) 0x3F) 6)
                      (N.land c 0x3F))) = c.
Proof.
  rewrite <- (join3 c) at 5. rewrite <- (join2 (N.shiftr c 12)) at 2.
  rewrite N.shiftr_shiftr, N.shiftl_lor, N.shiftl_shiftl, N.lor_assoc.
  reflexivity.
Qed.

Lemma ltb_ge_trans (n a b : N) : a <= b -> b <= n -> (n <? a) = false.
Proof. rewrite !N.ltb_ge. lia. Qed.

Lemma decode_encode_cp (c : codepoint) (rest : bytes) :
  encodable c = true ->
  decode (encode_cp c ++ rest) = omap (cons c) (decode rest).
Proof.
  unfold encodable. intros Hc. apply andb_true_iff in Hc as [Hmax Hsur].
  apply N.ltb_lt in Hmax. unfold encode_cp.
  destruct (c <? 0x80) eqn:H1; [|destruct (c <? 0x800) eqn:H2;
                                  [|destruct (c <? 0x10000) eqn:H3]].
  - apply N.ltb_lt in H1. cbn [app decode].
    rewrite to_N_byte_of_N by lia.
    apply N.ltb_lt in H1. now rewrite H1.
  - apply N.ltb_ge in H1. apply N.ltb_lt in H2.
    destruct (lead_ok_spec _ _ _ _ _ (lead2 (@shiftr_lt c 6 32 ltac:(cbn; lia))))
      as (Lo & Hi & Bits).
    destruct (cont_byte (land_63_lt c)) as [C1 P1].
    cbn [app decode].
    rewrite (@ltb_ge_trans _ 0x80 0xC0), (@ltb_ge_trans _ 0xC0 0xC0)
      by (assumption || lia).
    apply N.ltb_lt in Hi. rewrite Hi.
    unfold scalar2. rewrite C1, P1, Bits, join2.
    apply N.leb_le in H1. rewrite H1. reflexivity.
  - apply N.ltb_ge in H2. apply N.ltb_lt in H3.
    destruct (lead_ok_spec _ _ _ _ _ (lead3 (@shiftr_lt c 12 16 ltac:(cbn; lia))))
      as (Lo & Hi & Bits).
    destruct (cont_byte (land_63_lt (N.shiftr c 6))) as [C1 P1].
    destruct (cont_byte (land_63_lt c)) as [C2 P2].
    cbn [app decode].
    rewrite (@ltb_ge_trans _ 0x80 0xE0), (@ltb_ge_trans _ 0xC0 0xE0),
      (@ltb_ge_trans _ 0xE0 0xE0) by (assumption || lia).
    apply N.ltb_lt in Hi. rewrite Hi.
    unfold scalar3. rewrite C1, C2, P1, P2, Bits, join3, Hsur.
    apply N.leb_le in H2. rewrite H2. reflexivity.
  - apply N.ltb_ge in H3.
    destruct (lead_ok_spec _ _ _ _ _ (lead4 (@shiftr_lt c 18 8 ltac:(cbn; lia))))
      as (Lo & Hi & Bits).
    destruct (cont_byte (land_63_lt (N.shiftr c 12))) as [C1 P1].
    destruct (cont_byte (land_63_lt (N.shiftr c 6))) as [C2 P2].
    destruct (cont_byte (land_63_lt c)) as [C3 P3].
    cbn [app decode].
    rewrite (@ltb_ge_trans _ 0x80 0xF0), (@ltb_ge_trans _ 0xC0 0xF0),
      (@ltb_ge_trans _ 0xE0 0xF0), (@ltb_ge_trans _ 0xF0 0xF0)
      by (assumption || lia).
    apply N.ltb_lt in Hi. rewrite Hi.
    unfold scalar4. rewrite C1, C2, C3, P1, P2, P3, Bits, join4.
    apply N.leb_le in H3. apply N.ltb_lt in Hmax.
    rewrite H3, Hmax. reflexivity.
Qed.

(** Decoding the UTF-8 encoding of a string gives the string back. *)
Theorem decode_encode (s : pystr) (data : bytes) :
  encode s = Returns data -> decode data = Returns s.
Proof.
  revert data. induction s as [|c s IH]; intros data H.
  - cbn in H. now inversion H.
  - cbn [encode] in H. destruct (encodable c) eqn:Hc; [|discriminate].
    apply omap_inv in H as [d [Hd ->]].
    rewrite decode_encode_cp by assumption.
    now rewrite (IH d Hd).
Qed.

(** ASCII bytes decode to the characters of the same values. *)
Lemma decode_ascii (b : bytes) :
  Forall (fun c => Byte.to_N c < 128) b ->
  decode b = Returns (map Byte.to_N b).
Proof.
  induction 1 as [|c b Hc _ IH]; [reflexivity|].
  cbn [decode map]. apply N.ltb_lt in Hc. rewrite Hc, IH. reflexivity.
Qed.

Lemma encodable_all_encode (s : pystr) :
  forallb encodable s = true -> exists data, encode s = Returns data.
Proof.
  induction s as [|c s IH]; cbn [forallb encode]; intros H.
  - now exists [].
  - apply andb_true_iff in H as [Hc Hs]. rewrite Hc.
    destruct (IH Hs) as [d ->]. cbn. eauto.
Qed.

End Utf8Facts.

(** ** Lists *)

Lemma firstn_prefix (A : Type) (l1 l2 : list A) :
  firstn (length l1) (l1 ++ l2) = l1.
Proof. induction l1 as [|a l1 IH]; cbn; [now destruct l2 | now rewrite IH]. Qed.

Lemma skipn_prefix (A : Type) (l1 l2 : list A) :
  skipn (length l1) (l1 ++ l2) = l2.
Proof. induction l1 as [|a l1 IH]; cbn; [reflexivity | exact IH]. Qed.

(** * [CryptoManager] *)

Section CryptoManagerFacts.
Variable G : aead.

Lemma constructed_inv (self : CryptoManager.t) :
  constructed self ->
  AESGCM.key_size_ok (CryptoManager.key self) = true
  /\ AESGCM.key_of (CryptoManager.aesgcm self) = CryptoManager.key self.
Proof.
  unfold constructed, AESGCM.new.
  destruct (AESGCM.key_size_ok (CryptoManager.key self)); [|discriminate].
  intros H. inversion H. split; reflexivity.
Qed.

Lemma next_nonce_length (w : world) : length (next_nonce w) = 12%nat.
Proof. unfold next_nonce. now rewrite length_map, length_seq. Qed.

Lemma next_nonce_size_ok (w : world) :
  AESGCM.nonce_size_ok (next_nonce w) = true.
Proof. unfold AESGCM.nonce_size_ok. now rewrite next_nonce_length. Qed.

(** The text of the token: the base64 characters of a blob. *)
Lemma token_text (blob : bytes) :
  Utf8.decode (Base64.b64encode blob)
  = Returns (map Byte.to_N (Base64.b64encode blob)).
Proof. apply decode_ascii, b2a_base64_ascii. Qed.

(** What [encrypt] computes on a plaintext it accepts. *)
Lemma encrypt_returns (self : CryptoManager.t) (plaintext : pystr)
      (data : bytes) (w : world) :
  practical plaintext data ->
  CryptoManager.encrypt G self plaintext w =
  (Returns (map Byte.to_N
              (Base64.b64encode
                 (next_nonce w
                    ++ gcm_seal G (AESGCM.key_of (CryptoManager.aesgcm self))
                                (next_nonce w) data))),
   snd (urandom 12 w)).
Proof.
  intros [Henc Hlen].
  unfold CryptoManager.encrypt, bind, lift, urandom. cbn [fst snd].
  fold (next_nonce w). rewrite Henc.
  unfold AESGCM.encrypt.
  replace (AESGCM.MAX_SIZE <? N.of_nat (length data)) with false
    by (symmetry; apply N.ltb_ge; exact Hlen).
  rewrite next_nonce_size_ok. cbn [negb].
  rewrite token_text. reflexivity.
Qed.

(** What [decrypt] does with the token of a sealed blob. *)
Lemma decrypt_token (self : CryptoManager.t) (nonce sealed : bytes) :
  length nonce = 12%nat ->
  CryptoManager.decrypt_try G self
    (map Byte.to_N (Base64.b64encode (nonce ++ sealed)))
  = obind (AESGCM.decrypt G (CryptoManager.aesgcm self) nonce sealed)
          Utf8.decode.
Proof.
  intros Hn. unfold CryptoManager.decrypt_try.
  rewrite b64decode_b64encode. cbn [obind].
  rewrite <- Hn. now rewrite firstn_prefix, skipn_prefix.
Qed.

Lemma decrypt_sealed (self : CryptoManager.t) (nonce data : bytes) :
  aead_correct G -> aead_tag_length G -> constructed self ->
  AESGCM.nonce_size_ok nonce = true ->
  AESGCM.decrypt G (CryptoManager.aesgcm self) nonce
    (gcm_seal G (AESGCM.key_of (CryptoManager.aesgcm self)) nonce data)
  = Returns data.
Proof.
  intros Hcorrect Htag Hself Hnonce.
  destruct (constructed_inv Hself) as [Hkey Hof].
  unfold AESGCM.decrypt. rewrite Hnonce, Hof. cbn [negb].
  rewrite (Htag _ _ data Hkey Hnonce), (Hcorrect _ _ data Hkey Hnonce).
  replace (length data + 16 <? AESGCM.TAG_LENGTH)%nat with false; [reflexivity|].
  symmetry. apply Nat.ltb_ge. unfold AESGCM.TAG_LENGTH. lia.
Qed.

End CryptoManagerFacts.

(** * The sample cipher *)

Section SampleFacts.
Import Sample.

Lemma bytes_eqb_refl (a : bytes) : bytes_eqb a a = true.
Proof.
  induction a as [|x a IH]; [reflexivity|].
  cbn. rewrite IH, andb_true_r. now apply byte_eqb_eq.
Qed.

Lemma tag_length (key nonce data : bytes) : length (tag key nonce data) = 16%nat.
Proof. unfold tag. now rewrite length_map, length_seq. Qed.

Lemma sample_tag_length : aead_tag_length cipher.
Proof.
  intros key nonce data _ _. cbn. unfold seal.
  now rewrite length_app, tag_length.
Qed.

Lemma sample_correct : aead_correct cipher.
Proof.
  intros key nonce data _ _. cbn. unfold open, seal.
  rewrite length_app, tag_length.
  replace (length data + 16 - 16)%nat with (length data) by lia.
  rewrite firstn_prefix, skipn_prefix, bytes_eqb_refl, andb_true_r.
  replace (16 <=? length data + 16)%nat with true; [reflexivity|].
  symmetry. apply Nat.leb_le. lia.
Qed.

Lemma sample_constructed : constructed manager.
Proof. reflexivity. Qed.

End SampleFacts.

(** * Encryption and decryption *)

Section Cipher.
Variable G : aead.
Variable self : CryptoManager.t.

Local Abbreviation encrypt := (CryptoManager.encrypt G self).
Local Abbreviation decrypt := (CryptoManager.decrypt G self).
Local Abbreviation decrypt_try := (CryptoManager.decrypt_try G self).
Local Abbreviation sealed_with w data :=
  (gcm_seal G (AESGCM.key_of (CryptoManager.aesgcm self)) (next_nonce w) data).

(** A call of [encrypt] that returns has encoded the plaintext, sealed
    it under the nonce it drew, and returned the base64 text of nonce
    and sealed data. *)
Lemma encrypt_inv (plaintext token : pystr) (w w' : world) :
  encrypt plaintext w = (Returns token, w') ->
  exists data,
    practical plaintext data
    /\ token = map Byte.to_N
                   (Base64.b64encode (next_nonce w ++ sealed_with w data))
    /\ w' = snd (urandom 12 w).
Proof.
  intros H.
  destruct (Utf8.encode plaintext) as [data|e] eqn:Henc.
  - destruct (N.le_gt_cases (N.of_nat (length data)) AESGCM.MAX_SIZE)
      as [Hlen|Hlen].
    + exists data. rewrite (@encrypt_returns G self plaintext data w) in H
        by (split; assumption).
      inversion H. repeat split; assumption.
    + exfalso. revert H.
      unfold CryptoManager.encrypt, bind, lift, urandom.
      rewrite Henc. unfold AESGCM.encrypt.
      apply N.ltb_lt in Hlen. rewrite Hlen. discriminate.
  - exfalso. revert H.
    unfold CryptoManager.encrypt, bind, lift, urandom.
    rewrite Henc. discriminate.
Qed.

(** C1: decrypting the token that [encrypt] produced for a UTF-8 string
    of practical length, under the same key, returns exactly that
    string. *)
Theorem decrypt_encrypt (plaintext : pystr) (data : bytes) (w : world) :
  aead_correct G -> aead_tag_length G -> constructed self ->
  practical plaintext data ->
  exists token w',
    encrypt plaintext w = (Returns token, w')
    /\ decrypt token = Returns plaintext.
Proof.
  intros Hcorrect Htag Hself Hs.
  eexists. eexists. split; [apply encrypt_returns; exact Hs|].
  unfold CryptoManager.decrypt.
  rewrite decrypt_token by apply next_nonce_length.
  rewrite decrypt_sealed by (assumption || apply next_nonce_size_ok).
  cbn [obind]. destruct Hs as [Henc _].
  rewrite (decode_encode _ Henc). reflexivity.
Qed.

(** Whatever goes wrong inside [decrypt], the caller gets the same
    string. *)
Lemma decrypt_raises (token : pystr) (e : exn) :
  decrypt_try token = Raises e ->
  decrypt token = Returns CryptoManager.decryption_error.
Proof. unfold CryptoManager.decrypt. now intros ->. Qed.

(** C10: the failure value of [decrypt] is also a plaintext: the token
    of the string ["[Decryption Error]"] decrypts to the very string
    that [decrypt] returns for every token it cannot decrypt. *)
Theorem failure_value_collides (w : world) :
  aead_correct G -> aead_tag_length G -> constructed self ->
  exists plaintext token w',
    plaintext = CryptoManager.decryption_error
    /\ encrypt plaintext w = (Returns token, w')
    /\ decrypt_try token = Returns plaintext
    /\ decrypt token = Returns plaintext
    /\ forall bad e, decrypt_try bad = Raises e ->
                     decrypt bad = decrypt token.
Proof.
  intros Hcorrect Htag Hself.
  assert (Hs : practical CryptoManager.decryption_error
                 (list_byte_of_string "[Decryption Error]")).
  { split; [reflexivity | vm_compute; discriminate]. }
  assert (Htry : decrypt_try
                   (map Byte.to_N
                      (Base64.b64encode
                         (next_nonce w
                            ++ sealed_with w (list_byte_of_string "[Decryption Error]"))))
                 = Returns CryptoManager.decryption_error).
  { rewrite decrypt_token by apply next_nonce_length.
    rewrite decrypt_sealed by (assumption || apply next_nonce_size_ok).
    reflexivity. }
  exists CryptoManager.decryption_error. eexists. eexists.
  split; [reflexivity|].
  split; [apply encrypt_returns; exact Hs|].
  split; [exact Htry|].
  unfold CryptoManager.decrypt. rewrite Htry. cbn [try_except].
  split; [reflexivity|].
  intros bad e Hbad. now rewrite Hbad.
Qed.

End Cipher.

(** * The token *)

Section Token.
Variable G : aead.
Variable self : CryptoManager.t.

Local Abbreviation encrypt := (CryptoManager.encrypt G self).
Local Abbreviation decrypt := (CryptoManager.decrypt G self).
Local Abbreviation decrypt_try := (CryptoManager.decrypt_try G self).
Local Abbreviation aes_key := (AESGCM.key_of (CryptoManager.aesgcm self)).

Lemma table_b2a_alphabet (v : N) :
  In (Base64.table_b2a v) (Base64.alphabet ++ [Base64.PAD]).
Proof.
  unfold Base64.table_b2a. apply in_or_app.
  destruct (nth_in_or_default (N.to_nat v) Base64.alphabet Base64.PAD) as [H|H].
  - left. exact H.
  - right. rewrite H. now left.
Qed.

Lemma b2a_base64_alphabet (data : bytes) :
  Forall (fun c => In c (Base64.alphabet ++ [Base64.PAD]))
         (Base64.b2a_base64 data).
Proof.
  assert (Hpad : In Base64.PAD (Base64.alphabet ++ [Base64.PAD])).
  { apply in_or_app. right. now left. }
  induction data as [|b0|b0 b1|b0 b1 b2 rest IH] using list_ind3;
    cbn [Base64.b2a_base64];
    repeat (apply Forall_cons;
            [first [apply table_b2a_alphabet | exact Hpad]|]);
    first [apply Forall_nil | exact IH].
Qed.

(** C3: for every plaintext that [encrypt] accepts, the token is the
    standard-alphabet base64 text of the 12-byte nonce followed by the
    sealed data, which is 16 bytes longer than the UTF-8 plaintext;
    decoded, it is [12 + len + 16] bytes that start with the nonce. *)
Theorem token_wire_format (plaintext : pystr) (data : bytes) (w : world) :
  aead_tag_length G -> constructed self ->
  practical plaintext data ->
  exists token w' nonce sealed,
    encrypt plaintext w = (Returns token, w')
    /\ nonce = next_nonce w /\ length nonce = 12%nat
    /\ sealed = gcm_seal G aes_key nonce data
    /\ length sealed = (length data + 16)%nat
    /\ token = map Byte.to_N (Base64.b64encode (nonce ++ sealed))
    /\ Forall (fun c => In c (map Byte.to_N (Base64.alphabet ++ [Base64.PAD])))
              token
    /\ exists blob,
        Base64.b64decode token = Returns blob
        /\ length blob = (12 + length data + 16)%nat
        /\ firstn 12 blob = nonce.
Proof.
  intros Htag Hself Hs.
  destruct (constructed_inv Hself) as [Hkey Hof].
  pose proof (next_nonce_length w) as Hn.
  assert (Hsealed : length (gcm_seal G aes_key (next_nonce w) data)
                    = (length data + 16)%nat).
  { rewrite Hof. apply Htag; [exact Hkey | apply next_nonce_size_ok]. }
  eexists. eexists.
  exists (next_nonce w), (gcm_seal G aes_key (next_nonce w) data).
  split; [apply encrypt_returns; exact Hs|].
  repeat split; try assumption; try reflexivity.
  - apply Forall_forall. intros c Hc.
    apply in_map_iff in Hc as (b & <- & Hb). apply in_map.
    pose proof (b2a_base64_alphabet
                  (next_nonce w ++ gcm_seal G aes_key (next_nonce w) data)) as F.
    rewrite Forall_forall in F. now apply F.
  - exists (next_nonce w ++ gcm_seal G aes_key (next_nonce w) data).
    split; [apply b64decode_b64encode|].
    split; [rewrite length_app, Hn, Hsealed; lia|].
    rewrite <- Hn. apply firstn_prefix.
Qed.

(** Tokens of blobs that start with different nonces differ. *)
Lemma token_of_nonce (n1 n2 s1 s2 : bytes) :
  length n1 = 12%nat -> length n2 = 12%nat -> n1 <> n2 ->
  map Byte.to_N (Base64.b64encode (n1 ++ s1))
  <> map Byte.to_N (Base64.b64encode (n2 ++ s2)).
Proof.
  intros L1 L2 Hn Heq. apply Hn.
  pose proof (b64decode_b64encode (n1 ++ s1)) as D1.
  pose proof (b64decode_b64encode (n2 ++ s2)) as D2.
  rewrite Heq, D2 in D1.
  assert (Hblob : n2 ++ s2 = n1 ++ s1) by congruence.
  apply (f_equal (firstn 12)) in Hblob.
  rewrite <- L2 in Hblob at 1. rewrite <- L1 in Hblob at 1.
  now rewrite !firstn_prefix in Hblob.
Qed.

(** C5: two encryptions of the same plaintext under the same key whose
    freshly drawn nonces differ give different tokens. *)
Theorem fresh_nonce_fresh_token (plaintext : pystr) (data : bytes)
        (w1 w2 : world) :
  practical plaintext data ->
  next_nonce w1 <> next_nonce w2 ->
  exists t1 w1' t2 w2',
    encrypt plaintext w1 = (Returns t1, w1')
    /\ encrypt plaintext w2 = (Returns t2, w2')
    /\ t1 <> t2.
Proof.
  intros Hs Hn.
  do 4 eexists.
  split; [apply encrypt_returns; exact Hs|].
  split; [apply encrypt_returns; exact Hs|].
  apply token_of_nonce; [apply next_nonce_length .. | exact Hn].
Qed.

(** Decryption fails exactly in the ways listed by [decrypt_failure]. *)
Lemma decrypt_try_raises (token : pystr) :
  decrypt_failure G self token -> exists e, decrypt_try token = Raises e.
Proof.
  unfold CryptoManager.decrypt_try.
  intros [e H | blob H Hlen | blob H Hopen | blob plain e H Hplain Hdec];
    rewrite H; cbn [obind].
  - eauto.
  - unfold AESGCM.decrypt.
    destruct (AESGCM.nonce_size_ok (firstn 12 blob)); cbn [negb obind]; eauto.
    replace (length (skipn 12 blob) <? AESGCM.TAG_LENGTH)%nat with true;
      cbn [obind]; eauto.
    symmetry. apply Nat.ltb_lt. rewrite length_skipn.
    unfold AESGCM.TAG_LENGTH. lia.
  - unfold AESGCM.decrypt. rewrite Hopen.
    destruct (AESGCM.nonce_size_ok (firstn 12 blob)); cbn [negb obind]; eauto.
    destruct (length (skipn 12 blob) <? AESGCM.TAG_LENGTH)%nat;
      cbn [obind]; eauto.
  - rewrite Hplain. cbn [obind]. eauto.
Qed.

Lemma decrypt_try_raises_inv (token : pystr) (e : exn) :
  decrypt_try token = Raises e -> decrypt_failure G self token.
Proof.
  unfold CryptoManager.decrypt_try.
  destruct (Base64.b64decode token) as [blob|e0] eqn:H; cbn [obind].
  - destruct (AESGCM.decrypt G (CryptoManager.aesgcm self)
                (firstn 12 blob) (skipn 12 blob)) as [plain|e1] eqn:Hplain;
      cbn [obind].
    + intros Hdec. eapply invalid_utf8; eassumption.
    + intros _. revert Hplain. unfold AESGCM.decrypt.
      destruct (AESGCM.nonce_size_ok (firstn 12 blob)) eqn:Hnonce; cbn [negb].
      * destruct (length (skipn 12 blob) <? AESGCM.TAG_LENGTH)%nat eqn:Hlen.
        -- intros _. apply (@wrong_length G self _ _ H).
           apply Nat.ltb_lt in Hlen. rewrite length_skipn in Hlen.
           unfold AESGCM.TAG_LENGTH in Hlen. lia.
        -- destruct (gcm_open G aes_key (firstn 12 blob) (skipn 12 blob))
             eqn:Hopen; [discriminate|].
           intros _. exact (@tag_mismatch G self _ _ H Hopen).
      * intros _. apply (@wrong_length G self _ _ H).
        unfold AESGCM.nonce_size_ok in Hnonce. rewrite length_firstn in Hnonce.
        apply andb_false_iff in Hnonce as [Hn|Hn].
        -- apply Nat.leb_gt in Hn. lia.
        -- apply Nat.leb_gt in Hn. lia.
  - intros _. exact (@malformed_encoding G self _ _ H).
Qed.

(** C9: [decrypt] is total: on every input string whatsoever it returns
    a string and raises nothing.  The string is the plaintext when the
    body of the [try] succeeds and ["[Decryption Error]"] when it fails in
    any of its ways. *)
Theorem decrypt_total (token : pystr) :
  exists s,
    decrypt token = Returns s
    /\ (forall e, decrypt token <> Raises e)
    /\ (decrypt_try token = Returns s
        \/ (decrypt_failure G self token
            /\ s = CryptoManager.decryption_error)).
Proof.
  unfold CryptoManager.decrypt.
  destruct (decrypt_try token) as [s|e] eqn:Htry; cbn [try_except].
  - exists s. split; [reflexivity|]. split; [discriminate|]. now left.
  - exists CryptoManager.decryption_error.
    split; [reflexivity|]. split; [discriminate|].
    right. split; [|reflexivity].
    exact (@decrypt_try_raises_inv token e Htry).
Qed.

(** C2, as the code has it: when decryption does not succeed (malformed
    base64, wrong length, tag mismatch or invalid UTF-8), [decrypt] raises
    nothing and returns the string ["[Decryption Error]"] as its value. *)
Theorem failure_returns_marker (token : pystr) :
  decrypt_failure G self token ->
  decrypt token = Returns CryptoManager.decryption_error
  /\ forall e, decrypt token <> Raises e.
Proof.
  intros Hfail. destruct (decrypt_try_raises Hfail) as [e He].
  rewrite (@decrypt_raises G self _ _ He). split; [reflexivity | discriminate].
Qed.

(** C4, as the code has it: for a token [t] of [encrypt] and a token [t']
    that differs from it in one character, [decrypt] raises nothing: it
    returns the plaintext when [t'] still decodes to the bytes of [t], and
    the string ["[Decryption Error]"] when it decodes to other bytes, which
    the cipher rejects, or does not decode. *)
Theorem single_change_outcome (plaintext t t' : pystr) (w w' : world) :
  aead_correct G -> aead_tag_length G -> constructed self ->
  encrypt plaintext w = (Returns t, w') ->
  single_change t t' ->
  rejects_tampering G self t t' ->
  (Base64.b64decode t' = Base64.b64decode t
   /\ decrypt t' = Returns plaintext)
  \/ (Base64.b64decode t' <> Base64.b64decode t
      /\ decrypt t' = Returns CryptoManager.decryption_error).
Proof.
  intros Hcorrect Htag Hself Henc _ Hrej.
  destruct (@encrypt_inv G self _ _ _ _ Henc) as (data & [Hdata Hlen] & Ht & _).
  set (blob := next_nonce w ++ gcm_seal G aes_key (next_nonce w) data) in *.
  assert (Hblob : Base64.b64decode t = Returns blob)
    by (rewrite Ht; apply b64decode_b64encode).
  assert (Hgood : decrypt_try t = Returns plaintext).
  { rewrite Ht. unfold blob.
    rewrite decrypt_token by apply next_nonce_length.
    rewrite decrypt_sealed by (assumption || apply next_nonce_size_ok).
    cbn [obind]. apply (decode_encode _ Hdata). }
  destruct (Base64.b64decode t') as [blob'|e] eqn:Hblob'.
  - destruct (list_eq_dec Byte.byte_eq_dec blob' blob) as [->|Hne].
    + left. split; [now rewrite Hblob|].
      unfold CryptoManager.decrypt, CryptoManager.decrypt_try in *.
      rewrite Hblob in Hgood. rewrite Hblob'.
      cbn [obind] in *. rewrite Hgood. reflexivity.
    + right. split; [rewrite Hblob; congruence|].
      assert (Hfail : decrypt_failure G self t').
      { apply (@tag_mismatch G self _ _ Hblob'). apply Hrej; [exact Hblob'|].
        rewrite Hblob. congruence. }
      destruct (decrypt_try_raises Hfail) as [e He].
      apply (@decrypt_raises G self _ _ He).
  - right. split; [rewrite Hblob; discriminate|].
    unfold CryptoManager.decrypt, CryptoManager.decrypt_try.
    rewrite Hblob'. reflexivity.
Qed.

End Token.

(** * The bits that base64 ignores *)

Section Slack.
Import Base64.

Lemma mod3_triple (n : nat) : (S (S (S n)) mod 3 = n mod 3)%nat.
Proof.
  replace (S (S (S n))) with (n + 1 * 3)%nat by lia.
  apply Nat.Div0.mod_add.
Qed.

Lemma b2a_base64_app (pre tail : bytes) :
  (length pre mod 3 = 0)%nat ->
  b2a_base64 (pre ++ tail) = b2a_base64 pre ++ b2a_base64 tail.
Proof.
  induction pre as [|b0|b0 b1|b0 b1 b2 rest IH] using list_ind3; intros H.
  - reflexivity.
  - discriminate.
  - discriminate.
  - cbn [length] in H. rewrite mod3_triple in H.
    cbn [app b2a_base64]. now rewrite (IH H).
Qed.

Lemma a2b_loop_b2a_app (pre rest : bytes) :
  (length pre mod 3 = 0)%nat ->
  a2b_loop (b2a_base64 pre ++ rest) Q0 0 0
  = omap (app pre) (a2b_loop rest Q0 0 0).
Proof.
  induction pre as [|b0|b0 b1|b0 b1 b2 pre IH] using list_ind3; intros H.
  - cbn [b2a_base64 app]. now destruct (a2b_loop rest Q0 0 0).
  - discriminate.
  - discriminate.
  - cbn [length] in H. rewrite mod3_triple in H.
    cbn [b2a_base64 app]. rewrite a2b_loop_triple, (IH H).
    now destruct (a2b_loop rest Q0 0 0).
Qed.

Lemma slack_bits (b : byte) : slack_ok b = true.
Proof. revert b. apply forall_byte. vm_compute. reflexivity. Qed.

Lemma single_change_app (A : Type) (p l l' : list A) :
  single_change l l' -> single_change (p ++ l) (p ++ l').
Proof.
  intros H. induction p as [|a p IH]; [exact H|].
  cbn [app]. now apply change_later.
Qed.

(** Every encoding of [3 k + 1] bytes has a neighbour, one character
    away, that decodes to the same bytes. *)
Theorem base64_slack (pre : bytes) (b : byte) :
  (length pre mod 3 = 0)%nat ->
  exists t',
    single_change (map Byte.to_N (b64encode (pre ++ [b]))) t'
    /\ b64decode t' = Returns (pre ++ [b]).
Proof.
  intros Hpre.
  pose proof (slack_bits b) as Hb. unfold slack_ok in Hb.
  apply andb_true_iff in Hb as [Hb Hne]. apply andb_true_iff in Hb as [Hlt Hbyte].
  apply N.ltb_lt in Hlt. apply byte_eqb_eq in Hbyte.
  apply negb_true_iff, N.eqb_neq in Hne.
  set (v := N.lor (sextet1 b x00) 1) in *.
  exists (map Byte.to_N
            (b2a_base64 pre ++ [table_b2a (sextet0 b); table_b2a v; PAD; PAD])).
  split.
  - unfold b64encode. rewrite (@b2a_base64_app pre [b] Hpre), !map_app.
    apply single_change_app. cbn [b2a_base64 map].
    apply change_later, change_here. exact Hne.
  - unfold b64decode.
    rewrite bytes_from_decode_data_ascii.
    + cbn [obind]. unfold a2b_base64.
      rewrite (@a2b_loop_b2a_app pre _ Hpre).
      rewrite a2b_loop_char by apply sextet0_lt. cbv beta iota.
      rewrite a2b_loop_char by exact Hlt. cbv beta iota.
      unfold emit. rewrite Hbyte. reflexivity.
    + apply Forall_app. split; [apply b2a_base64_ascii|].
      repeat (apply Forall_cons; [first [apply table_b2a_ascii | reflexivity]|]).
      apply Forall_nil.
Qed.

End Slack.

Section Undetected.
Variable G : aead.
Variable self : CryptoManager.t.

Lemma split_last (l : bytes) :
  (length l mod 3 = 1)%nat ->
  exists pre b, l = pre ++ [b] /\ (length pre mod 3 = 0)%nat.
Proof.
  intros H. destruct (@exists_last _ l) as (pre & b & ->).
  - intros ->. discriminate.
  - exists pre, b. split; [reflexivity|].
    rewrite length_app in H. cbn [length] in H.
    pose proof (Nat.mod_upper_bound (length pre) 3 ltac:(lia)) as Hlt.
    rewrite Nat.Div0.add_mod in H.
    destruct (length pre mod 3)%nat as [|[|[|r]]]; [reflexivity | | | lia].
    + discriminate.
    + discriminate.
Qed.

(** X12: whenever the UTF-8 plaintext has a length that is a multiple of three,
    the token of [encrypt] has a neighbour, one character away, that
    [decrypt] accepts and turns into the same plaintext. *)
Theorem undetected_change (plaintext : pystr) (data : bytes) (w : world) :
  aead_correct G -> aead_tag_length G -> constructed self ->
  practical plaintext data ->
  (length data mod 3 = 0)%nat ->
  exists t w' t',
    CryptoManager.encrypt G self plaintext w = (Returns t, w')
    /\ single_change t t'
    /\ CryptoManager.decrypt G self t' = Returns plaintext.
Proof.
  intros Hcorrect Htag Hself Hs Hlen.
  destruct (constructed_inv Hself) as [Hkey Hof].
  set (sealed := gcm_seal G (AESGCM.key_of (CryptoManager.aesgcm self))
                          (next_nonce w) data).
  assert (Hblob : (length (next_nonce w ++ sealed) mod 3 = 1)%nat).
  { rewrite length_app, next_nonce_length. unfold sealed. rewrite Hof.
    rewrite (Htag _ _ data Hkey (next_nonce_size_ok w)).
    replace (12 + (length data + 16))%nat with (1 + length data + 9 * 3)%nat by lia.
    rewrite Nat.Div0.mod_add, Nat.Div0.add_mod, Hlen. reflexivity. }
  destruct (split_last _ Hblob) as (pre & b & Hsplit & Hpre).
  destruct (base64_slack pre b Hpre) as (t' & Hchange & Hdecode).
  rewrite <- Hsplit in Hchange, Hdecode.
  exists (map Byte.to_N (Base64.b64encode (next_nonce w ++ sealed))).
  exists (snd (urandom 12 w)), t'.
  split; [apply encrypt_returns; exact Hs|].
  split; [exact Hchange|].
  unfold CryptoManager.decrypt, CryptoManager.decrypt_try.
  rewrite Hdecode. cbn [obind].
  rewrite <- (next_nonce_length w), firstn_prefix, skipn_prefix.
  unfold sealed.
  rewrite decrypt_sealed by (assumption || apply next_nonce_size_ok).
  cbn [obind]. destruct Hs as [Henc _].
  rewrite (decode_encode _ Henc). reflexivity.
Qed.

End Undetected.

(** * The key file *)

Section KeyStore.
Import CryptoManager.

Lemma load_existing (w : world) (content : bytes) :
  key_file w = Present content true ->
  _load_or_generate_key w = (Returns content, w).
Proof.
  intros H. unfold _load_or_generate_key, bind, path_exists, read_key_file.
  rewrite H. cbv beta iota. rewrite H. reflexivity.
Qed.

Lemma load_unreadable (w : world) (content : bytes) :
  key_file w = Present content false ->
  _load_or_generate_key w = (Raises OSError, w).
Proof.
  intros H. unfold _load_or_generate_key, bind, path_exists, read_key_file.
  rewrite H. cbv beta iota. rewrite H. reflexivity.
Qed.

Lemma load_missing (w : world) :
  key_file w = Absent -> writable w = true ->
  _load_or_generate_key w =
  (Returns (map (entropy w) (seq (drawn w) 32)),
   {| key_file := Present (map (entropy w) (seq (drawn w) 32)) true;
      writable := true; entropy := entropy w;
      drawn := (drawn w + 32)%nat;
      stdout := new_key_notice :: stdout w |}).
Proof.
  intros H Hw.
  unfold _load_or_generate_key, bind, path_exists, generate_key, urandom,
    write_key_file, print, ret.
  rewrite H. cbn. rewrite Hw. reflexivity.
Qed.

Lemma load_unwritable (w : world) :
  key_file w = Absent -> writable w = false ->
  _load_or_generate_key w =
  (Raises OSError,
   {| key_file := Absent; writable := false; entropy := entropy w;
      drawn := (drawn w + 32)%nat; stdout := stdout w |}).
Proof.
  intros H Hw.
  unfold _load_or_generate_key, bind, path_exists, generate_key, urandom,
    write_key_file, print, ret.
  rewrite H. cbn. rewrite H, Hw. reflexivity.
Qed.

(** C6: when the key file can be used, [_load_or_generate_key] returns a
    secret.  An existing secret is returned as stored and nothing is
    written; otherwise 32 fresh random bytes are generated and stored
    before the call returns.  Every later call returns the same secret and
    changes nothing. *)
Theorem load_or_generate_stable (w : world) :
  key_io_works w ->
  exists k w1,
    _load_or_generate_key w = (Returns k, w1)
    /\ (forall content readable,
           key_file w = Present content readable -> k = content /\ w1 = w)
    /\ (key_file w = Absent ->
        k = map (entropy w) (seq (drawn w) 32)
        /\ length k = 32%nat
        /\ key_file w1 = Present k true)
    /\ _load_or_generate_key w1 = (Returns k, w1)
    /\ forall n,
        _load_or_generate_key
          (Nat.iter n (fun x => snd (_load_or_generate_key x)) w1)
        = (Returns k, w1).
Proof.
  unfold key_io_works. intros H.
  destruct (key_file w) as [|content readable] eqn:Hfile.
  - eexists. eexists. split; [apply load_missing; assumption|].
    split; [discriminate|].
    split; [intros _; repeat split; now rewrite length_map, length_seq|].
    assert (Hagain : forall k w1, key_file w1 = Present k true ->
                                  _load_or_generate_key w1 = (Returns k, w1))
      by (intros; now apply load_existing).
    split; [now apply Hagain|].
    induction n as [|n IH]; [now apply Hagain|].
    rewrite Nat.iter_succ, IH. cbn [snd]. now apply Hagain.
  - subst readable. exists content, w.
    pose proof (load_existing _ Hfile) as Hload.
    split; [exact Hload|].
    split; [intros c r Hc; split; congruence|].
    split; [discriminate|].
    split; [exact Hload|].
    induction n as [|n IH]; [exact Hload|].
    rewrite Nat.iter_succ, IH. exact Hload.
Qed.

(** C7, as the code has it: when the key file exists but cannot be read,
    or is missing and cannot be written, key loading raises the [OSError]
    of the file operation, returns no secret and leaves the file as it
    was, and [__init__] fails with it.  A stored secret that can be read is
    returned as stored whatever its length; [__init__] then raises
    [ValueError] unless it is 16, 24 or 32 bytes long. *)
Theorem key_loading_failures (w : world) :
  (key_io_fails w ->
   exists w1,
     _load_or_generate_key w = (Raises OSError, w1)
     /\ key_file w1 = key_file w
     /\ __init__ w = (Raises OSError, w1))
  /\ (forall content,
         key_file w = Present content true ->
         _load_or_generate_key w = (Returns content, w)
         /\ __init__ w =
            (if AESGCM.key_size_ok content
             then Returns {| key := content;
                             aesgcm := {| AESGCM.key_of := content |} |}
             else Raises ValueError, w)).
Proof.
  split.
  - unfold key_io_fails. intros H.
    destruct (key_file w) as [|content readable] eqn:Hfile.
    + pose proof (load_unwritable _ Hfile H) as Hload.
      eexists. split; [exact Hload|].
      split; [first [reflexivity | exact Hfile]|].
      unfold __init__, bind. now rewrite Hload.
    + subst readable. exists w.
      pose proof (load_unreadable _ Hfile) as Hload.
      split; [exact Hload|].
      split; [first [reflexivity | exact Hfile]|].
      unfold __init__, bind. now rewrite Hload.
  - intros content Hfile.
    split; [now apply load_existing|].
    unfold __init__, bind, lift, ret, AESGCM.new.
    rewrite (load_existing _ Hfile).
    destruct (AESGCM.key_size_ok content); reflexivity.
Qed.

(** What [__init__] returns is a manager in the sense of [constructed]. *)
Lemma init_constructed (w w1 : world) (self : t) :
  __init__ w = (Returns self, w1) -> constructed self.
Proof.
  unfold __init__, bind, lift, ret, constructed.
  destruct (_load_or_generate_key w) as [[k|e] w0]; [|discriminate].
  destruct (AESGCM.new k) as [a|e] eqn:Hnew; [|discriminate].
  intros H. inversion H. exact Hnew.
Qed.

End KeyStore.

(** * The listing *)

Section ListingFacts.
Variable G : aead.
Variable F : float_model.
Variable self : CryptoManager.t.

Local Abbreviation decrypt := (CryptoManager.decrypt G self).
Local Abbreviation decrypt_try := (CryptoManager.decrypt_try G self).
Local Abbreviation show := (show_items G F self).

Lemma decrypt_intact (token s : pystr) :
  decrypt_try token = Returns s -> decrypt token = Returns s.
Proof. unfold CryptoManager.decrypt. now intros ->. Qed.

Lemma decrypt_corrupted (token : pystr) :
  decrypt_failure G self token ->
  decrypt token = Returns CryptoManager.decryption_error.
Proof.
  intros H. destruct (decrypt_try_raises H) as [e He].
  unfold CryptoManager.decrypt. now rewrite He.
Qed.

(** One pass of the loop body, for a row whose fields decrypt to [desc]
    and [amt] (the failure string included). *)
Lemma show_items_cons (item_id : Z) (desc_enc amt_enc desc amt : pystr)
      (items : list (Z * pystr * pystr)) (total : float F) :
  decrypt desc_enc = Returns desc ->
  decrypt amt_enc = Returns amt ->
  show ((item_id, desc_enc, amt_enc) :: items) total =
  omap (fun r => (plain_line F (item_id, desc, amt) :: fst r, snd r))
       (show items
             (fold_left (float_add F) (parsed_amounts F [(item_id, desc, amt)])
                        total)).
Proof.
  intros Hd Ha. cbn [show_items]. rewrite Hd, Ha. cbn [obind].
  unfold plain_line, parsed_amounts. cbn [flat_map snd app].
  destruct (float_of_str F amt); reflexivity.
Qed.

Lemma parsed_amounts_cons (row : Z * pystr * pystr)
      (rows : list (Z * pystr * pystr)) :
  parsed_amounts F (row :: rows)
  = parsed_amounts F [row] ++ parsed_amounts F rows.
Proof.
  unfold parsed_amounts. cbn [flat_map]. now rewrite app_nil_r.
Qed.

(** The loop over rows that all decrypt, followed by more rows. *)
Lemma show_items_intact (rows plain : list (Z * pystr * pystr)) :
  Forall2 (decrypts_to G self) rows plain ->
  forall more total,
    show (rows ++ more) total =
    omap (fun r => (map (plain_line F) plain ++ fst r, snd r))
         (show more (fold_left (float_add F) (parsed_amounts F plain) total)).
Proof.
  induction 1 as [|[[item_id desc_enc] amt_enc] [[item_id' desc] amt]
                   rows plain (Hid & Hd & Ha) _ IH]; intros more total.
  - cbn [app map parsed_amounts flat_map fold_left].
    destruct (show more total) as [[lines t]|e]; reflexivity.
  - cbn [fst snd] in Hid, Hd, Ha. subst item_id'.
    cbn [app]. rewrite (@show_items_cons item_id _ _ _ _ _ _ (@decrypt_intact _ _ Hd) (@decrypt_intact _ _ Ha)).
    rewrite IH, (parsed_amounts_cons (item_id, desc, amt) plain), fold_left_app.
    destruct (show more _) as [[lines t]|e]; reflexivity.
Qed.

(** C8, as the code has it: when one token of one stored item is
    corrupted and every other row decrypts, the listing returns; every
    other row shows its plaintext; the total is the sum of the amounts
    that decrypted and parsed.  With the amount token corrupted the row
    shows its description and [Error], and its amount is not in the total;
    with the description token corrupted the row shows
    ["[Decryption Error]"] with its amount, which is in the total. *)
Theorem listing_isolates_corruption
        (db : BudgetDB.t) (budget_id item_id : Z) (desc_enc amt_enc : pystr)
        (before after before_plain after_plain : list (Z * pystr * pystr))
        (c : corruption) :
  float_of_str F CryptoManager.decryption_error = None ->
  BudgetDB.get_items db budget_id
  = before ++ (item_id, desc_enc, amt_enc) :: after ->
  Forall2 (decrypts_to G self) before before_plain ->
  Forall2 (decrypts_to G self) after after_plain ->
  corrupted_row G self desc_enc amt_enc c ->
  exists bad total,
    manage_single_budget_display G F db self budget_id
    = Returns (map (plain_line F) before_plain
                 ++ bad :: map (plain_line F) after_plain, total)
    /\ match c with
       | AmountToken desc =>
           bad = ErrorLine item_id desc
           /\ total = float_sum F (parsed_amounts F (before_plain ++ after_plain))
       | DescriptionToken amt =>
           bad = plain_line F (item_id, CryptoManager.decryption_error, amt)
           /\ total = float_sum F
                        (parsed_amounts F
                           (before_plain
                              ++ (item_id, CryptoManager.decryption_error, amt)
                              :: after_plain))
       end.
Proof.
  intros Hmarker Hitems Hbefore Hafter Hrow.
  assert (Hfields : exists desc amt,
             decrypt desc_enc = Returns desc /\ decrypt amt_enc = Returns amt
             /\ match c with
                | AmountToken d => desc = d /\ amt = CryptoManager.decryption_error
                | DescriptionToken a => desc = CryptoManager.decryption_error /\ amt = a
                end).
  { destruct c as [d|a]; destruct Hrow as [H1 H2].
    - exists d, CryptoManager.decryption_error.
      auto using decrypt_intact, decrypt_corrupted.
    - exists CryptoManager.decryption_error, a.
      auto using decrypt_intact, decrypt_corrupted. }
  destruct Hfields as (desc & amt & Hd & Ha & Hc).
  unfold manage_single_budget_display. rewrite Hitems.
  rewrite (@show_items_intact _ _ Hbefore).
  rewrite (@show_items_cons item_id _ _ _ _ _ _ Hd Ha).
  pose proof (fun total => @show_items_intact _ _ Hafter [] total) as Hrest.
  setoid_rewrite app_nil_r in Hrest. rewrite Hrest. cbn [show_items omap obind fst snd].
  rewrite app_nil_r.
  exists (plain_line F (item_id, desc, amt)). eexists. split; [reflexivity|].
  unfold float_sum.
  destruct c as [d|a]; destruct Hc as [-> ->].
  - split; [unfold plain_line; now rewrite Hmarker|].
    unfold parsed_amounts at 2. cbn [flat_map snd]. rewrite Hmarker.
    cbn [app fold_left].
    unfold parsed_amounts. now rewrite flat_map_app, fold_left_app.
  - split; [reflexivity|].
    unfold parsed_amounts at 4.
    rewrite flat_map_app, fold_left_app.
    fold (parsed_amounts F before_plain).
    fold (parsed_amounts F ((item_id, CryptoManager.decryption_error, a) :: after_plain)).
    rewrite (parsed_amounts_cons _ after_plain), fold_left_app.
    reflexivity.
Qed.

End ListingFacts.

(** * The theorems on the sample *)

Section Runs.
Import Sample.

Lemma practical_milk : practical (lit "Milk") (list_byte_of_string "Milk").
Proof. split; [reflexivity | vm_compute; discriminate]. Qed.

Lemma encrypt_empty :
  CryptoManager.encrypt cipher manager (lit "") fresh
  = (Returns empty_token, snd (urandom 12 fresh)).
Proof. vm_compute. reflexivity. Qed.

Lemma corrupt_token_fails (text : string) (blob : bytes) :
  Base64.b64decode (corrupt (token_of text)) = Returns blob ->
  gcm_open cipher key (firstn 12 blob) (skipn 12 blob) = None ->
  decrypt_failure cipher manager (corrupt (token_of text)).
Proof. intros H1 H2. exact (@tag_mismatch cipher manager _ blob H1 H2). Qed.

(** The round trip on ["Milk"]. *)
Lemma decrypt_encrypt_milk :
  exists token w',
    CryptoManager.encrypt cipher manager (lit "Milk") fresh = (Returns token, w')
    /\ CryptoManager.decrypt cipher manager token = Returns (lit "Milk").
Proof.
  exact (@decrypt_encrypt cipher manager (lit "Milk") (list_byte_of_string "Milk")
           fresh sample_correct sample_tag_length sample_constructed
           practical_milk).
Defined.

(** The token ["A"] is not base64: [decrypt] returns the failure string. *)
Lemma failure_returns_marker_A :
  CryptoManager.decrypt cipher manager (lit "A")
  = Returns CryptoManager.decryption_error
  /\ forall e, CryptoManager.decrypt cipher manager (lit "A") <> Raises e.
Proof.
  apply failure_returns_marker.
  apply (@malformed_encoding cipher manager (lit "A") BinasciiError).
  reflexivity.
Defined.

(** Against C2: decryption of the token ["A"] does not succeed, and
    [decrypt] does not fail with any error: it returns a value. *)
Lemma failure_is_returned :
  ~ (decrypt_failure cipher manager (lit "A") ->
     exists e, CryptoManager.decrypt cipher manager (lit "A") = Raises e).
Proof.
  intros H.
  destruct H as [e He].
  - apply (@malformed_encoding cipher manager (lit "A") BinasciiError).
    reflexivity.
  - vm_compute in He. discriminate.
Qed.

(** The format of the token of ["Milk"]. *)
Lemma token_wire_format_milk :
  exists token w' nonce sealed,
    CryptoManager.encrypt cipher manager (lit "Milk") fresh = (Returns token, w')
    /\ nonce = next_nonce fresh /\ length nonce = 12%nat
    /\ sealed = gcm_seal cipher (AESGCM.key_of (CryptoManager.aesgcm manager))
                         nonce (list_byte_of_string "Milk")
    /\ length sealed = (length (list_byte_of_string "Milk") + 16)%nat
    /\ token = map Byte.to_N (Base64.b64encode (nonce ++ sealed))
    /\ Forall (fun c => In c (map Byte.to_N (Base64.alphabet ++ [Base64.PAD])))
              token
    /\ exists blob,
        Base64.b64decode token = Returns blob
        /\ length blob = (12 + length (list_byte_of_string "Milk") + 16)%nat
        /\ firstn 12 blob = nonce.
Proof.
  exact (@token_wire_format cipher manager (lit "Milk")
           (list_byte_of_string "Milk") fresh
           sample_tag_length sample_constructed practical_milk).
Defined.

(** Against C4: replacing the [w] before the padding of the token of the
    empty text by [x] changes one character, and [decrypt] still returns
    the empty text. *)
Lemma changed_token_still_decrypts :
  fst (CryptoManager.encrypt cipher manager (lit "") fresh) = Returns empty_token
  /\ single_change empty_token nudged_token
  /\ CryptoManager.decrypt cipher manager nudged_token = Returns (lit "")
  /\ ~ (exists e, CryptoManager.decrypt cipher manager nudged_token = Raises e).
Proof.
  split; [vm_compute; reflexivity|].
  split.
  - vm_compute. do 37 apply change_later. apply change_here. discriminate.
  - split; [vm_compute; reflexivity|].
    intros [e He]. vm_compute in He. discriminate.
Qed.

Lemma single_change_corrupt :
  single_change empty_token (corrupt empty_token).
Proof. vm_compute. apply change_here. discriminate. Qed.

Lemma sample_rejects_corrupt :
  rejects_tampering cipher manager empty_token (corrupt empty_token).
Proof.
  intros blob' H1 _. vm_compute in H1. injection H1 as <-.
  vm_compute. reflexivity.
Qed.

(** Replacing the first character of the token of the empty text. *)
Lemma single_change_outcome_corrupt :
  (Base64.b64decode (corrupt empty_token) = Base64.b64decode empty_token
   /\ CryptoManager.decrypt cipher manager (corrupt empty_token) = Returns (lit ""))
  \/ (Base64.b64decode (corrupt empty_token) <> Base64.b64decode empty_token
      /\ CryptoManager.decrypt cipher manager (corrupt empty_token)
         = Returns CryptoManager.decryption_error).
Proof.
  assert (Hs : practical (lit "") []) by (split; [reflexivity | vm_compute; discriminate]).
  exact (@single_change_outcome cipher manager (lit "") empty_token
           (corrupt empty_token) fresh (snd (urandom 12 fresh))
           sample_correct sample_tag_length sample_constructed
           encrypt_empty single_change_corrupt sample_rejects_corrupt).
Defined.

(** Two calls in a row draw different nonces and give different tokens. *)
Lemma fresh_nonce_fresh_token_milk :
  exists t1 w1' t2 w2',
    CryptoManager.encrypt cipher manager (lit "Milk") fresh = (Returns t1, w1')
    /\ CryptoManager.encrypt cipher manager (lit "Milk") later = (Returns t2, w2')
    /\ t1 <> t2.
Proof.
  apply (@fresh_nonce_fresh_token cipher manager (lit "Milk")
           (list_byte_of_string "Milk") fresh later practical_milk).
  vm_compute. discriminate.
Defined.

(** The first run creates the key file; later runs find it. *)
Lemma load_or_generate_stable_fresh :
  exists k w1,
    CryptoManager._load_or_generate_key fresh = (Returns k, w1)
    /\ (forall content readable,
           key_file fresh = Present content readable -> k = content /\ w1 = fresh)
    /\ (key_file fresh = Absent ->
        k = map (entropy fresh) (seq (drawn fresh) 32)
        /\ length k = 32%nat
        /\ key_file w1 = Present k true)
    /\ CryptoManager._load_or_generate_key w1 = (Returns k, w1)
    /\ forall n,
        CryptoManager._load_or_generate_key
          (Nat.iter n (fun x => snd (CryptoManager._load_or_generate_key x)) w1)
        = (Returns k, w1).
Proof.
  apply load_or_generate_stable. reflexivity.
Defined.

(** A key file that cannot be read stops the start. *)
Lemma key_loading_failures_locked :
  exists w1,
    CryptoManager._load_or_generate_key locked = (Raises OSError, w1)
    /\ key_file w1 = key_file locked
    /\ CryptoManager.__init__ locked = (Raises OSError, w1).
Proof.
  apply (proj1 (key_loading_failures locked)). reflexivity.
Defined.

(** Against C7: a stored key of 16 bytes, not 256 bits, is loaded and the
    manager is built with it; nothing fails. *)
Lemma wrong_length_key_is_accepted :
  key_file stale = Present short_key true
  /\ length short_key <> 32%nat
  /\ CryptoManager._load_or_generate_key stale = (Returns short_key, stale)
  /\ CryptoManager.__init__ stale
     = (Returns {| CryptoManager.key := short_key;
                   CryptoManager.aesgcm := {| AESGCM.key_of := short_key |} |},
        stale).
Proof.
  repeat split; try reflexivity. vm_compute. discriminate.
Qed.

(** The listing of the sample budget: the second of three rows has a
    corrupted amount token. *)
Lemma listing_isolates_corruption_groceries :
  exists bad total,
    manage_single_budget_display cipher whole groceries manager 1
    = Returns (map (plain_line whole) [(1%Z, lit "Milk", lit "3")]
                 ++ bad :: map (plain_line whole) [(4%Z, lit "Eggs", lit "2")],
               total)
    /\ bad = ErrorLine 2 (lit "Bread")
    /\ total = float_sum whole
                 (parsed_amounts whole
                    ([(1%Z, lit "Milk", lit "3")] ++ [(4%Z, lit "Eggs", lit "2")])).
Proof.
  apply (@listing_isolates_corruption cipher whole manager groceries 1 2
           (token_of "Bread") (corrupt (token_of "4"))
           [(1%Z, token_of "Milk", token_of "3")]
           [(4%Z, token_of "Eggs", token_of "2")]
           [(1%Z, lit "Milk", lit "3")] [(4%Z, lit "Eggs", lit "2")]
           (AmountToken (lit "Bread"))).
  - vm_compute. reflexivity.
  - vm_compute. reflexivity.
  - apply Forall2_cons; [|apply Forall2_nil].
    split; [reflexivity | split; vm_compute; reflexivity].
  - apply Forall2_cons; [|apply Forall2_nil].
    split; [reflexivity | split; vm_compute; reflexivity].
  - split; [vm_compute; reflexivity|].
    eapply corrupt_token_fails; vm_compute; reflexivity.
Defined.

(** Against C8: the only item has a corrupted description token; the
    listing shows the failure string for it, and the total is its amount,
    5, not the sum over the other rows, 0. *)
Lemma corrupted_description_is_counted :
  corrupted_row cipher manager (corrupt (token_of "Milk")) (token_of "5")
                (DescriptionToken (lit "5"))
  /\ manage_single_budget_display cipher whole mislabelled manager 1
     = Returns ([ItemLine 1 CryptoManager.decryption_error 5%Z], 5%Z)
  /\ 5%Z <> float_sum whole (parsed_amounts whole []).
Proof.
  split.
  - split; [|vm_compute; reflexivity].
    eapply corrupt_token_fails; vm_compute; reflexivity.
  - split; [vm_compute; reflexivity | vm_compute; discriminate].
Qed.

(** The failure string as a plaintext. *)
Lemma failure_value_collides_fresh :
  exists plaintext token w',
    plaintext = CryptoManager.decryption_error
    /\ CryptoManager.encrypt cipher manager plaintext fresh = (Returns token, w')
    /\ CryptoManager.decrypt_try cipher manager token = Returns plaintext
    /\ CryptoManager.decrypt cipher manager token = Returns plaintext
    /\ forall bad e, CryptoManager.decrypt_try cipher manager bad = Raises e ->
                     CryptoManager.decrypt cipher manager bad
                     = CryptoManager.decrypt cipher manager token.
Proof.
  exact (@failure_value_collides cipher manager fresh
           sample_correct sample_tag_length sample_constructed).
Defined.

End Runs.

(** * The database *)

Section DatabaseFacts.
Import Database.

Lemma str_eqb_eq (a b : pystr) : str_eqb a b = true <-> a = b.
Proof.
  revert b. induction a as [|x a IH]; intros [|y b]; cbn; split;
    try discriminate; try reflexivity.
  - intros H. apply andb_true_iff in H as [Hx Ha].
    apply N.eqb_eq in Hx. apply IH in Ha. now subst.
  - intros H. inversion H. subst.
    apply andb_true_iff. split; [apply N.eqb_refl | now apply IH].
Qed.

Lemma name_taken (name : pystr) (names : list pystr) :
  existsb (str_eqb name) names = true <-> In name names.
Proof.
  rewrite existsb_exists. split.
  - intros (n & Hn & Heq). apply str_eqb_eq in Heq. now subst.
  - intros H. exists name. split; [exact H | now apply str_eqb_eq].
Qed.

Lemma id_listed (i : Z) (ids : list Z) :
  existsb (Z.eqb i) ids = true <-> In i ids.
Proof.
  rewrite existsb_exists. split.
  - intros (j & Hj & Heq). apply Z.eqb_eq in Heq. now subst.
  - intros H. exists i. split; [exact H | apply Z.eqb_refl].
Qed.

Lemma has_budget_In (db : t) (b : Z) :
  has_budget db b = true <-> In b (budget_ids db).
Proof. apply id_listed. Qed.

Lemma max_bounds (ids : list Z) :
  Forall (fun i => i <= fold_right Z.max 0 ids)%Z ids.
Proof.
  induction ids as [|i ids IH]; constructor; cbn [fold_right].
  - lia.
  - eapply Forall_impl; [|exact IH]. cbv beta. intros j Hj. lia.
Qed.

(** A new row id is larger than every id in the table and than every id
    the table held before. *)
Lemma next_rowid_fresh (seq : Z) (ids : list Z) :
  (seq < next_rowid seq ids)%Z
  /\ Forall (fun i => i < next_rowid seq ids)%Z ids.
Proof.
  unfold next_rowid. split; [lia|].
  eapply Forall_impl; [|apply max_bounds]. cbv beta. intros j Hj. lia.
Qed.

Lemma next_rowid_seen (seq : Z) (ids : list Z) :
  (0 <= seq)%Z -> Forall (fun i => 0 < i <= seq)%Z ids ->
  next_rowid seq ids = (seq + 1)%Z.
Proof.
  intros Hseq H. unfold next_rowid.
  assert (fold_right Z.max 0 ids <= seq)%Z; [|lia].
  induction H as [|i ids Hi _ IH]; cbn [fold_right]; lia.
Qed.

Lemma Forall_lt_not_In (new : Z) (ids : list Z) :
  Forall (fun i => i < new)%Z ids -> ~ In new ids.
Proof.
  intros H Hin. rewrite Forall_forall in H. specialize (H _ Hin). lia.
Qed.

Lemma NoDup_snoc (A : Type) (l : list A) (a : A) :
  NoDup l -> ~ In a l -> NoDup (l ++ [a]).
Proof.
  intros Hl Ha. apply NoDup_app; [exact Hl | repeat constructor; intros [] |].
  intros x Hx [<-|[]]. contradiction.
Qed.

Lemma StronglySorted_snoc (l : list Z) (new : Z) :
  StronglySorted Z.lt l -> Forall (fun i => i < new)%Z l ->
  StronglySorted Z.lt (l ++ [new]).
Proof.
  induction 1 as [|i l Hl IH Hi]; intros Hnew; cbn [app].
  - repeat constructor.
  - inversion Hnew as [|? ? Hinew Hrest]; subst.
    constructor; [now apply IH|].
    apply Forall_app. split; [exact Hi | now repeat constructor].
Qed.

Lemma StronglySorted_filter (f : Z -> bool) (l : list Z) :
  StronglySorted Z.lt l -> StronglySorted Z.lt (filter f l).
Proof.
  induction 1 as [|i l Hl IH Hi]; cbn [filter]; [constructor|].
  destruct (f i); [|exact IH].
  constructor; [exact IH|].
  rewrite Forall_forall in *. intros j Hj. apply Hi.
  now apply filter_In in Hj.
Qed.

Lemma StronglySorted_NoDup (l : list Z) :
  StronglySorted Z.lt l -> NoDup l.
Proof.
  induction 1 as [|i l Hl IH Hi]; constructor; [|exact IH].
  intros Hin. rewrite Forall_forall in Hi. specialize (Hi _ Hin). lia.
Qed.

Lemma NoDup_map_filter (A B : Type) (g : A -> B) (f : A -> bool) (l : list A) :
  NoDup (map g l) -> NoDup (map g (filter f l)).
Proof.
  induction l as [|a l IH]; cbn [map filter]; intros H; [constructor|].
  apply NoDup_cons_iff in H as [Ha Hl].
  destruct (f a); [|now apply IH].
  cbn [map]. constructor; [|now apply IH].
  intros Hin. apply Ha. apply in_map_iff in Hin as (x & Hx & Hin).
  apply filter_In in Hin as [Hin _]. apply in_map_iff. eauto.
Qed.

(** Renaming one row keeps the names distinct when no other row has the
    new name. *)
Lemma rename_NoDup (b : Z) (new : pystr) (l : list (Z * pystr)) :
  NoDup (map fst l) -> NoDup (map snd l) ->
  (forall i n, In (i, n) l -> i <> b -> n <> new) ->
  NoDup (map snd (map (fun r => if (fst r =? b)%Z then (fst r, new) else r) l)).
Proof.
  induction l as [|[i n] l IH]; cbn [map fst snd]; intros Hids Hnames Hother;
    [constructor|].
  apply NoDup_cons_iff in Hids as [Hi Hids].
  apply NoDup_cons_iff in Hnames as [Hn Hnames].
  assert (IHl := IH Hids Hnames (fun i' n' H => Hother i' n' (or_intror H))).
  destruct (Z.eqb_spec i b) as [->|Hib]; cbn [snd]; constructor; try exact IHl.
  - intros Hin. apply in_map_iff in Hin as ([i' n'] & Heq & Hin).
    apply in_map_iff in Hin as ([i0 n0] & Hr & Hin). cbn [fst snd] in *.
    destruct (Z.eqb_spec i0 b) as [->|Hne].
    + apply Hi. apply in_map_iff. exists (b, n0). split; [reflexivity | exact Hin].
    + apply (Hother i0 n0 (or_intror Hin) Hne). congruence.
  - intros Hin. apply in_map_iff in Hin as ([i' n'] & Heq & Hin).
    apply in_map_iff in Hin as ([i0 n0] & Hr & Hin). cbn [fst snd] in *.
    destruct (Z.eqb_spec i0 b) as [->|Hne].
    + apply (Hother i n (or_introl eq_refl) Hib). congruence.
    + apply Hn. apply in_map_iff.
      exists (i0, n0). split; [cbn [snd]; congruence | exact Hin].
Qed.

Lemma rename_ids (b : Z) (new : pystr) (l : list (Z * pystr)) :
  map fst (map (fun r => if (fst r =? b)%Z then (fst r, new) else r) l)
  = map fst l.
Proof.
  rewrite map_map. apply map_ext. intros [i n]. cbn [fst].
  now destruct (i =? b)%Z.
Qed.


Lemma consistent_insert_budget (name : pystr) (db : t) :
  consistent db -> consistent (snd (insert_budget name db)).
Proof.
  intros C. unfold insert_budget.
  destruct (sql_text name); cbn [negb]; [|exact C].
  destruct (MAX_ROWID <? next_rowid (budgets_seq db) (budget_ids db))%Z eqn:Hfull;
    [exact C|].
  destruct (existsb (str_eqb name) (budget_names db)) eqn:Htaken; [exact C|].
  cbn [snd]. apply Z.ltb_ge in Hfull.
  destruct (next_rowid_fresh (budgets_seq db) (budget_ids db)) as [Hseq Hids].
  destruct C as [Cids Cnames Cseen Csorted Ciseen Cowned Crange].
  constructor; unfold budget_ids, budget_names, item_ids in *;
    cbn [budgets budgets_seq items items_seq];
    rewrite ?map_app; cbn [map fst snd].
  - apply NoDup_snoc; [exact Cids | now apply Forall_lt_not_In].
  - apply NoDup_snoc; [exact Cnames|].
    intros Hin. apply name_taken in Hin. unfold budget_names in Htaken. congruence.
  - apply Forall_app. split.
    + eapply Forall_impl; [|exact Cseen]. cbv beta. intros i Hi. lia.
    + repeat constructor; lia.
  - exact Csorted.
  - exact Ciseen.
  - eapply Forall_impl; [|exact Cowned]. cbv beta. intros r Hr.
    apply in_or_app. now left.
  - lia.
Qed.

Lemma consistent_update_budget (new_name : pystr) (b : Z) (db : t) :
  consistent db -> consistent (snd (update_budget new_name b db)).
Proof.
  intros C. unfold update_budget.
  destruct (sql_text new_name); cbn [negb]; [|exact C].
  destruct (sql_integer b); cbn [negb]; [|exact C].
  destruct (has_budget db b); cbn [negb]; [|exact C].
  destruct (existsb _ (budgets db)) eqn:Hother; [exact C|].
  cbn [snd].
  destruct C as [Cids Cnames Cseen Csorted Ciseen Cowned Crange].
  constructor; unfold budget_ids, budget_names, item_ids in *;
    cbn [budgets budgets_seq items items_seq];
    rewrite ?rename_ids; try assumption.
  apply rename_NoDup; try assumption.
  intros i n Hin Hne ->.
  assert (Hex : existsb (fun r => negb (fst r =? b)%Z && str_eqb new_name (snd r))
                        (budgets db) = true).
  { apply existsb_exists. exists (i, new_name). split; [exact Hin|].
    cbn [fst snd]. apply andb_true_iff. split.
    - apply negb_true_iff. now apply Z.eqb_neq.
    - now apply str_eqb_eq. }
  congruence.
Qed.

Lemma StronglySorted_map_filter (A : Type) (g : A -> Z) (f : A -> bool)
      (l : list A) :
  StronglySorted Z.lt (map g l) -> StronglySorted Z.lt (map g (filter f l)).
Proof.
  induction l as [|a l IH]; cbn [map filter]; intros H; [constructor|].
  apply StronglySorted_inv in H as [Hl Ha].
  destruct (f a); [|now apply IH].
  cbn [map]. constructor; [now apply IH|].
  rewrite Forall_forall in *. intros j Hj. apply Ha.
  apply in_map_iff in Hj as (x & <- & Hx). apply filter_In in Hx as [Hx _].
  now apply in_map.
Qed.

Lemma filter_ids (b : Z) (l : list (Z * pystr)) :
  map fst (filter (fun r => negb (fst r =? b)%Z) l)
  = filter (fun i => negb (i =? b)%Z) (map fst l).
Proof. now rewrite filter_map_swap. Qed.

Lemma consistent_delete_budget_row (b : Z) (db : t) :
  consistent db -> consistent (snd (delete_budget_row b db)).
Proof.
  intros C. unfold delete_budget_row.
  destruct (sql_integer b); cbn [negb]; [|exact C].
  destruct (has_budget db b); cbn [negb]; [|exact C].
  cbn [snd].
  destruct C as [Cids Cnames Cseen Csorted Ciseen Cowned Crange].
  constructor; unfold budget_ids, budget_names, item_ids in *;
    cbn [budgets budgets_seq items items_seq]; try assumption.
  - rewrite filter_ids. now apply NoDup_filter.
  - now apply NoDup_map_filter.
  - rewrite filter_ids. rewrite Forall_forall in *. intros i Hi.
    apply filter_In in Hi as [Hi _]. now apply Cseen.
  - now apply StronglySorted_map_filter.
  - rewrite Forall_forall in *. intros i Hi.
    apply in_map_iff in Hi as (r & <- & Hr). apply filter_In in Hr as [Hr _].
    apply Ciseen. now apply in_map.
  - rewrite Forall_forall in *. intros r Hr.
    apply filter_In in Hr as [Hr Hb]. rewrite filter_ids.
    apply filter_In. split; [now apply Cowned | exact Hb].
Qed.

Lemma consistent_insert_item (b : Z) (d a : pystr) (db : t) :
  consistent db -> consistent (snd (insert_item b d a db)).
Proof.
  intros C. unfold insert_item.
  destruct (sql_integer b); cbn [negb]; [|exact C].
  destruct (sql_text d && sql_text a); cbn [negb]; [|exact C].
  destruct (MAX_ROWID <? next_rowid (items_seq db) (item_ids db))%Z eqn:Hfull;
    [exact C|].
  destruct (has_budget db b) eqn:Hb; cbn [negb]; [|exact C].
  cbn [snd]. apply Z.ltb_ge in Hfull. apply has_budget_In in Hb.
  destruct (next_rowid_fresh (items_seq db) (item_ids db)) as [Hseq Hids].
  destruct C as [Cids Cnames Cseen Csorted Ciseen Cowned Crange].
  constructor; unfold budget_ids, budget_names, item_ids in *;
    cbn [budgets budgets_seq items items_seq]; try assumption;
    rewrite ?map_app; cbn [map BudgetDB.id BudgetDB.budget_id].
  - now apply StronglySorted_snoc.
  - apply Forall_app. split.
    + eapply Forall_impl; [|exact Ciseen]. cbv beta. intros i Hi. lia.
    + repeat constructor; lia.
  - apply Forall_app. split; [exact Cowned|].
    repeat constructor. exact Hb.
  - lia.
Qed.

Lemma update_item_ids (i : Z) (d a : pystr) (l : BudgetDB.t) :
  map BudgetDB.id
      (map (fun r => if (BudgetDB.id r =? i)%Z
                     then {| BudgetDB.id := BudgetDB.id r;
                             BudgetDB.budget_id := BudgetDB.budget_id r;
                             BudgetDB.description := d;
                             BudgetDB.amount := a |}
                     else r) l)
  = map BudgetDB.id l.
Proof.
  rewrite map_map. apply map_ext. intros r.
  now destruct (BudgetDB.id r =? i)%Z.
Qed.

Lemma consistent_update_item_row (i : Z) (d a : pystr) (db : t) :
  consistent db -> consistent (snd (update_item_row i d a db)).
Proof.
  intros C. unfold update_item_row.
  destruct (sql_text d && sql_text a); cbn [negb]; [|exact C].
  destruct (sql_integer i); cbn [negb]; [|exact C].
  cbn [snd].
  destruct C as [Cids Cnames Cseen Csorted Ciseen Cowned Crange].
  constructor; unfold budget_ids, budget_names, item_ids in *;
    cbn [budgets budgets_seq items items_seq]; rewrite ?update_item_ids;
    try assumption.
  rewrite Forall_forall in *. intros r Hr.
  apply in_map_iff in Hr as (r0 & <- & Hr0).
  specialize (Cowned _ Hr0). now destruct (BudgetDB.id r0 =? i)%Z.
Qed.

Lemma consistent_delete_item_row (i : Z) (db : t) :
  consistent db -> consistent (snd (delete_item_row i db)).
Proof.
  intros C. unfold delete_item_row.
  destruct (sql_integer i); cbn [negb]; [|exact C].
  cbn [snd].
  destruct C as [Cids Cnames Cseen Csorted Ciseen Cowned Crange].
  constructor; unfold budget_ids, budget_names, item_ids in *;
    cbn [budgets budgets_seq items items_seq]; try assumption.
  - now apply StronglySorted_map_filter.
  - rewrite Forall_forall in *. intros j Hj.
    apply in_map_iff in Hj as (r & <- & Hr). apply filter_In in Hr as [Hr _].
    apply Ciseen. now apply in_map.
  - rewrite Forall_forall in *. intros r Hr.
    apply filter_In in Hr as [Hr _]. now apply Cowned.
Qed.

Lemma snd_catch_integrity (r : result unit * t) :
  snd (catch_integrity r) = snd r.
Proof. destruct r as [[[]|[]] db]; reflexivity. Qed.

Lemma consistent_after (c : call) (db : t) :
  consistent db -> consistent (after c db).
Proof.
  intros C. destruct c; cbn [after];
    unfold create_budget, update_budget_name, delete_budget, add_item,
      update_item, delete_item; rewrite ?snd_catch_integrity.
  - now apply consistent_insert_budget.
  - now apply consistent_update_budget.
  - now apply consistent_delete_budget_row.
  - now apply consistent_insert_item.
  - now apply consistent_update_item_row.
  - now apply consistent_delete_item_row.
Qed.

Lemma consistent_empty : consistent empty.
Proof.
  constructor; cbn; try constructor; try (unfold MAX_ROWID; lia).
Qed.

(** X1: the schema's invariants hold after any calls. *)
Theorem consistent_after_all (calls : list call) (db : t) :
  consistent db -> consistent (after_all calls db).
Proof.
  revert db. induction calls as [|c calls IH]; intros db C; [exact C|].
  cbn [after_all fold_left]. apply IH. now apply consistent_after.
Qed.


Lemma seen_sql_integer (i seq : Z) :
  (0 < i <= seq)%Z -> (seq <= MAX_ROWID)%Z -> sql_integer i = true.
Proof.
  intros Hi Hseq. unfold sql_integer. apply andb_true_iff.
  split; apply Z.leb_le; unfold MAX_ROWID in *; lia.
Qed.

(** X2: [create_budget] refuses a name exactly when a budget has it, and
    then changes nothing; otherwise it adds one budget with that name under
    an id that no budget has. *)
Theorem create_budget_unique (name : pystr) (db : t) :
  consistent db -> sql_text name = true ->
  (budgets_seq db < MAX_ROWID)%Z ->
  (In name (budget_names db) /\ create_budget name db = (Done false, db))
  \/ (~ In name (budget_names db)
      /\ exists db',
          create_budget name db = (Done true, db')
          /\ get_budgets db' = get_budgets db ++ [((budgets_seq db + 1)%Z, name)]
          /\ ~ In (budgets_seq db + 1)%Z (budget_ids db)
          /\ items db' = items db).
Proof.
  intros C Hname Hroom.
  pose proof (next_rowid_seen (proj1 (proj1 (seqs_in_range C)))
                              (budget_ids_seen C)) as Hnext.
  unfold create_budget, insert_budget. rewrite Hname, Hnext. cbn [negb].
  replace (MAX_ROWID <? budgets_seq db + 1)%Z with false
    by (symmetry; apply Z.ltb_ge; lia).
  destruct (existsb (str_eqb name) (budget_names db)) eqn:Htaken.
  - left. split; [now apply name_taken | reflexivity].
  - right. split.
    + intros Hin. apply name_taken in Hin. congruence.
    + eexists. split; [reflexivity|]. cbn [get_budgets budgets items].
      split; [reflexivity|]. split; [|reflexivity].
      apply Forall_lt_not_In. eapply Forall_impl; [|exact (budget_ids_seen C)].
      cbv beta. intros i Hi. lia.
Qed.

Lemma budgets_seq_after (c : call) (db : t) :
  (budgets_seq db <= budgets_seq (after c db))%Z.
Proof.
  destruct c; cbn [after];
    unfold create_budget, update_budget_name, delete_budget, add_item,
      update_item, delete_item; rewrite ?snd_catch_integrity;
    unfold insert_budget, update_budget, delete_budget_row, insert_item,
      update_item_row, delete_item_row;
    repeat match goal with
           | |- context [if ?c then _ else _] => destruct c
           end; cbn [snd budgets_seq]; try lia.
  pose proof (next_rowid_fresh (budgets_seq db) (budget_ids db)). lia.
Qed.

Lemma budgets_seq_after_all (calls : list call) (db : t) :
  (budgets_seq db <= budgets_seq (after_all calls db))%Z.
Proof.
  revert db. induction calls as [|c calls IH]; intros db; cbn; [lia|].
  etransitivity; [apply (budgets_seq_after c)|apply IH].
Qed.

(** X3: the id of a budget is never given to another budget, whatever is
    created, renamed or deleted in between. *)
Theorem budget_id_never_reused (db : t) (id : Z) (calls : list call)
        (name : pystr) (db' : t) :
  consistent db -> In id (budget_ids db) ->
  create_budget name (after_all calls db) = (Done true, db') ->
  exists new_id,
    get_budgets db' = get_budgets (after_all calls db) ++ [(new_id, name)]
    /\ (id < new_id)%Z.
Proof.
  intros C Hid Hcreate.
  pose proof (budgets_seq_after_all calls db) as Hmono.
  pose proof (budget_ids_seen C) as Hseen. rewrite Forall_forall in Hseen.
  specialize (Hseen _ Hid).
  revert Hcreate. set (db1 := after_all calls db) in *.
  unfold create_budget, insert_budget.
  destruct (sql_text name); cbn [negb catch_integrity]; [|discriminate].
  destruct (MAX_ROWID <? _)%Z; cbn [catch_integrity]; [discriminate|].
  destruct (existsb _ _); cbn [catch_integrity]; [discriminate|].
  intros H. inversion H. subst db'. cbn [get_budgets budgets].
  eexists. split; [reflexivity|].
  pose proof (next_rowid_fresh (budgets_seq db1) (budget_ids db1)). lia.
Qed.

Lemma get_items_none (l : BudgetDB.t) (b : Z) :
  ~ In b (map BudgetDB.budget_id l) -> BudgetDB.get_items l b = [].
Proof.
  unfold BudgetDB.get_items. induction l as [|r l IH]; cbn [map filter]; intros H;
    [reflexivity|].
  destruct (Z.eqb_spec (BudgetDB.budget_id r) b) as [Heq|Hne].
  - exfalso. apply H. now left.
  - apply IH. intros Hin. apply H. now right.
Qed.

Lemma get_items_filter (f : BudgetDB.item -> bool) (l : BudgetDB.t) (b : Z) :
  BudgetDB.get_items (filter f l) b
  = map (fun r => (BudgetDB.id r, BudgetDB.description r, BudgetDB.amount r))
        (filter f (filter (fun r => (BudgetDB.budget_id r =? b)%Z) l)).
Proof.
  unfold BudgetDB.get_items. f_equal.
  induction l as [|r l IH]; cbn [filter]; [reflexivity|].
  destruct (f r) eqn:Hf, (BudgetDB.budget_id r =? b)%Z eqn:Hb;
    cbn [filter]; rewrite ?Hf, ?Hb, IH; reflexivity.
Qed.

(** X4: deleting a budget removes it and all its items and touches nothing
    else. *)
Theorem delete_budget_cascades (b : Z) (db : t) :
  consistent db -> sql_integer b = true ->
  exists db',
    delete_budget b db = (Done tt, db')
    /\ ~ In b (budget_ids db')
    /\ get_items db' b = []
    /\ (forall b', b' <> b -> get_items db' b' = get_items db b')
    /\ (forall i n, In (i, n) (get_budgets db')
                    <-> In (i, n) (get_budgets db) /\ i <> b).
Proof.
  intros C Hb. unfold delete_budget, delete_budget_row. rewrite Hb. cbn [negb].
  destruct (has_budget db b) eqn:Hhas; cbn [negb].
  - eexists. split; [reflexivity|].
    unfold budget_ids, get_items, get_budgets. cbn [budgets items].
    split; [|split; [|split]].
    + rewrite filter_ids. intros Hin. apply filter_In in Hin as [_ Hne].
      rewrite Z.eqb_refl in Hne. discriminate.
    + apply get_items_none. intros Hin.
      apply in_map_iff in Hin as (r & Hr & Hin).
      apply filter_In in Hin as [_ Hne].
      rewrite Hr, Z.eqb_refl in Hne. discriminate.
    + intros b' Hne. rewrite get_items_filter. unfold BudgetDB.get_items.
      f_equal. apply forallb_filter_id. apply forallb_forall.
      intros r Hr. apply filter_In in Hr as [_ Hr]. apply Z.eqb_eq in Hr.
      apply negb_true_iff. apply Z.eqb_neq. congruence.
    + intros i n. rewrite filter_In. cbn [fst].
      rewrite negb_true_iff, Z.eqb_neq. reflexivity.
  - exists db. split; [reflexivity|].
    assert (Hnot : ~ In b (budget_ids db)).
    { intros Hin. apply has_budget_In in Hin. congruence. }
    split; [exact Hnot|]. split; [|split].
    + apply get_items_none. intros Hin.
      apply in_map_iff in Hin as (r & Hr & Hin).
      pose proof (items_owned C) as Howned. rewrite Forall_forall in Howned.
      apply Hnot. rewrite <- Hr. now apply Howned.
    + reflexivity.
    + intros i n. split; [|tauto]. intros Hin. split; [exact Hin|].
      intros ->. apply Hnot. unfold budget_ids.
      apply in_map_iff. exists (b, n). split; [reflexivity | exact Hin].
Qed.


(** X5: renaming a budget fails exactly when another budget has the new
    name, and then changes nothing; otherwise the budget has the new name,
    and the other budgets and all items are as before. *)
Theorem update_budget_name_unique (b : Z) (new_name : pystr) (db : t) :
  consistent db -> sql_text new_name = true -> In b (budget_ids db) ->
  ((exists other, other <> b /\ In (other, new_name) (get_budgets db))
   /\ update_budget_name b new_name db = (Done false, db))
  \/ (~ (exists other, other <> b /\ In (other, new_name) (get_budgets db))
      /\ exists db',
          update_budget_name b new_name db = (Done true, db')
          /\ In (b, new_name) (get_budgets db')
          /\ budget_ids db' = budget_ids db
          /\ (forall i n, i <> b ->
                          (In (i, n) (get_budgets db') <-> In (i, n) (get_budgets db)))
          /\ items db' = items db).
Proof.
  intros C Hname Hb.
  assert (Hint : sql_integer b = true).
  { pose proof (budget_ids_seen C) as Hseen. rewrite Forall_forall in Hseen.
    apply (seen_sql_integer (Hseen _ Hb)). apply (seqs_in_range C). }
  unfold update_budget_name, update_budget, get_budgets.
  rewrite Hname, Hint, (proj2 (has_budget_In db b) Hb). cbn [negb].
  destruct (existsb _ (budgets db)) eqn:Hother; cbn [catch_integrity].
  - left. split; [|reflexivity].
    apply existsb_exists in Hother as ([i n] & Hin & Hi). cbn [fst snd] in Hi.
    apply andb_true_iff in Hi as [Hne Hn].
    apply negb_true_iff, Z.eqb_neq in Hne. apply str_eqb_eq in Hn. subst n.
    now exists i.
  - right. split.
    + intros (other & Hne & Hin).
      assert (existsb (fun r => negb (fst r =? b)%Z && str_eqb new_name (snd r))
                      (budgets db) = true); [|congruence].
      apply existsb_exists. exists (other, new_name). split; [exact Hin|].
      cbn [fst snd]. apply andb_true_iff. split.
      * now apply negb_true_iff, Z.eqb_neq.
      * now apply str_eqb_eq.
    + eexists. split; [reflexivity|]. cbn [budgets items].
      split; [|split; [|split; [|reflexivity]]].
      * unfold budget_ids in Hb. apply in_map_iff in Hb as ([i n] & Hi & Hin).
        cbn [fst] in Hi. subst i. apply in_map_iff. exists (b, n).
        split; [|exact Hin]. cbn [fst]. now rewrite Z.eqb_refl.
      * unfold budget_ids. cbn [budgets]. apply rename_ids.
      * intros i n Hne. rewrite in_map_iff. split.
        -- intros ([i0 n0] & Hr & Hin). cbn [fst] in Hr.
           destruct (Z.eqb_spec i0 b); inversion Hr; subst; [contradiction|].
           exact Hin.
        -- intros Hin. exists (i, n). split; [|exact Hin]. cbn [fst].
           now rewrite (proj2 (Z.eqb_neq i b) Hne).
Qed.

Lemma get_items_app (l1 l2 : BudgetDB.t) (b : Z) :
  BudgetDB.get_items (l1 ++ l2) b
  = BudgetDB.get_items l1 b ++ BudgetDB.get_items l2 b.
Proof. unfold BudgetDB.get_items. now rewrite filter_app, map_app. Qed.

(** X6: [add_item] stores the item exactly when its budget exists: the
    new row comes last in the listing of that budget and no other budget
    sees it; for a budget that does not exist the foreign key makes it
    raise [IntegrityError], and nothing is stored. *)
Theorem add_item_get_items (b : Z) (desc_enc amt_enc : pystr) (db : t) :
  consistent db -> sql_integer b = true ->
  sql_text desc_enc = true -> sql_text amt_enc = true ->
  (items_seq db < MAX_ROWID)%Z ->
  (In b (budget_ids db)
   /\ exists db',
       add_item b desc_enc amt_enc db = (Done tt, db')
       /\ get_items db' b
          = get_items db b ++ [((items_seq db + 1)%Z, desc_enc, amt_enc)]
       /\ (forall b', b' <> b -> get_items db' b' = get_items db b')
       /\ get_budgets db' = get_budgets db)
  \/ (~ In b (budget_ids db)
      /\ add_item b desc_enc amt_enc db = (Failed IntegrityError, db)).
Proof.
  intros C Hb Hd Ha Hroom.
  pose proof (next_rowid_seen (proj1 (proj2 (seqs_in_range C)))
                              (item_ids_seen C)) as Hnext.
  unfold add_item, insert_item. rewrite Hb, Hd, Ha, Hnext. cbn [negb andb].
  replace (MAX_ROWID <? items_seq db + 1)%Z with false
    by (symmetry; apply Z.ltb_ge; lia).
  destruct (has_budget db b) eqn:Hhas; cbn [negb].
  - left. split; [now apply has_budget_In|].
    eexists. split; [reflexivity|].
    unfold get_items, get_budgets. cbn [items budgets].
    split; [|split; [|reflexivity]].
    + rewrite get_items_app. f_equal.
      unfold BudgetDB.get_items. cbn [filter BudgetDB.budget_id].
      now rewrite Z.eqb_refl.
    + intros b' Hne. rewrite get_items_app.
      unfold BudgetDB.get_items at 2. cbn [filter BudgetDB.budget_id].
      rewrite (proj2 (Z.eqb_neq b b')) by congruence.
      cbn [map]. apply app_nil_r.
  - right. split; [|reflexivity].
    intros Hin. apply has_budget_In in Hin. congruence.
Qed.

(** X7: [update_item] replaces the two fields of the item with that id
    where it stands; the item stays in its budget and every other row of
    every listing is as before. *)
Theorem update_item_in_place (item_id : Z) (desc_enc amt_enc : pystr) (db : t) :
  sql_text desc_enc = true -> sql_text amt_enc = true ->
  sql_integer item_id = true ->
  exists db',
    update_item item_id desc_enc amt_enc db = (Done tt, db')
    /\ (forall b,
           get_items db' b
           = map (fun row : Z * pystr * pystr =>
                    if (fst (fst row) =? item_id)%Z
                    then (fst (fst row), desc_enc, amt_enc) else row)
                 (get_items db b))
    /\ get_budgets db' = get_budgets db.
Proof.
  intros Hd Ha Hi. unfold update_item, update_item_row.
  rewrite Hd, Ha, Hi. cbn [negb andb].
  eexists. split; [reflexivity|]. split; [|reflexivity].
  intros b. unfold get_items, BudgetDB.get_items. cbn [items].
  rewrite filter_map_swap, !map_map.
  rewrite (filter_ext
             (fun r => (BudgetDB.budget_id
                          (if (BudgetDB.id r =? item_id)%Z
                           then {| BudgetDB.id := BudgetDB.id r;
                                   BudgetDB.budget_id := BudgetDB.budget_id r;
                                   BudgetDB.description := desc_enc;
                                   BudgetDB.amount := amt_enc |}
                           else r) =? b)%Z)
             (fun r => (BudgetDB.budget_id r =? b)%Z))
    by (intros r; now destruct (BudgetDB.id r =? item_id)%Z).
  apply map_ext. intros r. cbn [fst].
  now destruct (BudgetDB.id r =? item_id)%Z.
Qed.

(** X8: [delete_item] removes the item with that id from the listing of
    its budget and nothing else. *)
Theorem delete_item_only (item_id : Z) (db : t) :
  sql_integer item_id = true ->
  exists db',
    delete_item item_id db = (Done tt, db')
    /\ (forall b,
           get_items db' b
           = filter (fun row : Z * pystr * pystr =>
                       negb (fst (fst row) =? item_id)%Z)
                    (get_items db b))
    /\ Forall (fun row : Z * pystr * pystr => fst (fst row) <> item_id)
              (flat_map (get_items db') (budget_ids db'))
    /\ get_budgets db' = get_budgets db.
Proof.
  intros Hi. unfold delete_item, delete_item_row. rewrite Hi. cbn [negb].
  eexists. split; [reflexivity|].
  assert (Hget : forall b,
             get_items {| budgets := budgets db; budgets_seq := budgets_seq db;
                          items := filter (fun r => negb (BudgetDB.id r =? item_id)%Z)
                                          (items db);
                          items_seq := items_seq db |} b
             = filter (fun row : Z * pystr * pystr =>
                         negb (fst (fst row) =? item_id)%Z)
                      (get_items db b)).
  { intros b. unfold get_items. cbn [items]. rewrite get_items_filter.
    unfold BudgetDB.get_items. now rewrite filter_map_swap. }
  split; [exact Hget|]. split; [|reflexivity].
  apply Forall_forall. intros row Hrow.
  apply in_flat_map in Hrow as (b & _ & Hrow). rewrite Hget in Hrow.
  apply filter_In in Hrow as [_ Hne].
  now apply negb_true_iff, Z.eqb_neq in Hne.
Qed.

End DatabaseFacts.

(** * More on tokens *)

Section TokenFacts.
Import Base64.

Lemma encode_raises (s : pystr) (e : exn) :
  Utf8.encode s = Raises e ->
  e = UnicodeEncodeError /\ forallb Utf8.encodable s = false.
Proof.
  induction s as [|c s IH]; cbn [Utf8.encode forallb]; [discriminate|].
  destruct (Utf8.encodable c); cbn [andb]; [|intros H; now inversion H].
  destruct (Utf8.encode s) as [d|e']; cbn; [discriminate|].
  intros H. inversion H. subst. now apply IH.
Qed.

Lemma encode_returns (s : pystr) (data : bytes) :
  Utf8.encode s = Returns data -> forallb Utf8.encodable s = true.
Proof.
  revert data. induction s as [|c s IH]; cbn [Utf8.encode forallb]; intros data;
    [reflexivity|].
  destruct (Utf8.encodable c); cbn [andb]; [|discriminate].
  destruct (Utf8.encode s) as [d|e']; cbn; [|discriminate].
  intros _. now apply (IH d).
Qed.

(** A byte outside the alphabet that is not the padding is skipped by the
    decoder, wherever it stands. *)
Lemma a2b_loop_junk (c : byte) :
  table_a2b c = None -> Byte.eqb c PAD = false ->
  forall l1 l2 q lc p,
    a2b_loop (l1 ++ c :: l2) q lc p = a2b_loop (l1 ++ l2) q lc p.
Proof.
  intros Hnone Hpad. induction l1 as [|a l1 IH]; intros l2 q lc p.
  - cbn [app a2b_loop]. now rewrite Hpad, Hnone.
  - cbn [app a2b_loop]. destruct (Byte.eqb a PAD).
    + destruct q; try destruct (4 <=? _); rewrite ?IH; reflexivity.
    + destruct (table_a2b a); [|apply IH].
      destruct q; unfold emit; now rewrite IH.
Qed.

Lemma bytes_from_decode_data_app (a b : pystr) :
  bytes_from_decode_data (a ++ b)
  = obind (bytes_from_decode_data a)
          (fun x => omap (app x) (bytes_from_decode_data b)).
Proof.
  induction a as [|c a IH]; cbn [app bytes_from_decode_data].
  - cbn. now destruct (bytes_from_decode_data b).
  - destruct (c <? 128); [|reflexivity]. rewrite IH.
    destruct (bytes_from_decode_data a); cbn; [|reflexivity].
    now destruct (bytes_from_decode_data b).
Qed.

Lemma b64decode_junk (t1 t2 : pystr) (c : codepoint) :
  c < 128 -> table_a2b (byte_of_N c) = None ->
  Byte.eqb (byte_of_N c) PAD = false ->
  b64decode (t1 ++ c :: t2) = b64decode (t1 ++ t2).
Proof.
  intros Hc Hnone Hpad. unfold b64decode.
  rewrite !bytes_from_decode_data_app. cbn [bytes_from_decode_data].
  apply N.ltb_lt in Hc. rewrite Hc.
  destruct (bytes_from_decode_data t1) as [x|e]; cbn [obind]; [|reflexivity].
  destruct (bytes_from_decode_data t2) as [y|e]; cbn; [|reflexivity].
  unfold a2b_base64. now apply a2b_loop_junk.
Qed.

(** Everything after the padding of an encoding is ignored. *)
Lemma a2b_loop_padded (data : bytes) :
  (length data mod 3 <> 0)%nat ->
  forall g, a2b_loop (b2a_base64 data ++ g) Q0 0 0 = Returns data.
Proof.
  induction data as [|b0|b0 b1|b0 b1 b2 rest IH] using list_ind3;
    intros H g.
  - now contradiction H.
  - cbn [b2a_base64 app].
    rewrite a2b_loop_char by apply sextet0_lt. cbv beta iota.
    rewrite a2b_loop_char by apply sextet1_lt. cbv beta iota.
    unfold emit. destruct (first_byte b0 x00) as [E0 _]. rewrite E0.
    reflexivity.
  - cbn [b2a_base64 app].
    rewrite a2b_loop_char by apply sextet0_lt. cbv beta iota.
    rewrite a2b_loop_char by apply sextet1_lt. cbv beta iota.
    rewrite a2b_loop_char by apply sextet2_lt. cbv beta iota.
    unfold emit.
    destruct (first_byte b0 b1) as [E0 L1].
    destruct (second_byte b1 x00) as [E1 _].
    rewrite E0, L1, E1. reflexivity.
  - cbn [length] in H. rewrite mod3_triple in H.
    cbn [b2a_base64 app]. rewrite a2b_loop_triple, (IH H g). reflexivity.
Qed.

Lemma bytes_from_decode_data_below (g : pystr) :
  Forall (fun c => c < 128) g ->
  bytes_from_decode_data g = Returns (map byte_of_N g).
Proof.
  induction 1 as [|c g Hc _ IH]; [reflexivity|].
  cbn [bytes_from_decode_data map]. apply N.ltb_lt in Hc.
  now rewrite Hc, IH.
Qed.

Lemma b64decode_trailing (data : bytes) (g : pystr) :
  (length data mod 3 <> 0)%nat -> Forall (fun c => c < 128) g ->
  b64decode (@app codepoint (map Byte.to_N (b64encode data)) g) = Returns data.
Proof.
  intros Hlen Hg. unfold b64decode, b64encode.
  rewrite bytes_from_decode_data_app.
  rewrite bytes_from_decode_data_ascii by apply b2a_base64_ascii.
  rewrite (bytes_from_decode_data_below Hg). cbn [obind omap].
  unfold a2b_base64. now apply a2b_loop_padded.
Qed.

Lemma b2a_base64_length (data : bytes) :
  length (b2a_base64 data) = (4 * ((length data + 2) / 3))%nat.
Proof.
  induction data as [|b0|b0 b1|b0 b1 b2 rest IH] using list_ind3;
    try reflexivity.
  cbn [b2a_base64 length]. rewrite IH.
  replace (S (S (S (length rest))) + 2)%nat
    with (1 * 3 + (length rest + 2))%nat by lia.
  rewrite Nat.div_add_l by discriminate. lia.
Qed.

End TokenFacts.

Section MoreCipher.
Variable G : aead.
Variable self : CryptoManager.t.

Local Abbreviation encrypt := (CryptoManager.encrypt G self).
Local Abbreviation decrypt := (CryptoManager.decrypt G self).

(** X9: [encrypt] fails only on text that it cannot encode or that is too
    long, with [UnicodeEncodeError] and [OverflowError]; it returns a token
    for every other text; and it has drawn its 12 random bytes in either
    case. *)
Theorem encrypt_failures (plaintext : pystr) (w : world) :
  snd (encrypt plaintext w) = snd (urandom 12 w)
  /\ ((exists token, fst (encrypt plaintext w) = Returns token)
      <-> exists data, practical plaintext data)
  /\ (fst (encrypt plaintext w) = Raises UnicodeEncodeError
      <-> forallb Utf8.encodable plaintext = false)
  /\ (fst (encrypt plaintext w) = Raises OverflowError
      <-> exists data, Utf8.encode plaintext = Returns data
                       /\ AESGCM.MAX_SIZE < N.of_nat (length data))
  /\ forall e, fst (encrypt plaintext w) = Raises e ->
               e = UnicodeEncodeError \/ e = OverflowError.
Proof.
  destruct (Utf8.encode plaintext) as [data|e0] eqn:Henc.
  - pose proof (encode_returns _ Henc) as Hall.
    destruct (N.le_gt_cases (N.of_nat (length data)) AESGCM.MAX_SIZE)
      as [Hlen|Hlen].
    + rewrite (@encrypt_returns G self plaintext data w (conj Henc Hlen)).
      cbn [fst snd]. split; [reflexivity|].
      split; [split; [intros _; now exists data | eauto]|].
      split; [split; [discriminate | congruence]|].
      split; [|discriminate].
      split; [discriminate|].
      intros (d & Hd & Hbig). try rewrite Henc in Hd; inversion Hd; subst; lia.
    + assert (Hfail : encrypt plaintext w = (Raises OverflowError, snd (urandom 12 w))).
      { unfold CryptoManager.encrypt, bind, lift, urandom. rewrite Henc.
        unfold AESGCM.encrypt. apply N.ltb_lt in Hlen. now rewrite Hlen. }
      rewrite Hfail. cbn [fst snd]. split; [reflexivity|].
      split.
      { split; [intros [t Ht]; discriminate|].
        intros (d & Hd & Hsmall). try rewrite Henc in Hd; inversion Hd; subst; lia. }
      split; [split; [discriminate | congruence]|].
      split; [split; [intros _; now exists data | reflexivity]|].
      intros e He. inversion He. now right.
  - destruct (encode_raises _ Henc) as [-> Hall].
    assert (Hfail : encrypt plaintext w
                    = (Raises UnicodeEncodeError, snd (urandom 12 w))).
    { unfold CryptoManager.encrypt, bind, lift, urandom. now rewrite Henc. }
    rewrite Hfail. cbn [fst snd]. split; [reflexivity|].
    split.
    { split; [intros [t Ht]; discriminate|].
      intros (d & Hd & _); try rewrite Henc in Hd; discriminate. }
    split; [split; [intros _; exact Hall | reflexivity]|].
    split.
    { split; [discriminate|]. intros (d & Hd & _); try rewrite Henc in Hd; discriminate. }
    intros e He. inversion He. now left.
Qed.

(** X10: [decrypt] does not see characters outside the base64 alphabet,
    such as blanks and line ends: a token with one inserted anywhere
    decrypts like the token without it. *)
Theorem decrypt_ignores_junk (t1 t2 : pystr) (c : codepoint) :
  c < 128 -> Base64.table_a2b (byte_of_N c) = None ->
  Byte.eqb (byte_of_N c) Base64.PAD = false ->
  decrypt (t1 ++ c :: t2) = decrypt (t1 ++ t2).
Proof.
  intros Hc Hnone Hpad.
  unfold CryptoManager.decrypt, CryptoManager.decrypt_try.
  now rewrite (b64decode_junk t1 t2 Hc Hnone Hpad).
Qed.

(** X11: when the token ends in padding, [decrypt] ignores whatever ASCII
    text follows it: the token with anything appended still decrypts to
    the plaintext. *)
Theorem decrypt_ignores_trailing (plaintext : pystr) (data : bytes)
        (w : world) (garbage : pystr) :
  aead_correct G -> aead_tag_length G -> constructed self ->
  practical plaintext data ->
  (length data mod 3 <> 2)%nat ->
  Forall (fun c => c < 128) garbage ->
  exists token w',
    encrypt plaintext w = (Returns token, w')
    /\ decrypt (token ++ garbage) = Returns plaintext.
Proof.
  intros Hcorrect Htag Hself Hs Hlen Hg.
  destruct (constructed_inv Hself) as [Hkey Hof].
  set (sealed := gcm_seal G (AESGCM.key_of (CryptoManager.aesgcm self))
                          (next_nonce w) data).
  assert (Hblob : (length (next_nonce w ++ sealed) mod 3 <> 0)%nat).
  { rewrite length_app, next_nonce_length. unfold sealed. rewrite Hof.
    rewrite (Htag _ _ data Hkey (next_nonce_size_ok w)).
    replace (12 + (length data + 16))%nat with (1 + length data + 9 * 3)%nat by lia.
    rewrite Nat.Div0.mod_add, Nat.Div0.add_mod.
    pose proof (Nat.mod_upper_bound (length data) 3 ltac:(lia)) as Hlt.
    destruct (length data mod 3)%nat as [|[|[|r]]]; cbn; try discriminate; lia. }
  exists (map Byte.to_N (Base64.b64encode (next_nonce w ++ sealed))).
  exists (snd (urandom 12 w)).
  split; [apply encrypt_returns; exact Hs|].
  unfold CryptoManager.decrypt, CryptoManager.decrypt_try.
  rewrite (b64decode_trailing _ Hblob Hg). cbn [obind].
  rewrite <- (next_nonce_length w), firstn_prefix, skipn_prefix.
  unfold sealed.
  rewrite decrypt_sealed by (assumption || apply next_nonce_size_ok).
  cbn [obind]. destruct Hs as [Henc _].
  rewrite (decode_encode _ Henc). reflexivity.
Qed.

(** X13: the length of a token is fixed by the length of the UTF-8
    plaintext: four characters for every three bytes of nonce, data and
    tag, rounded up. *)
Theorem token_length (plaintext : pystr) (data : bytes) (w : world) :
  aead_tag_length G -> constructed self ->
  practical plaintext data ->
  exists token w',
    encrypt plaintext w = (Returns token, w')
    /\ length token = (4 * ((length data + 30) / 3))%nat.
Proof.
  intros Htag Hself Hs.
  destruct (constructed_inv Hself) as [Hkey Hof].
  eexists. eexists. split; [apply encrypt_returns; exact Hs|].
  rewrite length_map. unfold Base64.b64encode.
  rewrite b2a_base64_length, length_app, next_nonce_length, Hof.
  rewrite (Htag _ _ data Hkey (next_nonce_size_ok w)).
  do 2 f_equal. lia.
Qed.

End MoreCipher.

Section Restart.
Variable G : aead.
Import CryptoManager.

(** X14: a first run without a key file makes a key of 32 bytes, stores
    it and prints the notice; a token it makes decrypts in a later run,
    which builds the same manager from the stored key and prints and
    writes nothing. *)
Theorem token_survives_restart (w0 : world) (plaintext : pystr) (data : bytes) :
  aead_correct G -> aead_tag_length G ->
  key_file w0 = Absent -> writable w0 = true ->
  practical plaintext data ->
  exists self w1 token w2,
    __init__ w0 = (Returns self, w1)
    /\ length (key self) = 32%nat
    /\ stdout w1 = new_key_notice :: stdout w0
    /\ encrypt G self plaintext w1 = (Returns token, w2)
    /\ __init__ w2 = (Returns self, w2)
    /\ decrypt G self token = Returns plaintext.
Proof.
  intros Hcorrect Htag Hfile Hw Hs.
  pose proof (load_missing _ Hfile Hw) as Hload.
  set (k := map (entropy w0) (seq (drawn w0) 32)) in *.
  assert (Hk : length k = 32%nat) by (unfold k; now rewrite length_map, length_seq).
  assert (Hnew : AESGCM.new k = Returns {| AESGCM.key_of := k |}).
  { unfold AESGCM.new, AESGCM.key_size_ok. now rewrite Hk. }
  set (self := {| key := k; aesgcm := {| AESGCM.key_of := k |} |}).
  assert (Hself : constructed self) by exact Hnew.
  exists self. eexists. eexists. eexists.
  split.
  { unfold __init__, bind, lift, ret. rewrite Hload, Hnew. reflexivity. }
  split; [exact Hk|]. split; [reflexivity|].
  split; [apply encrypt_returns; exact Hs|].
  split.
  { unfold __init__, bind, lift, ret.
    rewrite (@load_existing _ k) by reflexivity.
    rewrite Hnew. reflexivity. }
  unfold decrypt.
  rewrite decrypt_token by apply next_nonce_length.
  rewrite decrypt_sealed by (assumption || apply next_nonce_size_ok).
  cbn [obind]. destruct Hs as [Henc _].
  rewrite (decode_encode _ Henc). reflexivity.
Qed.

End Restart.

(** * The database and the tokens on the sample *)

Section MoreRuns.
Import Database.

Lemma household_consistent : consistent Household.db.
Proof.
  unfold Household.db, Household.calls, after_all. cbn [fold_left].
  repeat apply consistent_after. apply consistent_empty.
Qed.

Lemma practical_empty : practical (lit "") [].
Proof. split; [reflexivity | vm_compute; discriminate]. Qed.

(** The invariants after the calls that made the sample database. *)
Lemma consistent_after_all_household :
  consistent (after_all Household.calls empty).
Proof.
  exact (@consistent_after_all Household.calls empty consistent_empty).
Defined.

(** A third budget gets the id 3. *)
Lemma create_budget_unique_travel :
  (In (lit "Travel") (budget_names Household.db)
   /\ create_budget (lit "Travel") Household.db = (Done false, Household.db))
  \/ (~ In (lit "Travel") (budget_names Household.db)
      /\ exists db',
          create_budget (lit "Travel") Household.db = (Done true, db')
          /\ get_budgets db'
             = get_budgets Household.db
                 ++ [((budgets_seq Household.db + 1)%Z, lit "Travel")]
          /\ ~ In (budgets_seq Household.db + 1)%Z (budget_ids Household.db)
          /\ items db' = items Household.db).
Proof.
  apply (@create_budget_unique (lit "Travel") Household.db household_consistent).
  - reflexivity.
  - vm_compute. reflexivity.
Defined.

(** After budget 1 is deleted, a new budget does not get the id 1. *)
Lemma budget_id_never_reused_household :
  exists new_id,
    get_budgets (snd (create_budget (lit "Travel")
                                    (after_all [DeleteBudget 1] Household.db)))
    = get_budgets (after_all [DeleteBudget 1] Household.db)
        ++ [(new_id, lit "Travel")]
    /\ (1 < new_id)%Z.
Proof.
  apply (@budget_id_never_reused Household.db 1 [DeleteBudget 1] (lit "Travel")
           (snd (create_budget (lit "Travel")
                               (after_all [DeleteBudget 1] Household.db)))
           household_consistent).
  - vm_compute. tauto.
  - vm_compute. reflexivity.
Defined.

(** Deleting budget 1 takes its two items along. *)
Lemma delete_budget_cascades_household :
  exists db',
    delete_budget 1 Household.db = (Done tt, db')
    /\ ~ In 1%Z (budget_ids db')
    /\ get_items db' 1 = []
    /\ (forall b', b' <> 1%Z -> get_items db' b' = get_items Household.db b')
    /\ (forall i n, In (i, n) (get_budgets db')
                    <-> In (i, n) (get_budgets Household.db) /\ i <> 1%Z).
Proof.
  apply (@delete_budget_cascades 1 Household.db household_consistent).
  reflexivity.
Defined.

(** Renaming budget 1 to a name that is free. *)
Lemma update_budget_name_unique_household :
  ((exists other, other <> 1%Z /\ In (other, lit "Food") (get_budgets Household.db))
   /\ update_budget_name 1 (lit "Food") Household.db = (Done false, Household.db))
  \/ (~ (exists other, other <> 1%Z
                       /\ In (other, lit "Food") (get_budgets Household.db))
      /\ exists db',
          update_budget_name 1 (lit "Food") Household.db = (Done true, db')
          /\ In (1%Z, lit "Food") (get_budgets db')
          /\ budget_ids db' = budget_ids Household.db
          /\ (forall i n, i <> 1%Z ->
                          (In (i, n) (get_budgets db')
                           <-> In (i, n) (get_budgets Household.db)))
          /\ items db' = items Household.db).
Proof.
  apply (@update_budget_name_unique 1 (lit "Food") Household.db
           household_consistent).
  - reflexivity.
  - vm_compute. tauto.
Defined.

(** A second item for budget 2. *)
Lemma add_item_get_items_household :
  (In 2%Z (budget_ids Household.db)
   /\ exists db',
       add_item 2 (Sample.token_of "Gas") (Sample.token_of "40") Household.db
       = (Done tt, db')
       /\ get_items db' 2
          = get_items Household.db 2
              ++ [((items_seq Household.db + 1)%Z,
                   Sample.token_of "Gas", Sample.token_of "40")]
       /\ (forall b', b' <> 2%Z -> get_items db' b' = get_items Household.db b')
       /\ get_budgets db' = get_budgets Household.db)
  \/ (~ In 2%Z (budget_ids Household.db)
      /\ add_item 2 (Sample.token_of "Gas") (Sample.token_of "40") Household.db
         = (Failed IntegrityError, Household.db)).
Proof.
  apply (@add_item_get_items 2 (Sample.token_of "Gas") (Sample.token_of "40")
           Household.db household_consistent).
  - reflexivity.
  - vm_compute. reflexivity.
  - vm_compute. reflexivity.
  - vm_compute. reflexivity.
Defined.

(** New fields for item 1. *)
Lemma update_item_in_place_household :
  exists db',
    update_item 1 (Sample.token_of "Oat milk") (Sample.token_of "4") Household.db
    = (Done tt, db')
    /\ (forall b,
           get_items db' b
           = map (fun row : Z * pystr * pystr =>
                    if (fst (fst row) =? 1)%Z
                    then (fst (fst row), Sample.token_of "Oat milk",
                          Sample.token_of "4")
                    else row)
                 (get_items Household.db b))
    /\ get_budgets db' = get_budgets Household.db.
Proof.
  apply (@update_item_in_place 1 (Sample.token_of "Oat milk")
           (Sample.token_of "4") Household.db).
  - vm_compute. reflexivity.
  - vm_compute. reflexivity.
  - reflexivity.
Defined.

(** Item 1 is deleted. *)
Lemma delete_item_only_household :
  exists db',
    delete_item 1 Household.db = (Done tt, db')
    /\ (forall b,
           get_items db' b
           = filter (fun row : Z * pystr * pystr => negb (fst (fst row) =? 1)%Z)
                    (get_items Household.db b))
    /\ Forall (fun row : Z * pystr * pystr => fst (fst row) <> 1%Z)
              (flat_map (get_items db') (budget_ids db'))
    /\ get_budgets db' = get_budgets Household.db.
Proof.
  apply (@delete_item_only 1 Household.db). reflexivity.
Defined.

(** A blank inside the token of ["Milk"]. *)
Lemma decrypt_ignores_junk_blank :
  CryptoManager.decrypt Sample.cipher Sample.manager
    (Household.spaced_head ++ 32 :: Household.spaced_tail)
  = CryptoManager.decrypt Sample.cipher Sample.manager
      (Household.spaced_head ++ Household.spaced_tail).
Proof.
  apply (@decrypt_ignores_junk Sample.cipher Sample.manager
           Household.spaced_head Household.spaced_tail 32).
  - reflexivity.
  - reflexivity.
  - reflexivity.
Defined.

(** Text after the padding of the token of the empty text. *)
Lemma decrypt_ignores_trailing_empty :
  exists token w',
    CryptoManager.encrypt Sample.cipher Sample.manager (lit "") Sample.fresh
    = (Returns token, w')
    /\ CryptoManager.decrypt Sample.cipher Sample.manager (token ++ lit "xyz")
       = Returns (lit "").
Proof.
  apply (@decrypt_ignores_trailing Sample.cipher Sample.manager (lit "") []
           Sample.fresh (lit "xyz")
           sample_correct sample_tag_length sample_constructed practical_empty).
  - discriminate.
  - repeat constructor.
Defined.

(** The token of ["Milk"] has 44 characters. *)
Lemma token_length_milk :
  exists token w',
    CryptoManager.encrypt Sample.cipher Sample.manager (lit "Milk") Sample.fresh
    = (Returns token, w')
    /\ length token
       = (4 * ((length (list_byte_of_string "Milk") + 30) / 3))%nat.
Proof.
  exact (@token_length Sample.cipher Sample.manager (lit "Milk")
           (list_byte_of_string "Milk") Sample.fresh
           sample_tag_length sample_constructed practical_milk).
Defined.

(** A changed token of the empty text that still decrypts. *)
Lemma undetected_change_empty :
  exists t w' t',
    CryptoManager.encrypt Sample.cipher Sample.manager (lit "") Sample.fresh
    = (Returns t, w')
    /\ single_change t t'
    /\ CryptoManager.decrypt Sample.cipher Sample.manager t' = Returns (lit "").
Proof.
  apply (@undetected_change Sample.cipher Sample.manager (lit "") []
           Sample.fresh
           sample_correct sample_tag_length sample_constructed practical_empty).
  reflexivity.
Defined.

(** The first run and the next, on the sample environment. *)
Lemma token_survives_restart_fresh :
  exists self w1 token w2,
    CryptoManager.__init__ Sample.fresh = (Returns self, w1)
    /\ length (CryptoManager.key self) = 32%nat
    /\ stdout w1 = CryptoManager.new_key_notice :: stdout Sample.fresh
    /\ CryptoManager.encrypt Sample.cipher self (lit "Milk") w1
       = (Returns token, w2)
    /\ CryptoManager.__init__ w2 = (Returns self, w2)
    /\ CryptoManager.decrypt Sample.cipher self token = Returns (lit "Milk").
Proof.
  apply (@token_survives_restart Sample.cipher Sample.fresh (lit "Milk")
           (list_byte_of_string "Milk") sample_correct sample_tag_length).
  - reflexivity.
  - reflexivity.
  - exact practical_milk.
Defined.

End MoreRuns.

(** * The console *)

Section ConsoleFacts.
Variable G : aead.
Variable F : float_model.
Variable B : builtins.
Variable crypto : CryptoManager.t.

Local Abbreviation decrypt := (CryptoManager.decrypt G crypto).
Local Abbreviation encrypt := (CryptoManager.encrypt G crypto).
Local Abbreviation show := (show_items G F crypto).

Lemma decrypt_returns (token : pystr) : exists s, decrypt token = Returns s.
Proof.
  unfold CryptoManager.decrypt.
  destruct (CryptoManager.decrypt_try G crypto token); cbn; eauto.
Qed.

Lemma show_returns (rows : list (Z * pystr * pystr)) :
  forall total, exists listing, show rows total = Returns listing.
Proof.
  induction rows as [|[[item_id d] a] rows IH]; intros total; cbn [show_items].
  - eauto.
  - destruct (decrypt_returns d) as [desc ->].
    destruct (decrypt_returns a) as [amt ->]. cbn [obind].
    destruct (float_of_str F amt) as [x|].
    + destruct (IH (float_add F total x)) as [l ->]. cbn. eauto.
    + destruct (IH total) as [l ->]. cbn. eauto.
Qed.

(** The listing of rows followed by more rows. *)
Lemma show_app (rows more : list (Z * pystr * pystr)) :
  forall total,
    show (rows ++ more) total
    = obind (show rows total)
            (fun r => omap (fun r2 => (fst r ++ fst r2, snd r2))
                           (show more (snd r))).
Proof.
  induction rows as [|[[item_id d] a] rows IH]; intros total;
    cbn [show_items app].
  - cbn. now destruct (show more total) as [[l t]|e].
  - destruct (decrypt_returns d) as [desc ->].
    destruct (decrypt_returns a) as [amt ->]. cbn [obind].
    destruct (float_of_str F amt) as [x|]; rewrite IH.
    + destruct (show rows (float_add F total x)) as [[l t]|e]; cbn; [|reflexivity].
      now destruct (show more t) as [[l2 t2]|e].
    + destruct (show rows total) as [[l t]|e]; cbn; [|reflexivity].
      now destruct (show more t) as [[l2 t2]|e].
Qed.

(** The text of a token can be stored. *)
Lemma token_sql_text (blob : bytes) :
  Database.sql_text (map Byte.to_N (Base64.b64encode blob)) = true.
Proof.
  unfold Database.sql_text. apply forallb_forall. intros c Hc.
  apply in_map_iff in Hc as (b & <- & Hb).
  pose proof (b2a_base64_ascii blob) as Hascii. rewrite Forall_forall in Hascii.
  specialize (Hascii _ Hb). unfold Utf8.encodable, Utf8.is_surrogate.
  apply andb_true_iff. split; [apply N.ltb_lt; lia|].
  apply negb_true_iff, andb_false_iff. left. apply N.leb_gt. lia.
Qed.

(** What [encrypt] gives for a text it accepts: a token that can be
    stored and that [decrypt] turns back into the text. *)
Lemma encrypt_token (plaintext : pystr) (data : bytes) (w : world) :
  aead_correct G -> aead_tag_length G -> constructed crypto ->
  practical plaintext data ->
  exists token,
    encrypt plaintext w = (Returns token, snd (urandom 12 w))
    /\ Database.sql_text token = true
    /\ decrypt token = Returns plaintext.
Proof.
  intros Hcorrect Htag Hself Hs. eexists.
  split; [apply encrypt_returns; exact Hs|].
  split; [apply token_sql_text|].
  unfold CryptoManager.decrypt.
  rewrite decrypt_token by apply next_nonce_length.
  rewrite decrypt_sealed by (assumption || apply next_nonce_size_ok).
  cbn [obind]. destruct Hs as [Henc _].
  rewrite (decode_encode _ Henc). reflexivity.
Qed.

Lemma encrypt_unencodable (plaintext : pystr) (w : world) :
  forallb Utf8.encodable plaintext = false ->
  encrypt plaintext w = (Raises UnicodeEncodeError, snd (urandom 12 w)).
Proof.
  intros H. unfold CryptoManager.encrypt, bind, lift, urandom.
  destruct (Utf8.encode plaintext) as [data|e] eqn:Henc.
  - apply encode_returns in Henc. congruence.
  - destruct (encode_raises _ Henc) as [-> _]. reflexivity.
Qed.

End ConsoleFacts.

Section TripleFacts.
Variable F : float_model.

Local Abbreviation hoare := (@hoare F).

Lemma hoare_weaken A (P P' Q Q' : Database.t -> Prop) (m : C F A) :
  hoare P' m Q' -> (forall d, P d -> P' d) -> (forall d, Q' d -> Q d) ->
  hoare P m Q.
Proof. intros H HP HQ c Hc. apply HQ, H, HP, Hc. Qed.

Lemma hoare_reads_only A (P : Database.t -> Prop) (m : C F A) :
  reads_only m -> hoare P m P.
Proof. intros H c Hc. now rewrite H. Qed.

Lemma hoare_bind A A' (P R Q : Database.t -> Prop) (m : C F A)
      (k : A -> C F A') :
  hoare P m R -> (forall a, hoare R (k a) Q) -> (forall d, R d -> Q d) ->
  hoare P (cbind m k) Q.
Proof.
  intros Hm Hk HRQ c Hc. specialize (Hm c Hc). unfold cbind.
  destruct (m c) as [[a|f] c'] eqn:E; cbn [snd] in *.
  - now apply Hk.
  - now apply HRQ.
Qed.

Lemma hoare_except A (P R Q : Database.t -> Prop) (body handler : C F A) :
  hoare P body R -> hoare R handler Q -> (forall d, R d -> Q d) ->
  hoare P (except_ValueError body handler) Q.
Proof.
  intros Hb Hh HRQ c Hc. specialize (Hb c Hc). unfold except_ValueError.
  destruct (body c) as [[a|f] c'] eqn:E; cbn [snd] in *.
  - now apply HRQ.
  - destruct (is_ValueError f); [now apply Hh | now apply HRQ].
Qed.

Lemma hoare_rounds (P : Database.t -> Prop) (body : C F control) :
  hoare P body P -> forall n, hoare P (rounds n body) P.
Proof.
  intros Hb n. induction n as [|n IH]; cbn [rounds].
  - intros c Hc. exact Hc.
  - apply hoare_bind with (R := P); [exact Hb | | auto].
    intros [|]; [exact IH|]. intros c Hc. exact Hc.
Qed.

Lemma hoare_while_true (P : Database.t -> Prop) (body : C F control) :
  hoare P body P -> hoare P (while_true body) P.
Proof. intros Hb c Hc. unfold while_true. now apply hoare_rounds. Qed.

Lemma hoare_in_db A (P Q : Database.t -> Prop)
      (m : Database.t -> result A * Database.t) :
  (forall d, P d -> Q (snd (m d))) -> hoare P (in_db F m) Q.
Proof.
  intros H c Hc. unfold in_db. specialize (H _ Hc).
  now destruct (m (db c)).
Qed.

Lemma reads_only_cret A (a : A) : reads_only (cret F a).
Proof. intros c. reflexivity. Qed.

Lemma reads_only_craise A (f : failure) : reads_only (@craise F A f).
Proof. intros c. reflexivity. Qed.

Lemma reads_only_say (o : shown (float F)) : reads_only (say F o).
Proof. intros c. reflexivity. Qed.

Lemma reads_only_input (o : shown (float F)) : reads_only (input F o).
Proof. intros c. unfold input. now destruct (stdin c). Qed.

Lemma reads_only_in_world A (m : M A) : reads_only (in_world F m).
Proof. intros c. unfold in_world. now destruct (m (env c)) as [[a|e] w]. Qed.

Lemma reads_only_of_outcome A (o : outcome A) : reads_only (of_outcome F o).
Proof. intros c. now destruct o. Qed.

Lemma reads_only_bind A A' (m : C F A) (k : A -> C F A') :
  reads_only m -> (forall a, reads_only (k a)) -> reads_only (cbind m k).
Proof.
  intros Hm Hk c. specialize (Hm c). unfold cbind.
  destruct (m c) as [[a|f] c']; cbn [snd] in *; [|exact Hm].
  now rewrite Hk.
Qed.

Lemma reads_only_say_all (l : list (shown (float F))) :
  reads_only (say_all F l).
Proof.
  induction l as [|o l IH]; cbn [say_all].
  - apply reads_only_cret.
  - apply reads_only_bind; [apply reads_only_say | intros _; exact IH].
Qed.

End TripleFacts.

Create HintDb console.

#[local] Hint Resolve reads_only_cret reads_only_craise reads_only_say
  reads_only_input reads_only_in_world reads_only_of_outcome
  reads_only_say_all : console.

(** One step of a proof of [hoare P m Q]: a part that only reads keeps
    [P], a part that writes has to reach [Q]. *)
Ltac hoare_step :=
  match goal with
  | |- hoare _ (cbind (if ?b then _ else _) _) _ => destruct b eqn:?
  | |- hoare _ (cbind (match ?x with _ => _ end) _) _ => destruct x eqn:?
  | |- hoare ?P (cbind ?m _) ?Q =>
      first [ apply hoare_bind with (R := P);
              [apply hoare_reads_only; solve [auto with console]
              | intros ? | auto]
            | apply hoare_bind with (R := Q);
              [try apply hoare_in_db | intros ? | auto] ]
  | |- hoare ?P (except_ValueError _ _) ?Q =>
      apply hoare_except with (R := Q); [ | | auto]
  | |- hoare ?P (if ?b then _ else _) ?Q => destruct b eqn:?
  | |- hoare ?P (match ?x with _ => _ end) ?Q => destruct x eqn:?
  | |- hoare ?P _ ?Q =>
      apply hoare_weaken with (P' := P) (Q' := P);
      [apply hoare_reads_only; solve [auto with console] | auto | auto]
  end.

Section SingleBudget.
Import Database.
Variable G : aead.
Variable F : float_model.
Variable B : builtins.
Variable crypto : CryptoManager.t.

Lemma within_budget_refl (b : Z) (d : t) : consistent d -> within_budget b d d.
Proof. intros C. now split. Qed.

Lemma within_budget_trans (b : Z) (d1 d2 d3 : t) :
  within_budget b d1 d2 -> within_budget b d2 d3 -> within_budget b d1 d3.
Proof.
  intros (_ & H12 & I12) (C3 & H23 & I23). split; [exact C3|]. split.
  - congruence.
  - intros b' Hne. rewrite I23, I12; auto.
Qed.

Lemma insert_item_within (b : Z) (de ae : pystr) (d : t) :
  consistent d -> within_budget b d (snd (insert_item b de ae d)).
Proof.
  intros C. pose proof (consistent_insert_item b de ae C) as C'.
  revert C'. unfold insert_item.
  repeat match goal with
         | |- context [if ?c then _ else _] => destruct c
         end; cbn [snd]; intros C'; try now apply within_budget_refl.
  split; [exact C'|]. split; [reflexivity|].
  intros b' Hne. unfold get_items. cbn [items]. rewrite get_items_app.
  unfold BudgetDB.get_items at 2. cbn [filter BudgetDB.budget_id].
  rewrite (proj2 (Z.eqb_neq b b')) by congruence.
  cbn [map]. apply app_nil_r.
Qed.

Lemma NoDup_map_eq (A A' : Type) (f : A -> A') (l : list A) (x y : A) :
  NoDup (map f l) -> In x l -> In y l -> f x = f y -> x = y.
Proof.
  induction l as [|a l IH]; cbn [map]; intros Hnd Hx Hy Hf; [contradiction|].
  inversion Hnd as [|? ? Hnot Hnd']; subst.
  destruct Hx as [->|Hx], Hy as [->|Hy]; auto.
  - exfalso. apply Hnot. rewrite Hf. now apply in_map.
  - exfalso. apply Hnot. rewrite <- Hf. now apply in_map.
Qed.

(** An item id found in the listing of a budget belongs to no row of
    another budget. *)
Lemma listed_item_owned (d : t) (b item_id : Z) :
  consistent d ->
  existsb (fun i : Z * pystr * pystr => (fst (fst i) =? item_id)%Z)
          (get_items d b) = true ->
  forall r, In r (items d) -> BudgetDB.id r = item_id ->
            BudgetDB.budget_id r = b.
Proof.
  intros C Hex r Hr Hid.
  apply existsb_exists in Hex as (row & Hrow & Hi).
  unfold get_items, BudgetDB.get_items in Hrow.
  apply in_map_iff in Hrow as (r0 & <- & Hr0).
  apply filter_In in Hr0 as [Hr0 Hb]. cbn [fst] in Hi.
  apply Z.eqb_eq in Hi, Hb.
  assert (r = r0); [|now subst].
  apply (@NoDup_map_eq _ _ BudgetDB.id (items d)); auto; [|congruence].
  apply StronglySorted_NoDup. exact (items_sorted C).
Qed.

Lemma get_items_update_other (item_id b' : Z) (de ae : pystr) (l : BudgetDB.t) :
  (forall r, In r l -> BudgetDB.id r = item_id -> BudgetDB.budget_id r <> b') ->
  BudgetDB.get_items
    (map (fun r => if (BudgetDB.id r =? item_id)%Z
                   then {| BudgetDB.id := BudgetDB.id r;
                           BudgetDB.budget_id := BudgetDB.budget_id r;
                           BudgetDB.description := de;
                           BudgetDB.amount := ae |}
                   else r) l) b'
  = BudgetDB.get_items l b'.
Proof.
  unfold BudgetDB.get_items. induction l as [|r l IH]; intros H; [reflexivity|].
  cbn [map filter].
  assert (IH' := IH (fun r0 Hr0 => H r0 (or_intror Hr0))).
  destruct (Z.eqb_spec (BudgetDB.id r) item_id) as [Hid|Hid].
  - cbn [BudgetDB.budget_id].
    rewrite (proj2 (Z.eqb_neq _ _) (H r (or_introl eq_refl) Hid)). exact IH'.
  - destruct (BudgetDB.budget_id r =? b')%Z; cbn [map]; now rewrite IH'.
Qed.

Lemma get_items_delete_other (item_id b' : Z) (l : BudgetDB.t) :
  (forall r, In r l -> BudgetDB.id r = item_id -> BudgetDB.budget_id r <> b') ->
  BudgetDB.get_items
    (filter (fun r => negb (BudgetDB.id r =? item_id)%Z) l) b'
  = BudgetDB.get_items l b'.
Proof.
  unfold BudgetDB.get_items. induction l as [|r l IH]; intros H; [reflexivity|].
  cbn [map filter].
  assert (IH' := IH (fun r0 Hr0 => H r0 (or_intror Hr0))).
  destruct (Z.eqb_spec (BudgetDB.id r) item_id) as [Hid|Hid]; cbn [negb].
  - rewrite (proj2 (Z.eqb_neq _ _) (H r (or_introl eq_refl) Hid)). exact IH'.
  - cbn [filter].
    destruct (BudgetDB.budget_id r =? b')%Z; cbn [map]; now rewrite IH'.
Qed.

Lemma update_item_within (b item_id : Z) (de ae : pystr) (d : t) :
  consistent d ->
  existsb (fun i : Z * pystr * pystr => (fst (fst i) =? item_id)%Z)
          (get_items d b) = true ->
  within_budget b d (snd (update_item_row item_id de ae d)).
Proof.
  intros C Hex. pose proof (consistent_update_item_row item_id de ae C) as C'.
  revert C'. unfold update_item_row.
  repeat match goal with
         | |- context [if ?c then _ else _] => destruct c
         end; cbn [snd]; intros C'; try now apply within_budget_refl.
  split; [exact C'|]. split; [reflexivity|].
  intros b' Hne. unfold get_items. cbn [items].
  apply get_items_update_other. intros r Hr Hid Hb.
  apply Hne. rewrite <- Hb.
  now apply (@listed_item_owned d b item_id C Hex).
Qed.

Lemma delete_item_within (b item_id : Z) (d : t) :
  consistent d ->
  existsb (fun i : Z * pystr * pystr => (fst (fst i) =? item_id)%Z)
          (get_items d b) = true ->
  within_budget b d (snd (delete_item_row item_id d)).
Proof.
  intros C Hex. pose proof (consistent_delete_item_row item_id C) as C'.
  revert C'. unfold delete_item_row.
  repeat match goal with
         | |- context [if ?c then _ else _] => destruct c
         end; cbn [snd]; intros C'; try now apply within_budget_refl.
  split; [exact C'|]. split; [reflexivity|].
  intros b' Hne. unfold get_items. cbn [items].
  apply get_items_delete_other. intros r Hr Hid Hb.
  apply Hne. rewrite <- Hb.
  now apply (@listed_item_owned d b item_id C Hex).
Qed.

Lemma item_command_within (b : Z) (d1 : t) (cmd : list pystr) :
  consistent d1 ->
  hoare (eq d1) (item_command G F B crypto b (get_items d1 b) cmd)
        (within_budget b d1).
Proof.
  intros C.
  assert (HPQ : forall d, d1 = d -> within_budget b d1 d)
    by (intros d <-; now apply within_budget_refl).
  unfold item_command. repeat hoare_step; intros d <-;
    first [ apply insert_item_within
          | apply update_item_within
          | apply delete_item_within ];
    try exact C; now apply negb_false_iff.
Qed.

Lemma hoare_select_items A (b : Z) (d1 : t) (Q : t -> Prop)
      (k : list (Z * pystr * pystr) -> C F A) :
  hoare (eq d1) (k (get_items d1 b)) Q -> Q d1 ->
  hoare (eq d1) (cbind (in_db F (select_items b)) k) Q.
Proof.
  intros Hk HQ c Hc. subst d1. unfold cbind, in_db, select_items.
  destruct (sql_integer b); cbn [negb snd db]; [|exact HQ].
  now apply Hk.
Qed.

Lemma manage_single_budget_round_within (b : Z) (name : pystr) (d1 : t) :
  consistent d1 ->
  hoare (eq d1) (manage_single_budget_round G F B crypto b name)
        (within_budget b d1).
Proof.
  intros C.
  assert (HPQ : forall d, d1 = d -> within_budget b d1 d)
    by (intros d <-; now apply within_budget_refl).
  unfold manage_single_budget_round. hoare_step.
  apply hoare_select_items; [|now apply within_budget_refl].
  do 8 hoare_step. now apply item_command_within.
Qed.

Lemma manage_single_budget_within (b : Z) (name : pystr) (d0 : t) :
  hoare (within_budget b d0) (manage_single_budget G F B crypto b name)
        (within_budget b d0).
Proof.
  apply hoare_while_true. intros c Hc.
  apply within_budget_trans with (d2 := db c); [exact Hc|].
  apply (@manage_single_budget_round_within b name (db c));
    [apply Hc | reflexivity].
Qed.

(** X15: whatever is typed while a budget is open, and however the
    session ends, the budgets and the items of every other budget are as
    before, and the schema's invariants still hold. *)
Theorem manage_single_budget_frame (b : Z) (name : pystr)
        (c : console (float F)) :
  consistent (db c) ->
  within_budget b (db c)
                (db (snd (manage_single_budget G F B crypto b name c))).
Proof.
  intros C. apply manage_single_budget_within.
  now apply within_budget_refl.
Qed.

End SingleBudget.

Section Session.
Import Database.
Variable G : aead.
Variable F : float_model.
Variable B : builtins.

Lemma manage_single_budget_consistent (crypto : CryptoManager.t) (b : Z)
      (name : pystr) :
  hoare consistent (manage_single_budget G F B crypto b name) consistent.
Proof.
  intros c Hc.
  apply (@manage_single_budget_within G F B crypto b name (db c)).
  now apply within_budget_refl.
Qed.

Lemma budget_command_consistent (crypto : CryptoManager.t)
      (budgets : list (Z * pystr)) (cmd : list pystr) :
  hoare consistent (budget_command G F B crypto budgets cmd) consistent.
Proof.
  unfold budget_command. repeat hoare_step;
    try apply manage_single_budget_consistent; intros d Hd;
    unfold update_budget_name, delete_budget; rewrite ?snd_catch_integrity;
    first [ now apply consistent_update_budget
          | now apply consistent_delete_budget_row ].
Qed.

Lemma manage_budgets_menu_consistent (crypto : CryptoManager.t) :
  hoare consistent (manage_budgets_menu G F B crypto) consistent.
Proof.
  apply hoare_while_true. unfold manage_budgets_menu_round.
  apply hoare_bind with (R := consistent); [|intros budgets|auto].
  - apply hoare_in_db. auto.
  - destruct budgets as [|b0 budgets]; repeat hoare_step.
    apply budget_command_consistent.
Qed.

Lemma main_round_consistent (crypto : CryptoManager.t) :
  hoare consistent (main_round G F B crypto) consistent.
Proof.
  unfold main_round. repeat hoare_step;
    try apply manage_budgets_menu_consistent.
  intros d Hd. unfold create_budget. rewrite snd_catch_integrity.
  now apply consistent_insert_budget.
Qed.

(** X16: whatever is typed, and however the program ends, the database
    it leaves satisfies the schema's invariants if the one it found
    did. *)
Theorem main_keeps_consistent (c : console (float F)) :
  consistent (db c) -> consistent (db (snd (main G F B c))).
Proof.
  revert c. change (hoare consistent (main G F B) consistent).
  unfold main. hoare_step.
  apply hoare_while_true, main_round_consistent.
Qed.

End Session.

Section Progress.
Variable F : float_model.

Local Abbreviation calm := (@calm F).
Local Abbreviation strict := (@strict F).

Lemma calm_cret A (a : A) : calm (cret F a).
Proof. intros c. cbn. split; [lia | discriminate]. Qed.

Lemma calm_craise_Py A (e : exn) : calm (@craise F A (Py e)).
Proof. intros c. cbn. split; [lia | discriminate]. Qed.

Lemma calm_say (o : shown (float F)) : calm (say F o).
Proof. intros c. cbn. split; [lia | discriminate]. Qed.

Lemma strict_input (o : shown (float F)) : strict (input F o).
Proof.
  intros c. unfold input. destruct (stdin c); cbn; split;
    try discriminate; lia.
Qed.

Lemma strict_calm A (m : C F A) : strict m -> calm m.
Proof.
  intros H c. destruct (H c) as [Hf Hl]. split; [|exact Hf].
  destruct (fst (m c)); lia.
Qed.

Lemma calm_input (o : shown (float F)) : calm (input F o).
Proof. apply strict_calm, strict_input. Qed.

Lemma calm_in_world A (m : M A) : calm (in_world F m).
Proof.
  intros c. unfold in_world. destruct (m (env c)) as [[a|e] w]; cbn;
    split; try discriminate; lia.
Qed.

Lemma calm_of_outcome A (o : outcome A) : calm (of_outcome F o).
Proof. destruct o; [apply calm_cret | apply calm_craise_Py]. Qed.

Lemma calm_in_db A (m : Database.t -> result A * Database.t) :
  (forall d, fst (m d) <> Failed Unfinished) -> calm (in_db F m).
Proof.
  intros H c. unfold in_db. specialize (H (db c)).
  destruct (m (db c)) as [r d]. cbn in *. split; [lia | exact H].
Qed.

Lemma calm_bind A A' (m : C F A) (k : A -> C F A') :
  calm m -> (forall a, calm (k a)) -> calm (cbind m k).
Proof.
  intros Hm Hk c. destruct (Hm c) as [Hl Hf]. unfold cbind.
  destruct (m c) as [[a|f] c'] eqn:E; cbn [fst snd] in *.
  - destruct (Hk a c') as [Hl' Hf']. split; [lia | exact Hf'].
  - split; [lia | congruence].
Qed.

Lemma strict_bind_l A A' (m : C F A) (k : A -> C F A') :
  strict m -> (forall a, calm (k a)) -> strict (cbind m k).
Proof.
  intros Hm Hk c. destruct (Hm c) as [Hf Hl]. unfold cbind.
  destruct (m c) as [[a|f] c'] eqn:E; cbn [fst snd] in *.
  - destruct (Hk a c') as [Hl' Hf']. split; [exact Hf'|].
    destruct (fst (k a c')); lia.
  - split; [congruence | lia].
Qed.

Lemma strict_bind_r A A' (m : C F A) (k : A -> C F A') :
  calm m -> (forall a, strict (k a)) -> strict (cbind m k).
Proof.
  intros Hm Hk c. destruct (Hm c) as [Hl Hf]. unfold cbind.
  destruct (m c) as [[a|f] c'] eqn:E; cbn [fst snd] in *.
  - destruct (Hk a c') as [Hf' Hl']. split; [exact Hf'|].
    destruct (fst (k a c')); lia.
  - split; [congruence | lia].
Qed.

Lemma calm_except A (body handler : C F A) :
  calm body -> calm handler -> calm (except_ValueError body handler).
Proof.
  intros Hb Hh c. destruct (Hb c) as [Hl Hf]. unfold except_ValueError.
  destruct (body c) as [[a|f] c'] eqn:E; cbn [fst snd] in *.
  - split; [lia | discriminate].
  - destruct (is_ValueError f); cbn [fst snd].
    + destruct (Hh c') as [Hl' Hf']. split; [lia | exact Hf'].
    + split; [lia | exact Hf].
Qed.

Lemma calm_say_all (l : list (shown (float F))) : calm (say_all F l).
Proof.
  induction l as [|o l IH]; cbn [say_all].
  - apply calm_cret.
  - apply calm_bind; [apply calm_say | intros _; exact IH].
Qed.

Lemma advances_strict (m : C F control) : strict m -> advances m.
Proof.
  intros H c. destruct (H c) as [Hf Hl]. split; [exact Hf|].
  destruct (fst (m c)) as [[|]|f]; lia.
Qed.

Lemma advances_bind_r A (m : C F A) (k : A -> C F control) :
  calm m -> (forall a, advances (k a)) -> advances (cbind m k).
Proof.
  intros Hm Hk c. destruct (Hm c) as [Hl Hf]. unfold cbind.
  destruct (m c) as [[a|f] c'] eqn:E; cbn [fst snd] in *.
  - destruct (Hk a c') as [Hf' Hl']. split; [exact Hf'|].
    destruct (fst (k a c')) as [[|]|f]; lia.
  - split; [congruence | lia].
Qed.

(** A loop whose body advances has rounds enough. *)
Lemma rounds_calm (body : C F control) :
  advances body ->
  forall n c, (length (stdin c) < n)%nat ->
    (length (stdin (snd (rounds n body c))) <= length (stdin c))%nat
    /\ fst (rounds n body c) <> Failed Unfinished.
Proof.
  intros Hb n. induction n as [|n IH]; intros c Hn; [lia|].
  cbn [rounds]. unfold cbind. destruct (Hb c) as [Hf Hl].
  destruct (body c) as [[[|]|f] c'] eqn:E; cbn [fst snd] in *.
  - destruct (IH c') as [Hl' Hf']; [lia|]. split; [lia | exact Hf'].
  - unfold cret. cbn [fst snd]. split; [lia | discriminate].
  - split; [lia | congruence].
Qed.

Lemma calm_while_true (body : C F control) :
  advances body -> calm (while_true body).
Proof. intros Hb c. unfold while_true. apply rounds_calm; [exact Hb | lia]. Qed.

(** A loop returns only when its body breaks. *)
Lemma rounds_returns (body : C F control) (n : nat) :
  forall c c',
    rounds n body c = (Done tt, c') ->
    exists c1, body c1 = (Done Break, c').
Proof.
  induction n as [|n IH]; intros c c' H; [discriminate|].
  cbn [rounds] in H. unfold cbind in H.
  destruct (body c) as [[[|]|f] c1] eqn:E.
  - now apply IH in H.
  - inversion H. subst. now exists c.
  - discriminate.
Qed.

End Progress.

#[local] Hint Resolve calm_cret calm_craise_Py calm_say calm_input
  calm_in_world calm_of_outcome calm_say_all : console.

Ltac calm_step :=
  match goal with
  | |- calm (cbind _ _) => apply calm_bind; [ | intros ?]
  | |- calm (except_ValueError _ _) => apply calm_except
  | |- calm (if ?b then _ else _) => destruct b eqn:?
  | |- calm (match ?x with _ => _ end) => destruct x eqn:?
  | |- calm (in_db _ _) => apply calm_in_db; intros ?
  | |- calm _ => solve [auto with console]
  end.

Section Stops.
Import Database.
Variable G : aead.
Variable F : float_model.
Variable B : builtins.
Variable crypto : CryptoManager.t.

Lemma catch_integrity_finished (r : result unit * t) :
  fst r <> Failed Unfinished -> fst (catch_integrity r) <> Failed Unfinished.
Proof. destruct r as [[[]|[]] d]; cbn; congruence. Qed.

Ltac finished :=
  repeat match goal with
         | |- context [if ?c then _ else _] => destruct c
         end; cbn [fst]; discriminate.

Lemma item_command_calm (b : Z) (items : list (Z * pystr * pystr))
      (cmd : list pystr) :
  calm (item_command G F B crypto b items cmd).
Proof.
  unfold item_command. repeat calm_step;
    unfold add_item, insert_item, update_item, update_item_row, delete_item,
      delete_item_row; finished.
Qed.

Lemma manage_single_budget_round_strict (b : Z) (name : pystr) :
  strict (manage_single_budget_round G F B crypto b name).
Proof.
  unfold manage_single_budget_round.
  apply strict_bind_r; [auto with console | intros _].
  apply strict_bind_r; [|intros items].
  { apply calm_in_db. intros d. unfold select_items. finished. }
  do 2 (apply strict_bind_r; [auto with console | intros _]).
  apply strict_bind_r; [auto with console | intros listing].
  do 4 (apply strict_bind_r; [auto with console | intros _]).
  apply strict_bind_l; [apply strict_input | intros text].
  apply item_command_calm.
Qed.

Lemma manage_single_budget_calm (b : Z) (name : pystr) :
  calm (manage_single_budget G F B crypto b name).
Proof.
  apply calm_while_true, advances_strict, manage_single_budget_round_strict.
Qed.

Lemma budget_command_calm (budgets : list (Z * pystr)) (cmd : list pystr) :
  calm (budget_command G F B crypto budgets cmd).
Proof.
  unfold budget_command. repeat calm_step;
    try apply manage_single_budget_calm;
    unfold update_budget_name, delete_budget;
    try apply catch_integrity_finished;
    unfold update_budget, delete_budget_row; finished.
Qed.

Lemma manage_budgets_menu_round_advances :
  advances (manage_budgets_menu_round G F B crypto).
Proof.
  unfold manage_budgets_menu_round.
  apply advances_bind_r; [|intros [|b0 rest]].
  - apply calm_in_db. intros d. discriminate.
  - intros c. unfold cbind, say, cret. cbn. split; [discriminate | lia].
  - apply advances_strict.
    do 4 (apply strict_bind_r; [auto with console | intros _]).
    apply strict_bind_l; [apply strict_input | intros text].
    apply budget_command_calm.
Qed.

Lemma manage_budgets_menu_calm : calm (manage_budgets_menu G F B crypto).
Proof. apply calm_while_true, manage_budgets_menu_round_advances. Qed.

Lemma main_round_strict : strict (main_round G F B crypto).
Proof.
  unfold main_round.
  do 4 (apply strict_bind_r; [auto with console | intros _]).
  apply strict_bind_l; [apply strict_input | intros choice].
  repeat calm_step; try apply manage_budgets_menu_calm.
  unfold create_budget. apply catch_integrity_finished.
  unfold insert_budget. finished.
Qed.

Lemma main_round_breaks (c c' : console (float F)) :
  main_round G F B crypto c = (Done Break, c') ->
  exists earlier, screen c' = Say (lit "Goodbye.") :: earlier.
Proof.
  destruct c as [w d [|choice rest] scr];
    cbv beta iota delta [main_round cbind say input cret in_db
                         env db stdin screen]; [discriminate|].
  destruct (str_eqb choice (lit "1")).
  - destruct rest as [|name rest]; [discriminate|].
    destruct (create_budget name d) as [[[|]|f] d']; discriminate.
  - destruct (str_eqb choice (lit "2")).
    + destruct (manage_budgets_menu _ _ _ _ _) as [[[]|f] c1]; discriminate.
    + destruct (str_eqb choice (lit "3")); [|discriminate].
      intros H. inversion H. cbn [screen]. eauto.
Qed.

End Stops.

Section MainStops.
Variable G : aead.
Variable F : float_model.
Variable B : builtins.

(** X17: on any input of finitely many lines [main] comes to an end: it
    returns, and then the last thing on the screen is the farewell, or
    it raises an exception of Python; no loop goes round without
    reading a line. *)
Theorem main_stops (c : console (float F)) :
  fst (main G F B c) <> Failed Unfinished
  /\ forall c', main G F B c = (Done tt, c') ->
                exists earlier, screen c' = Say (lit "Goodbye.") :: earlier.
Proof.
  split.
  - assert (H : calm (main G F B)); [|apply H].
    unfold main. apply calm_bind; [auto with console | intros crypto].
    apply calm_while_true, advances_strict, main_round_strict.
  - intros c' H. unfold main, cbind in H.
    destruct (in_world F CryptoManager.__init__ c) as [[crypto|f] c0];
      [|discriminate].
    unfold while_true in H. apply rounds_returns in H as (c1 & H).
    now apply main_round_breaks in H.
Qed.

End MainStops.

Section Commands.
Import Database.
Variable G : aead.
Variable F : float_model.
Variable B : builtins.
Variable crypto : CryptoManager.t.

Local Abbreviation show := (show_items G F crypto).

Lemma insert_item_done (b : Z) (de ae : pystr) (d : t) :
  consistent d -> In b (budget_ids d) ->
  sql_text de = true -> sql_text ae = true ->
  (items_seq d < MAX_ROWID)%Z ->
  insert_item b de ae d
  = (Done tt,
     {| budgets := budgets d; budgets_seq := budgets_seq d;
        items := items d
                   ++ [ {| BudgetDB.id := (items_seq d + 1)%Z;
                           BudgetDB.budget_id := b;
                           BudgetDB.description := de;
                           BudgetDB.amount := ae |} ];
        items_seq := (items_seq d + 1)%Z |}).
Proof.
  intros C Hb Hd Ha Hroom.
  assert (Hint : sql_integer b = true).
  { pose proof (budget_ids_seen C) as Hseen. rewrite Forall_forall in Hseen.
    apply (seen_sql_integer (Hseen _ Hb)). apply (seqs_in_range C). }
  pose proof (next_rowid_seen (proj1 (proj2 (seqs_in_range C)))
                              (item_ids_seen C)) as Hnext.
  unfold insert_item.
  rewrite Hint, Hd, Ha, Hnext, (proj2 (has_budget_In d b) Hb).
  cbn [negb andb].
  replace (MAX_ROWID <? items_seq d + 1)%Z with false
    by (symmetry; apply Z.ltb_ge; lia).
  reflexivity.
Qed.

(** X18: the command [A] with a description and an amount that can be
    encrypted stores one item in the open budget; the next listing shows
    the lines it showed before and then the new item with the description
    as typed, and counts its amount if it is a number. *)
Theorem add_command_lists_item
        (b : Z) (items : list (Z * pystr * pystr)) (word : pystr)
        (args : list pystr) (desc amt : pystr) (data_d data_a : bytes)
        (rest : list pystr) (c : console (float F)) :
  aead_correct G -> aead_tag_length G -> constructed crypto ->
  consistent (db c) -> In b (budget_ids (db c)) ->
  (items_seq (db c) < MAX_ROWID)%Z ->
  upper B word = lit "A" ->
  stdin c = desc :: amt :: rest ->
  practical desc data_d -> practical amt data_a ->
  exists c',
    item_command G F B crypto b items (word :: args) c = (Done Continue, c')
    /\ stdin c' = rest
    /\ get_budgets (db c') = get_budgets (db c)
    /\ forall lines total,
         show (get_items (db c) b) (float_zero F) = Returns (lines, total) ->
         show (get_items (db c') b) (float_zero F)
         = Returns (lines ++ [plain_line F ((items_seq (db c) + 1)%Z, desc, amt)],
                    match float_of_str F amt with
                    | Some x => float_add F total x
                    | None => total
                    end).
Proof.
  intros Hcorrect Htag Hself C Hb Hroom Hword Hin Hd Ha.
  destruct c as [w d inp scr]. cbn [db stdin] in *. subst inp.
  destruct (@encrypt_token G crypto desc data_d w Hcorrect Htag Hself Hd)
    as (de & Hde & Hde_text & Hde_dec).
  destruct (@encrypt_token G crypto amt data_a (snd (urandom 12 w))
                           Hcorrect Htag Hself Ha)
    as (ae & Hae & Hae_text & Hae_dec).
  unfold item_command. rewrite Hword.
  change (str_eqb (lit "A") (lit "B")) with false.
  change (str_eqb (lit "A") (lit "A")) with true.
  cbv beta iota delta [cbind input in_world in_db cret env db stdin screen].
  rewrite Hde. cbv beta iota. rewrite Hae. cbv beta iota.
  unfold add_item. rewrite (@insert_item_done b de ae d C Hb Hde_text Hae_text Hroom).
  eexists. split; [reflexivity|]. cbn [stdin db get_budgets budgets].
  split; [reflexivity|]. split; [reflexivity|].
  intros lines total Hshow. unfold get_items. cbn [Database.items].
  rewrite get_items_app, show_app. unfold get_items in Hshow.
  rewrite Hshow. cbn [obind fst snd].
  unfold BudgetDB.get_items at 1.
  cbn [filter BudgetDB.budget_id BudgetDB.id BudgetDB.description
       BudgetDB.amount map]. rewrite Z.eqb_refl. cbn [map show_items].
  cbn [BudgetDB.id BudgetDB.description BudgetDB.amount].
  rewrite Hde_dec, Hae_dec. cbn [obind plain_line].
  now destruct (float_of_str F amt).
Qed.

(** X19: the command [E] with a text that has no UTF-8 encoding (an
    unpaired surrogate, which [input] gives for a byte it cannot decode)
    changes nothing in the database: the [UnicodeEncodeError] of
    [encrypt] is a [ValueError], and the handler meant for a bad item id
    answers it. *)
Theorem edit_command_unencodable
        (b item_id : Z) (items : list (Z * pystr * pystr)) (word arg : pystr)
        (args : list pystr) (new_desc new_amt : pystr)
        (rest : list pystr) (c : console (float F)) :
  upper B word = lit "E" ->
  int_of_str B arg = Some item_id ->
  existsb (fun i : Z * pystr * pystr => (fst (fst i) =? item_id)%Z) items
  = true ->
  stdin c = new_desc :: new_amt :: rest ->
  forallb Utf8.encodable new_desc = false
  \/ ((exists data, practical new_desc data)
      /\ forallb Utf8.encodable new_amt = false) ->
  exists c',
    item_command G F B crypto b items (word :: arg :: args) c
    = (Done Continue, c')
    /\ db c' = db c
    /\ stdin c' = rest
    /\ screen c'
       = Say (lit "Invalid ID format.") :: Ask (lit "New Amount: ")
           :: Ask (lit "New Description: ") :: screen c.
Proof.
  intros Hword Harg Hex Hin Hbad.
  destruct c as [w d inp scr]. cbn [db stdin screen] in *. subst inp.
  unfold item_command. rewrite Hword, Harg.
  change (str_eqb (lit "E") (lit "B")) with false.
  change (str_eqb (lit "E") (lit "A")) with false.
  change (str_eqb (lit "E") (lit "E")) with true.
  cbv beta iota delta [cbind input in_world in_db cret say except_ValueError
                       orb env db stdin screen].
  rewrite Hex.
  cbv beta iota delta [cbind input in_world in_db cret say except_ValueError
                       negb env db stdin screen].
  destruct Hbad as [Hbad | [[data Hd] Hbad]].
  - rewrite (encrypt_unencodable G crypto _ w Hbad).
    cbv beta iota delta [is_ValueError].
    eexists. split; [reflexivity|]. cbn [db stdin screen]. auto.
  - rewrite (encrypt_returns G crypto w Hd). cbv beta iota.
    rewrite (encrypt_unencodable G crypto _ _ Hbad).
    cbv beta iota delta [is_ValueError].
    eexists. split; [reflexivity|]. cbn [db stdin screen]. auto.
Qed.

End Commands.

Section Running.
Variable F : float_model.

Lemma cbind_run A A' (m : C F A) (k : A -> C F A') (c c' : console (float F))
      (a : A) :
  m c = (Done a, c') -> cbind m k c = k a c'.
Proof. intros H. unfold cbind. now rewrite H. Qed.

Lemma cbind_fail A A' (m : C F A) (k : A -> C F A') (c c' : console (float F))
      (f : failure) :
  m c = (Failed f, c') -> cbind m k c = (Failed f, c').
Proof. intros H. unfold cbind. now rewrite H. Qed.

Lemma say_all_run (l : list (shown (float F))) :
  forall c,
    say_all F l c
    = (Done tt,
       {| env := env c; db := db c; stdin := stdin c;
          screen := rev l ++ screen c |}).
Proof.
  induction l as [|o l IH]; intros c; cbn [say_all rev app].
  - now destruct c.
  - unfold cbind, say. rewrite IH. cbn [env db stdin screen].
    now rewrite <- app_assoc.
Qed.

End Running.

Ltac run_done tac :=
  erewrite cbind_run; [ | tac ]; cbv beta; cbn [env db stdin screen].

Ltac run_fail tac :=
  erewrite cbind_fail; [ | tac ]; cbv beta; cbn [env db stdin screen].

Section Menu.
Import Database.
Variable G : aead.
Variable F : float_model.
Variable B : builtins.
Variable crypto : CryptoManager.t.

Lemma found_sql_integer (d : t) (b : Z) (selected : Z * pystr) :
  consistent d ->
  find (fun x : Z * pystr => (fst x =? b)%Z) (get_budgets d) = Some selected ->
  sql_integer b = true /\ In b (budget_ids d).
Proof.
  intros C Hfind. apply find_some in Hfind as [Hin Hb].
  apply Z.eqb_eq in Hb. subst b.
  assert (Hid : In (fst selected) (budget_ids d)) by now apply in_map.
  split; [|exact Hid].
  pose proof (budget_ids_seen C) as Hseen. rewrite Forall_forall in Hseen.
  apply (seen_sql_integer (Hseen _ Hid)). apply (seqs_in_range C).
Qed.

(** A round of an open budget in which [A] is typed with a description
    that cannot be encoded. *)
Lemma round_add_unencodable (b : Z) (name text word : pystr)
      (args : list pystr) (desc amt : pystr) (rest : list pystr)
      (c : console (float F)) :
  sql_integer b = true ->
  stdin c = text :: desc :: amt :: rest ->
  str_split text = word :: args ->
  upper B word = lit "A" ->
  forallb Utf8.encodable desc = false ->
  exists c',
    manage_single_budget_round G F B crypto b name c
    = (Failed (Py UnicodeEncodeError), c')
    /\ db c' = db c /\ stdin c' = rest.
Proof.
  intros Hb Hin Hsplit Hword Hbad.
  destruct c as [w d inp scr]. cbn [db stdin] in *. subst inp.
  destruct (show_returns G F crypto (get_items d b) (float_zero F))
    as [listing Hshow].
  unfold manage_single_budget_round.
  run_done reflexivity.
  run_done ltac:(unfold in_db, select_items; cbn [db]; rewrite Hb; reflexivity).
  do 2 run_done reflexivity.
  run_done ltac:(rewrite Hshow; reflexivity).
  run_done ltac:(apply say_all_run).
  do 4 run_done reflexivity.
  rewrite Hsplit. unfold item_command. rewrite Hword.
  change (str_eqb (lit "A") (lit "B")) with false.
  change (str_eqb (lit "A") (lit "A")) with true.
  cbv beta iota.
  do 2 run_done reflexivity.
  run_fail ltac:(unfold in_world; cbn [env];
                 rewrite (encrypt_unencodable G crypto _ _ Hbad); reflexivity).
  eexists. split; [reflexivity|]. cbn [db stdin]. auto.
Qed.

(** X20: in an open budget, the command [A] with a description that has
    no UTF-8 encoding stores nothing and closes the budget: the
    [UnicodeEncodeError] of [encrypt] leaves [manage_single_budget], both
    lines typed are used up, and the handler of [manage_budgets_menu]
    answers it. *)
Theorem add_unencodable_closes_budget
        (b : Z) (selected : Z * pystr) (open arg : pystr) (more : list pystr)
        (text word : pystr) (args : list pystr) (desc amt : pystr)
        (rest : list pystr) (c : console (float F)) :
  consistent (db c) ->
  upper B open = lit "O" ->
  int_of_str B arg = Some b ->
  find (fun x : Z * pystr => (fst x =? b)%Z) (get_budgets (db c))
  = Some selected ->
  stdin c = text :: desc :: amt :: rest ->
  str_split text = word :: args ->
  upper B word = lit "A" ->
  forallb Utf8.encodable desc = false ->
  exists c',
    budget_command G F B crypto (get_budgets (db c)) (open :: arg :: more) c
    = (Done Continue, c')
    /\ db c' = db c
    /\ stdin c' = rest
    /\ exists earlier, screen c' = Say (lit "Invalid input.") :: earlier.
Proof.
  intros C Hopen Harg Hfind Hin Hsplit Hword Hbad.
  destruct (found_sql_integer _ C Hfind) as [Hb _].
  destruct (@round_add_unencodable b (snd selected) text word args desc amt
                                   rest c Hb Hin Hsplit Hword Hbad)
    as (c1 & Hround & Hdb & Hrest).
  unfold budget_command. rewrite Hopen, Harg.
  change (str_eqb (lit "O") (lit "B")) with false.
  change (str_eqb (lit "O") (lit "O")) with true.
  cbv beta iota. unfold except_ValueError.
  erewrite cbind_run; [|reflexivity]. cbv beta. rewrite Hfind.
  erewrite cbind_fail.
  2:{ unfold manage_single_budget, while_true. rewrite Hin.
      cbn [length rounds]. erewrite cbind_fail; [reflexivity | exact Hround]. }
  cbv beta iota delta [is_ValueError cbind say cret].
  eexists. split; [reflexivity|]. cbn [db stdin screen]. eauto.
Qed.

(** X21: the command [D] deletes the budget, with its items, when the
    answer to the question is [y] in either case, and changes nothing
    on any other answer. *)
Theorem delete_command_asks
        (b : Z) (selected : Z * pystr) (word arg : pystr) (more : list pystr)
        (confirm : pystr) (rest : list pystr) (c : console (float F)) :
  consistent (db c) ->
  upper B word = lit "D" ->
  int_of_str B arg = Some b ->
  find (fun x : Z * pystr => (fst x =? b)%Z) (get_budgets (db c))
  = Some selected ->
  stdin c = confirm :: rest ->
  exists c',
    budget_command G F B crypto (get_budgets (db c)) (word :: arg :: more) c
    = (Done Continue, c')
    /\ stdin c' = rest
    /\ if str_eqb (lower B confirm) (lit "y")
       then db c' = after (DeleteBudget b) (db c)
            /\ ~ In b (budget_ids (db c'))
            /\ screen c'
               = Say (lit "Budget deleted.") :: AskDelete (snd selected)
                   :: screen c
       else db c' = db c
            /\ screen c' = AskDelete (snd selected) :: screen c.
Proof.
  intros C Hword Harg Hfind Hin.
  destruct (found_sql_integer _ C Hfind) as [Hb Hid].
  destruct c as [w d inp scr]. cbn [db stdin screen] in *. subst inp.
  unfold budget_command. rewrite Hword, Harg.
  change (str_eqb (lit "D") (lit "B")) with false.
  change (str_eqb (lit "D") (lit "O")) with false.
  change (str_eqb (lit "D") (lit "R")) with false.
  change (str_eqb (lit "D") (lit "D")) with true.
  cbv beta iota. unfold except_ValueError.
  erewrite cbind_run; [|reflexivity]. cbv beta. rewrite Hfind.
  cbv beta iota delta [cbind input env db stdin screen].
  destruct (str_eqb (lower B confirm) (lit "y")).
  - cbv beta iota delta [cbind in_db say cret env db stdin screen after
                         delete_budget].
    unfold delete_budget_row. rewrite Hb, (proj2 (has_budget_In d b) Hid).
    cbn [negb snd].
    eexists. split; [reflexivity|]. cbn [db stdin screen].
    split; [reflexivity|]. split; [reflexivity|]. split; [|reflexivity].
    unfold budget_ids. cbn [budgets]. rewrite filter_ids.
    intros Hfiltered. apply filter_In in Hfiltered as [_ Hne].
    rewrite Z.eqb_refl in Hne. discriminate.
  - cbv beta iota delta [cret].
    eexists. split; [reflexivity|]. cbn [db stdin screen]. auto.
Qed.

End Menu.

(** * Runs of the console on the sample database *)

Section ConsoleRuns.
Import Database.

Local Abbreviation run_item_command :=
  (item_command Sample.cipher Sample.whole Household.ascii Sample.manager).
Local Abbreviation run_budget_command :=
  (budget_command Sample.cipher Sample.whole Household.ascii Sample.manager).

Lemma practical_bread : practical (lit "Bread") (list_byte_of_string "Bread").
Proof. split; [reflexivity | vm_compute; discriminate]. Qed.

Lemma practical_four : practical (lit "4") (list_byte_of_string "4").
Proof. split; [reflexivity | vm_compute; discriminate]. Qed.

Lemma typing_consistent (lines : list pystr) :
  consistent (db (Household.typing lines)).
Proof. exact household_consistent. Qed.

(** A session on the first budget: an item is added, one is deleted, and
    the budget is left. *)
Lemma manage_single_budget_frame_household :
  within_budget 1
    (db (Household.typing [lit "a"; lit "Bread"; lit "4"; lit "d 1"; lit "b"]))
    (db (snd (manage_single_budget
                Sample.cipher Sample.whole Household.ascii Sample.manager
                1 (lit "Groceries")
                (Household.typing
                   [lit "a"; lit "Bread"; lit "4"; lit "d 1"; lit "b"])))).
Proof.
  apply (@manage_single_budget_frame
           Sample.cipher Sample.whole Household.ascii Sample.manager
           1 (lit "Groceries")
           (Household.typing
              [lit "a"; lit "Bread"; lit "4"; lit "d 1"; lit "b"])
           (typing_consistent _)).
Defined.

(** A whole run: a budget is created, another is opened and an item
    added, and the input ends without the exit being chosen. *)
Lemma main_keeps_consistent_household :
  consistent
    (db (snd (main Sample.cipher Sample.whole Household.ascii
                   (Household.typing
                      [lit "1"; lit "Travel"; lit "2"; lit "o 2"; lit "a";
                       lit "Bread"; lit "4"])))).
Proof.
  apply (@main_keeps_consistent
           Sample.cipher Sample.whole Household.ascii
           (Household.typing
              [lit "1"; lit "Travel"; lit "2"; lit "o 2"; lit "a";
               lit "Bread"; lit "4"])
           (typing_consistent _)).
Defined.

Lemma add_command_lists_item_bread :
  exists c',
    run_item_command 1%Z [] [lit "a"]
                     (Household.typing [lit "Bread"; lit "4"])
    = (Done Continue, c')
    /\ stdin c' = []
    /\ get_budgets (db c')
       = get_budgets (db (Household.typing [lit "Bread"; lit "4"]))
    /\ forall lines total,
         show_items Sample.cipher Sample.whole Sample.manager
                    (get_items (db (Household.typing [lit "Bread"; lit "4"])) 1)
                    (float_zero Sample.whole)
         = Returns (lines, total) ->
         show_items Sample.cipher Sample.whole Sample.manager
                    (get_items (db c') 1) (float_zero Sample.whole)
         = Returns
             (lines
                ++ [plain_line
                      Sample.whole
                      ((items_seq (db (Household.typing [lit "Bread"; lit "4"]))
                        + 1)%Z,
                       lit "Bread", lit "4")],
              match float_of_str Sample.whole (lit "4") with
              | Some x => float_add Sample.whole total x
              | None => total
              end).
Proof.
  apply (@add_command_lists_item
           Sample.cipher Sample.whole Household.ascii Sample.manager
           1%Z [] (lit "a") [] (lit "Bread") (lit "4")
           (list_byte_of_string "Bread") (list_byte_of_string "4") []
           (Household.typing [lit "Bread"; lit "4"])
           sample_correct sample_tag_length sample_constructed
           (typing_consistent _)).
  - vm_compute. auto.
  - vm_compute. reflexivity.
  - reflexivity.
  - reflexivity.
  - exact practical_bread.
  - exact practical_four.
Defined.

Lemma edit_command_unencodable_household :
  exists c',
    run_item_command
      1%Z (get_items Household.db 1) [lit "e"; lit "3"]
      (Household.typing [Household.undecoded; lit "5"])
    = (Done Continue, c')
    /\ db c' = db (Household.typing [Household.undecoded; lit "5"])
    /\ stdin c' = []
    /\ screen c'
       = Say (lit "Invalid ID format.") :: Ask (lit "New Amount: ")
           :: Ask (lit "New Description: ")
           :: screen (Household.typing [Household.undecoded; lit "5"]).
Proof.
  apply (@edit_command_unencodable
           Sample.cipher Sample.whole Household.ascii Sample.manager
           1%Z 3%Z (get_items Household.db 1) (lit "e") (lit "3") []
           Household.undecoded (lit "5") []
           (Household.typing [Household.undecoded; lit "5"])).
  - reflexivity.
  - reflexivity.
  - vm_compute. reflexivity.
  - reflexivity.
  - left. reflexivity.
Defined.

Lemma add_unencodable_closes_budget_household :
  exists c',
    run_budget_command
      (get_budgets
         (db (Household.typing [lit "a"; Household.undecoded; lit "4"; lit "b"])))
      [lit "o"; lit "1"]
      (Household.typing [lit "a"; Household.undecoded; lit "4"; lit "b"])
    = (Done Continue, c')
    /\ db c'
       = db (Household.typing [lit "a"; Household.undecoded; lit "4"; lit "b"])
    /\ stdin c' = [lit "b"]
    /\ exists earlier, screen c' = Say (lit "Invalid input.") :: earlier.
Proof.
  apply (@add_unencodable_closes_budget
           Sample.cipher Sample.whole Household.ascii Sample.manager
           1%Z (1%Z, lit "Groceries") (lit "o") (lit "1") []
           (lit "a") (lit "a") [] Household.undecoded (lit "4") [lit "b"]
           (Household.typing [lit "a"; Household.undecoded; lit "4"; lit "b"])
           (typing_consistent _)).
  - reflexivity.
  - reflexivity.
  - vm_compute. reflexivity.
  - reflexivity.
  - reflexivity.
  - reflexivity.
  - reflexivity.
Defined.

Lemma delete_command_asks_household :
  exists c',
    run_budget_command
      (get_budgets (db (Household.typing [lit "Y"]))) [lit "d"; lit "1"]
      (Household.typing [lit "Y"])
    = (Done Continue, c')
    /\ stdin c' = []
    /\ if str_eqb (lower Household.ascii (lit "Y")) (lit "y")
       then db c' = after (DeleteBudget 1) (db (Household.typing [lit "Y"]))
            /\ ~ In 1%Z (budget_ids (db c'))
            /\ screen c'
               = Say (lit "Budget deleted.")
                   :: AskDelete (snd (1%Z, lit "Groceries"))
                   :: screen (Household.typing [lit "Y"])
       else db c' = db (Household.typing [lit "Y"])
            /\ screen c'
               = AskDelete (snd (1%Z, lit "Groceries"))
                   :: screen (Household.typing [lit "Y"]).
Proof.
  apply (@delete_command_asks
           Sample.cipher Sample.whole Household.ascii Sample.manager
           1%Z (1%Z, lit "Groceries") (lit "d") (lit "1") []
           (lit "Y") [] (Household.typing [lit "Y"])
           (typing_consistent _)).
  - reflexivity.
  - reflexivity.
  - vm_compute. reflexivity.
  - reflexivity.
Defined.

End ConsoleRuns.
